(** * Aura-FIT: the live coaching session (components/LiveSession.tsx)

    A shallow embedding of the audio codec bridge, the playback scheduler,
    the tool-call handlers, the exercise progression, the overlay renderer
    and the effect cleanup of the [LiveSession] React component, with the
    properties stated about them in the specification, followed by further
    properties of the same code (the codec on arbitrary payloads, the
    traffic of a run, what a render does to the audio contexts, the pose
    tracker and the media streams) and of the application shell that
    mounts the component ([App] and [Navigation]).

    Conventions of the embedding.
    - JavaScript numbers that carry audio samples or times are rationals
      ([Q]).  Every [Float32Array] element is a dyadic rational, and the
      operations the codec applies to it (multiplication by 32768,
      truncation, division of a 16-bit integer by 32768) are exact on
      them, so no rounding is lost by this choice.
    - Strings are [string]; a "binary string" (every char code below 256)
      is a [string] as well, an [ascii] being exactly such a char.
    - Effects on the outside world (messages sent on the live session,
      haptics, audio sources started, resources closed, [onExit]) are
      appended, in program order, to a log carried by the state.
    - Every asynchronous step (a [getUserMedia] promise, a [.then] on the
      session promise) is taken to complete before the next event is
      delivered, and the session promise to be fulfilled.  The one
      interleaving taken apart is that of two camera requests pending at
      once ([both_granted]).
    - The updater given to [setCurrentStep] is taken to run when
      [handleNextStep] is called.  React may run it later, once the handler
      has returned; the effects of an advance (haptic, [onExit], tool
      response, text) then come after those of the function calls that
      follow it in the same message.  No statement below depends on how
      the effects of an advance interleave with those of other calls.
    - When the component is unmounted, React has detached the ref of the
      video element before the cleanup of the camera effect runs
      ([unmount]); between two renders the ref is attached.
    - A callback created inside [connectToLive] sees the state variables of
      the render that created [connectToLive]; what it reads through a ref
      is current.  The closure is therefore an explicit argument.
    - Left out: the JSX of the component, the two frame loops (pose
      tracking and the video snapshots sent to the model), the [onended]
      timer of a source and the text of the system instruction. *)

From Stdlib Require Import ZArith QArith Qminmax Qabs List String Ascii Bool.
From Stdlib Require Import Lia Lqa.
Import ListNotations.

Local Open Scope Z_scope.

(* ------------------------------------------------------------------ *)
(** ** Audio codec bridge: [createPcmBlob] and [decodeAudioData]        *)
(* ------------------------------------------------------------------ *)

Module Codec.

Definition PCM_SAMPLE_RATE : Z := 24000.
Definition INPUT_SAMPLE_RATE : Z := 16000.

(** *** Typed arrays *)

(** Truncation towards zero of a number. *)
Definition truncate (x : Q) : Z := Z.quot (Qnum x) (Z.pos (Qden x)).

(** ECMAScript [ToInt16], the conversion performed by a store into an
    [Int16Array]: truncate, reduce modulo 2^16, read as two's complement. *)
Definition ToInt16 (x : Q) : Z :=
  let int16bit := (truncate x) mod 65536 in
  if 32768 <=? int16bit then int16bit - 65536 else int16bit.

(** The two bytes of an [Int16Array] element seen through
    [new Uint8Array(int16.buffer)] (little-endian). *)
Definition int16_bytes (v : Z) : list Z :=
  let u := v mod 65536 in [u mod 256; u / 256].

(** [new Int16Array(bytes.buffer)]: a [RangeError] ([None]) when the byte
    length is odd. *)
Fixpoint Int16Array_of_bytes (bytes : list Z) : option (list Z) :=
  match bytes with
  | [] => Some []
  | lo :: hi :: rest =>
      match Int16Array_of_bytes rest with
      | Some vs =>
          let u := lo + 256 * hi in
          Some ((if 32768 <=? u then u - 65536 else u) :: vs)
      | None => None
      end
  | [_] => None
  end.

Definition fromCharCode (b : Z) : ascii := ascii_of_N (Z.to_N b).
Definition charCodeAt (c : ascii) : Z := Z.of_N (N_of_ascii c).

(** *** [btoa] and [atob] *)

Definition alphabet : list ascii :=
  list_ascii_of_string
    "ABCDEFGHIJKLMNOPQRSTUVWXYZabcdefghijklmnopqrstuvwxyz0123456789+/".

Definition pad : ascii := "="%char.

Definition b64_char (n : Z) : ascii := nth (Z.to_nat n) alphabet pad.

Fixpoint index_of (c : ascii) (l : list ascii) (i : Z) : option Z :=
  match l with
  | [] => None
  | x :: r => if Ascii.eqb c x then Some i else index_of c r (i + 1)
  end.

Definition b64_index (c : ascii) : option Z := index_of c alphabet 0.

Fixpoint btoa_bytes (l : list Z) : list ascii :=
  match l with
  | a :: b :: c :: r =>
      b64_char (a / 4) :: b64_char ((a mod 4) * 16 + b / 16)
        :: b64_char ((b mod 16) * 4 + c / 64) :: b64_char (c mod 64)
        :: btoa_bytes r
  | [a; b] =>
      [b64_char (a / 4); b64_char ((a mod 4) * 16 + b / 16);
       b64_char ((b mod 16) * 4); pad]
  | [a] => [b64_char (a / 4); b64_char ((a mod 4) * 16); pad; pad]
  | [] => []
  end.

(** [btoa] of a binary string. *)
Definition btoa (binary : string) : string :=
  string_of_list_ascii
    (btoa_bytes (map charCodeAt (list_ascii_of_string binary))).

Definition is_ascii_whitespace (c : ascii) : bool :=
  let n := charCodeAt c in
  (n =? 9) || (n =? 10) || (n =? 12) || (n =? 13) || (n =? 32).

(** When the length is a multiple of four, one or two trailing padding
    characters are removed. *)
Definition strip_padding (l : list ascii) : list ascii :=
  if Z.of_nat (List.length l) mod 4 =? 0 then
    match rev l with
    | c1 :: c2 :: r =>
        if Ascii.eqb c1 pad then
          if Ascii.eqb c2 pad then rev r else rev (c2 :: r)
        else l
    | [c1] => if Ascii.eqb c1 pad then [] else l
    | [] => l
    end
  else l.

Fixpoint sextets (l : list ascii) : option (list Z) :=
  match l with
  | [] => Some []
  | c :: r =>
      match b64_index c, sextets r with
      | Some i, Some rest => Some (i :: rest)
      | _, _ => None
      end
  end.

Fixpoint decode_groups (l : list Z) : list Z :=
  match l with
  | a :: b :: c :: d :: r =>
      (a * 4 + b / 16) :: ((b mod 16) * 16 + c / 4) :: ((c mod 4) * 64 + d)
        :: decode_groups r
  | [a; b; c] => [a * 4 + b / 16; (b mod 16) * 16 + c / 4]
  | [a; b] => [a * 4 + b / 16]
  | _ => []
  end.

(** The forgiving base64 decoding of the HTML standard, from characters to
    bytes: whitespace is dropped, padding is stripped, a length of 1 modulo
    4 or a character outside the alphabet is a failure. *)
Definition forgiving_base64_decode (l : list ascii) : option (list Z) :=
  let data :=
    strip_padding (filter (fun c => negb (is_ascii_whitespace c)) l) in
  if Z.of_nat (List.length data) mod 4 =? 1 then None
  else
    match sextets data with
    | Some ss => Some (decode_groups ss)
    | None => None
    end.

(** [atob]; [None] is the [InvalidCharacterError] it throws. *)
Definition atob (base64 : string) : option string :=
  match forgiving_base64_decode (list_ascii_of_string base64) with
  | Some bytes => Some (string_of_list_ascii (map fromCharCode bytes))
  | None => None
  end.

(** *** The two directions of the bridge *)

Record PcmBlob := { data : string; mimeType : string }.

(** [createPcmBlob] (lines 72-89). *)
Definition createPcmBlob (samples : list Q) : PcmBlob :=
  let int16 := map (fun x => ToInt16 (x * 32768)%Q) samples in
  let bytes := flat_map int16_bytes int16 in
  let binary := string_of_list_ascii (map fromCharCode bytes) in
  {| data := btoa binary; mimeType := "audio/pcm;rate=16000" |}.

(** A mono [AudioBuffer]. *)
Record AudioBuffer := {
  channelData : list Q;
  sampleRate : Z
}.

Definition duration (b : AudioBuffer) : Q :=
  (inject_Z (Z.of_nat (List.length (channelData b))) / inject_Z (sampleRate b))%Q.

(** [ctx.createBuffer(1, length, rate)] followed by
    [getChannelData(0).set(float32)]: a [NotSupportedError] ([None]) for
    a buffer of no frame. *)
Definition createBuffer (float32 : list Q) (rate : Z) : option AudioBuffer :=
  match float32 with
  | [] => None
  | _ => Some {| channelData := float32; sampleRate := rate |}
  end.

(** [decodeAudioData] (lines 91-107); [None] stands for a thrown exception,
    that is a rejected promise. *)
Definition decodeAudioData (base64 : string) : option AudioBuffer :=
  match atob base64 with
  | None => None
  | Some binaryString =>
      let bytes := map charCodeAt (list_ascii_of_string binaryString) in
      match Int16Array_of_bytes bytes with
      | None => None
      | Some dataInt16 =>
          let float32 := map (fun v => (inject_Z v / 32768)%Q) dataInt16 in
          createBuffer float32 PCM_SAMPLE_RATE
      end
  end.

(** *** Predicates used in the statements *)

Definition is_byte (b : Z) : Prop := 0 <= b < 256.

(** A sextet is encoded as a character that is neither whitespace nor the
    padding and that decodes to it. *)
Definition sextet_ok (n : Z) : bool :=
  negb (is_ascii_whitespace (b64_char n))
  && negb (Ascii.eqb (b64_char n) pad)
  && match b64_index (b64_char n) with
     | Some i => i =? n
     | None => false
     end.

End Codec.

(* ------------------------------------------------------------------ *)
(** ** The [LiveSession] component                                      *)
(* ------------------------------------------------------------------ *)

Module LiveSession.

Local Open Scope string_scope.

(** *** Data model (types.ts and lines 16-25) *)

Record Exercise := {
  name : string;
  durationOrReps : string;
  description : string;
  tips : string
}.

Record WorkoutPlan := {
  title : string;
  duration : string;
  difficulty : string;
  exercises : list Exercise
}.

Inductive ConnectionStatus := disconnected | connecting | connected.

(** [FormStatus] and [FocusArea] are unions of string literals; at run time
    the fields hold whatever string was stored in them. *)
Definition FormStatus : list string :=
  ["correct"; "warning"; "incorrect"; "scanning"].
Definition FocusArea : list string :=
  ["head"; "shoulders"; "torso"; "hips"; "legs"; "general"].

Record OverlayState := {
  status : string;
  feedback : string;
  focusArea : string;
  lastUpdated : Z
}.

(** *** Inbound messages of the live session *)

(** The arguments object of an [updateFormFeedback] call; the declaration
    (lines 124-147) marks the three of them required. *)
Record Args := {
  arg_status : string;
  arg_feedback : string;
  arg_focusArea : string
}.

Record FunctionCall := {
  fc_name : string;
  fc_id : string;
  fc_args : Args
}.

(** [audioData] is [msg.serverContent?.modelTurn?.parts?.[0]?.inlineData?.data]. *)
Record LiveServerMessage := {
  audioData : option string;
  toolCall : option (list FunctionCall)
}.

(** *** Effects and browser objects *)

Inductive Effect :=
| Haptic (pattern : list Z)
| SendRealtimeInput (session : nat) (media : Codec.PcmBlob)
| SendText (session : nat) (text : string)
| SendToolResponse (session : nat) (fname id result : string)
| SourceStart (ctx : nat) (buffer : Codec.AudioBuffer) (when : Q)
| TrackStop (stream : nat)
| ContextClose (ctx : nat)
| PoseClose
| OnExit
| ConsoleError (what : string)
| UnhandledRejection.

(** An [AudioContext]; [ctx_processor] is the script processor connected
    in it, with the [micActive] its [onaudioprocess] closure captured. *)
Record AudioContext := {
  ctx_sampleRate : Z;
  ctx_closed : bool;
  ctx_processor : option bool
}.

(** A live session opened by [ai.live.connect], with the [currentStep]
    its callbacks captured. *)
Record Session := { session_step : nat }.

(** What the [connectToLive] closure of a render captures. *)
Record Closure := {
  cl_connectionStatus : ConnectionStatus;
  cl_currentStep : nat;
  cl_micActive : bool
}.

(** What the browser grants and provides. *)
Record Env := {
  hasApiKey : bool;
  cameraGranted : bool;
  micGranted : bool;
  poseAvailable : bool
}.

(** *** State of the component *)

Record State := {
  (* useState *)
  currentStep : nat;
  micActive : bool;
  aiSpeaking : bool;
  connectionStatus : ConnectionStatus;
  permissionDenied : bool;
  (* useRef *)
  overlayStateRef : OverlayState;
  audioContextRef : option nat;
  inputAudioContextRef : option nat;
  sessionPromiseRef : option nat;
  nextStartTimeRef : Q;
  poseInstanceRef : option bool;       (* the pose tracker, closed or not *)
  videoSrcObject : option nat;         (* videoRef.current.srcObject *)
  (* useCallback: the memoised connectToLive *)
  connectToLiveMemo : option Closure;
  (* objects created so far, addressed by position *)
  contexts : list AudioContext;
  streams : list bool;                 (* media streams, stopped or not *)
  sessions : list Session;
  (* onExit was called: the parent removes the component *)
  exited : bool;
  log : list Effect
}.

(** Field updates. *)

Definition set_currentStep v (s : State) : State :=
  Build_State v (micActive s) (aiSpeaking s) (connectionStatus s)
    (permissionDenied s) (overlayStateRef s) (audioContextRef s)
    (inputAudioContextRef s) (sessionPromiseRef s) (nextStartTimeRef s)
    (poseInstanceRef s) (videoSrcObject s) (connectToLiveMemo s)
    (contexts s) (streams s) (sessions s) (exited s) (log s).

Definition set_micActive v (s : State) : State :=
  Build_State (currentStep s) v (aiSpeaking s) (connectionStatus s)
    (permissionDenied s) (overlayStateRef s) (audioContextRef s)
    (inputAudioContextRef s) (sessionPromiseRef s) (nextStartTimeRef s)
    (poseInstanceRef s) (videoSrcObject s) (connectToLiveMemo s)
    (contexts s) (streams s) (sessions s) (exited s) (log s).

Definition set_aiSpeaking v (s : State) : State :=
  Build_State (currentStep s) (micActive s) v (connectionStatus s)
    (permissionDenied s) (overlayStateRef s) (audioContextRef s)
    (inputAudioContextRef s) (sessionPromiseRef s) (nextStartTimeRef s)
    (poseInstanceRef s) (videoSrcObject s) (connectToLiveMemo s)
    (contexts s) (streams s) (sessions s) (exited s) (log s).

Definition set_connectionStatus v (s : State) : State :=
  Build_State (currentStep s) (micActive s) (aiSpeaking s) v
    (permissionDenied s) (overlayStateRef s) (audioContextRef s)
    (inputAudioContextRef s) (sessionPromiseRef s) (nextStartTimeRef s)
    (poseInstanceRef s) (videoSrcObject s) (connectToLiveMemo s)
    (contexts s) (streams s) (sessions s) (exited s) (log s).

Definition set_permissionDenied v (s : State) : State :=
  Build_State (currentStep s) (micActive s) (aiSpeaking s)
    (connectionStatus s) v (overlayStateRef s) (audioContextRef s)
    (inputAudioContextRef s) (sessionPromiseRef s) (nextStartTimeRef s)
    (poseInstanceRef s) (videoSrcObject s) (connectToLiveMemo s)
    (contexts s) (streams s) (sessions s) (exited s) (log s).

Definition set_overlayStateRef v (s : State) : State :=
  Build_State (currentStep s) (micActive s) (aiSpeaking s)
    (connectionStatus s) (permissionDenied s) v (audioContextRef s)
    (inputAudioContextRef s) (sessionPromiseRef s) (nextStartTimeRef s)
    (poseInstanceRef s) (videoSrcObject s) (connectToLiveMemo s)
    (contexts s) (streams s) (sessions s) (exited s) (log s).

Definition set_audioContextRef v (s : State) : State :=
  Build_State (currentStep s) (micActive s) (aiSpeaking s)
    (connectionStatus s) (permissionDenied s) (overlayStateRef s) v
    (inputAudioContextRef s) (sessionPromiseRef s) (nextStartTimeRef s)
    (poseInstanceRef s) (videoSrcObject s) (connectToLiveMemo s)
    (contexts s) (streams s) (sessions s) (exited s) (log s).

Definition set_inputAudioContextRef v (s : State) : State :=
  Build_State (currentStep s) (micActive s) (aiSpeaking s)
    (connectionStatus s) (permissionDenied s) (overlayStateRef s)
    (audioContextRef s) v (sessionPromiseRef s) (nextStartTimeRef s)
    (poseInstanceRef s) (videoSrcObject s) (connectToLiveMemo s)
    (contexts s) (streams s) (sessions s) (exited s) (log s).

Definition set_sessionPromiseRef v (s : State) : State :=
  Build_State (currentStep s) (micActive s) (aiSpeaking s)
    (connectionStatus s) (permissionDenied s) (overlayStateRef s)
    (audioContextRef s) (inputAudioContextRef s) v (nextStartTimeRef s)
    (poseInstanceRef s) (videoSrcObject s) (connectToLiveMemo s)
    (contexts s) (streams s) (sessions s) (exited s) (log s).

Definition set_nextStartTimeRef v (s : State) : State :=
  Build_State (currentStep s) (micActive s) (aiSpeaking s)
    (connectionStatus s) (permissionDenied s) (overlayStateRef s)
    (audioContextRef s) (inputAudioContextRef s) (sessionPromiseRef s) v
    (poseInstanceRef s) (videoSrcObject s) (connectToLiveMemo s)
    (contexts s) (streams s) (sessions s) (exited s) (log s).

Definition set_poseInstanceRef v (s : State) : State :=
  Build_State (currentStep s) (micActive s) (aiSpeaking s)
    (connectionStatus s) (permissionDenied s) (overlayStateRef s)
    (audioContextRef s) (inputAudioContextRef s) (sessionPromiseRef s)
    (nextStartTimeRef s) v (videoSrcObject s) (connectToLiveMemo s)
    (contexts s) (streams s) (sessions s) (exited s) (log s).

Definition set_videoSrcObject v (s : State) : State :=
  Build_State (currentStep s) (micActive s) (aiSpeaking s)
    (connectionStatus s) (permissionDenied s) (overlayStateRef s)
    (audioContextRef s) (inputAudioContextRef s) (sessionPromiseRef s)
    (nextStartTimeRef s) (poseInstanceRef s) v (connectToLiveMemo s)
    (contexts s) (streams s) (sessions s) (exited s) (log s).

Definition set_connectToLiveMemo v (s : State) : State :=
  Build_State (currentStep s) (micActive s) (aiSpeaking s)
    (connectionStatus s) (permissionDenied s) (overlayStateRef s)
    (audioContextRef s) (inputAudioContextRef s) (sessionPromiseRef s)
    (nextStartTimeRef s) (poseInstanceRef s) (videoSrcObject s) v
    (contexts s) (streams s) (sessions s) (exited s) (log s).

Definition set_contexts v (s : State) : State :=
  Build_State (currentStep s) (micActive s) (aiSpeaking s)
    (connectionStatus s) (permissionDenied s) (overlayStateRef s)
    (audioContextRef s) (inputAudioContextRef s) (sessionPromiseRef s)
    (nextStartTimeRef s) (poseInstanceRef s) (videoSrcObject s)
    (connectToLiveMemo s) v (streams s) (sessions s) (exited s) (log s).

Definition set_streams v (s : State) : State :=
  Build_State (currentStep s) (micActive s) (aiSpeaking s)
    (connectionStatus s) (permissionDenied s) (overlayStateRef s)
    (audioContextRef s) (inputAudioContextRef s) (sessionPromiseRef s)
    (nextStartTimeRef s) (poseInstanceRef s) (videoSrcObject s)
    (connectToLiveMemo s) (contexts s) v (sessions s) (exited s) (log s).

Definition set_sessions v (s : State) : State :=
  Build_State (currentStep s) (micActive s) (aiSpeaking s)
    (connectionStatus s) (permissionDenied s) (overlayStateRef s)
    (audioContextRef s) (inputAudioContextRef s) (sessionPromiseRef s)
    (nextStartTimeRef s) (poseInstanceRef s) (videoSrcObject s)
    (connectToLiveMemo s) (contexts s) (streams s) v (exited s) (log s).

Definition set_exited v (s : State) : State :=
  Build_State (currentStep s) (micActive s) (aiSpeaking s)
    (connectionStatus s) (permissionDenied s) (overlayStateRef s)
    (audioContextRef s) (inputAudioContextRef s) (sessionPromiseRef s)
    (nextStartTimeRef s) (poseInstanceRef s) (videoSrcObject s)
    (connectToLiveMemo s) (contexts s) (streams s) (sessions s) v (log s).

Definition set_log v (s : State) : State :=
  Build_State (currentStep s) (micActive s) (aiSpeaking s)
    (connectionStatus s) (permissionDenied s) (overlayStateRef s)
    (audioContextRef s) (inputAudioContextRef s) (sessionPromiseRef s)
    (nextStartTimeRef s) (poseInstanceRef s) (videoSrcObject s)
    (connectToLiveMemo s) (contexts s) (streams s) (sessions s) (exited s) v.

Definition emit (e : Effect) (s : State) : State :=
  set_log (log s ++ [e])%list s.

Fixpoint update_at {A} (i : nat) (f : A -> A) (l : list A) : list A :=
  match l, i with
  | [], _ => []
  | x :: r, O => f x :: r
  | x :: r, S j => x :: update_at j f r
  end.

(** The first state of the component (lines 42-64). *)
Definition initial (now : Z) : State :=
  {| currentStep := 0; micActive := true; aiSpeaking := false;
     connectionStatus := disconnected; permissionDenied := false;
     overlayStateRef :=
       {| status := "scanning"; feedback := "Aligning body...";
          focusArea := "general"; lastUpdated := now |};
     audioContextRef := None; inputAudioContextRef := None;
     sessionPromiseRef := None; nextStartTimeRef := 0%Q;
     poseInstanceRef := None; videoSrcObject := None;
     connectToLiveMemo := None;
     contexts := []; streams := []; sessions := [];
     exited := false; log := [] |}.

Section Component.

(** The props of the component and the browser it runs in. *)
Variable plan : WorkoutPlan.
Variable env : Env.

(** [triggerHaptic] (lines 111-115). *)
Definition triggerHaptic (pattern : list Z) (s : State) : State :=
  emit (Haptic pattern) s.

(** [sessionPromiseRef.current?.then(session => ...)]: the callback runs on
    the session the ref holds, if it holds one. *)
Definition with_session (k : nat -> State -> State) (s : State) : State :=
  match sessionPromiseRef s with
  | Some session => k session s
  | None => s
  end.

(** [onExit], the prop: [App.endWorkout] leaves the live view. *)
Definition onExit (s : State) : State := set_exited true (emit OnExit s).

(** *** Outbound audio: [processor.onaudioprocess] (lines 165-172)

    [micActive] is the variable of the enclosing [connectToLive] closure. *)
Definition onaudioprocess (micActive : bool) (inputData : list Q)
    (s : State) : State :=
  match micActive, sessionPromiseRef s with
  | true, Some session =>
      emit (SendRealtimeInput session (Codec.createPcmBlob inputData)) s
  | _, _ => s
  end.

(** *** [connectToLive] (lines 151-268)

    [cl] holds the values of [connectionStatus], [currentStep] and
    [micActive] in the render that created the callback. *)
Definition connection_failed (s : State) : State :=
  set_connectionStatus disconnected (emit (ConsoleError "Connection failed") s).

Definition newAudioContext (rate : Z) (s : State) : State :=
  set_contexts
    (contexts s ++
     [{| ctx_sampleRate := rate; ctx_closed := false; ctx_processor := None |}])%list
    s.

Definition createScriptProcessor (ctx : nat) (micActive : bool) (s : State)
    : State :=
  set_contexts
    (update_at ctx
       (fun c => {| ctx_sampleRate := ctx_sampleRate c;
                    ctx_closed := ctx_closed c;
                    ctx_processor := Some micActive |})
       (contexts s)) s.

(** The [try] block (lines 155-267), with its [catch]. *)
Definition connectToLive_try (cl : Closure) (s : State) : State :=
  if negb (hasApiKey env) then connection_failed s
  else
    let out := List.length (contexts s) in
    let s := set_audioContextRef (Some out)
               (newAudioContext Codec.PCM_SAMPLE_RATE s) in
    let inp := List.length (contexts s) in
    let s := set_inputAudioContextRef (Some inp)
               (newAudioContext Codec.INPUT_SAMPLE_RATE s) in
    if negb (micGranted env) then connection_failed s
    else
      let s := set_streams (streams s ++ [false])%list s in
      let s := createScriptProcessor inp (cl_micActive cl) s in
      let session := List.length (sessions s) in
      set_sessionPromiseRef (Some session)
        (set_sessions
           (sessions s ++ [{| session_step := cl_currentStep cl |}])%list s).

Definition connectToLive (cl : Closure) (s : State) : State :=
  match cl_connectionStatus cl with
  | connected | connecting => s
  | disconnected => connectToLive_try cl (set_connectionStatus connecting s)
  end.

(** The [onopen] callback of a session (lines 204-209). *)
Definition onopen (session : nat) (s : State) : State :=
  let s := set_connectionStatus connected s in
  with_session
    (fun target s =>
       match nth_error (sessions s) session with
       | Some se =>
           match nth_error (exercises plan) (session_step se) with
           | Some e =>
               emit (SendText target
                       ("Starting " ++ name e ++ ". Let's see your form.")) s
           | None => emit UnhandledRejection s
           end
       | None => s
       end) s.

(** *** [handleNextStep] (lines 270-299)

    The updater is run at the call (React may defer it to its next
    render, see the conventions).  The callback given to [.then] runs once
    the updater has returned, hence after [onExit] on the last
    exercise. *)
Definition handleNextStep (functionCallId : string) (s : State) : State :=
  let prev := currentStep s in
  let next := S prev in
  let n := List.length (exercises plan) in
  let s := if String.eqb functionCallId "manual"
           then triggerHaptic [200] s else s in
  let announce (s : State) : State :=
    if String.eqb functionCallId "manual" then s
    else
      with_session
        (fun session s =>
           let s := emit (SendToolResponse session "nextExercise"
                            functionCallId "Moved to next") s in
           if (next <? n)%nat then
             match nth_error (exercises plan) next with
             | Some e =>
                 emit (SendText session ("Next up: " ++ name e ++ ".")) s
             | None => emit UnhandledRejection s
             end
           else emit (SendText session "Workout complete!") s) s in
  if (n <=? next)%nat then announce (onExit s)
  else announce (set_currentStep next s).

(** *** The [onmessage] callback (lines 210-259) *)

(** One function call of a tool call (lines 231-256). *)
Definition handleFunctionCall (now : Z) (fc : FunctionCall) (s : State)
    : State :=
  if String.eqb (fc_name fc) "nextExercise" then
    handleNextStep (fc_id fc) (triggerHaptic [200] s)
  else if String.eqb (fc_name fc) "updateFormFeedback" then
    let args := fc_args fc in
    let s := if String.eqb (arg_status args) "incorrect"
             then triggerHaptic [100; 50; 100] s else s in
    let s := set_overlayStateRef
               {| status := arg_status args; feedback := arg_feedback args;
                  focusArea := arg_focusArea args; lastUpdated := now |} s in
    with_session
      (fun session =>
         emit (SendToolResponse session "updateFormFeedback" (fc_id fc)
                 "Overlay updated")) s
  else s.

Definition handleToolCall (now : Z) (msg : LiveServerMessage) (s : State)
    : State :=
  match toolCall msg with
  | Some functionCalls =>
      fold_left (fun s fc => handleFunctionCall now fc s) functionCalls s
  | None => s
  end.

(** The truthiness of [audioData]. *)
Definition truthy (d : option string) : option string :=
  match d with
  | Some "" => None
  | other => other
  end.

(** [now] is [Date.now()] and [currentTime] is [ctx.currentTime] when the
    message is handled.  A payload that [decodeAudioData] rejects makes the
    [await] throw: the callback stops there and its promise is rejected. *)
Definition onmessage (msg : LiveServerMessage) (now : Z) (currentTime : Q)
    (s : State) : State :=
  match truthy (audioData msg), audioContextRef s with
  | Some payload, Some ctx =>
      let s := set_aiSpeaking true s in
      let s := triggerHaptic [50] s in
      match Codec.decodeAudioData payload with
      | None => emit UnhandledRejection s
      | Some buffer =>
          let startTime := Qmax currentTime (nextStartTimeRef s) in
          let s := emit (SourceStart ctx buffer startTime) s in
          let s := set_nextStartTimeRef
                     (startTime + Codec.duration buffer)%Q s in
          handleToolCall now msg s
      end
  | _, _ => handleToolCall now msg s
  end.

(** *** The cleanup of the camera effect (lines 480-487) *)

Definition stop_tracks (stream : nat) (s : State) : State :=
  emit (TrackStop stream)
    (set_streams (update_at stream (fun _ => true) (streams s)) s).

(** [AudioContext.close()]. *)
Definition close (c : AudioContext) : AudioContext :=
  {| ctx_sampleRate := ctx_sampleRate c; ctx_closed := true;
     ctx_processor := ctx_processor c |}.

Definition close_context (ctx : nat) (s : State) : State :=
  emit (ContextClose ctx) (set_contexts (update_at ctx close (contexts s)) s).

Definition close_pose (s : State) : State :=
  emit PoseClose (set_poseInstanceRef (Some true) s).

(** [videoRef] tells whether [videoRef.current] holds the video element
    when the cleanup runs, so that [if videoRef then videoSrcObject s else
    None] is [videoRef.current && videoRef.current.srcObject].  It holds
    it when the effect is run again between two renders. *)
Definition cleanup (videoRef : bool) (s : State) : State :=
  let s := match (if videoRef then videoSrcObject s else None) with
           | Some stream => stop_tracks stream s
           | None => s
           end in
  let s := match audioContextRef s with
           | Some ctx => close_context ctx s
           | None => s
           end in
  let s := match inputAudioContextRef s with
           | Some ctx => close_context ctx s
           | None => s
           end in
  match poseInstanceRef s with
  | Some _ => close_pose s
  | None => s
  end.


(** *** Renders and effects

    [useCallback(..., [plan, currentStep, micActive])] (line 268) keeps the
    memoised [connectToLive] while [currentStep] and [micActive] are the
    ones it captured ([plan] never changes), and replaces it by the closure
    of the current render otherwise.  [useEffect(..., [connectToLive])]
    (lines 466-488) then runs the cleanup of its previous run and
    [startCamera] again. *)

Definition capture (s : State) : Closure :=
  {| cl_connectionStatus := connectionStatus s;
     cl_currentStep := currentStep s;
     cl_micActive := micActive s |}.

Definition same_deps (cl : Closure) (s : State) : bool :=
  (cl_currentStep cl =? currentStep s)%nat
  && Bool.eqb (cl_micActive cl) (micActive s).

(** [startCamera] (lines 467-478). *)
Definition startCamera (connect : Closure) (s : State) : State :=
  if cameraGranted env then
    let stream := List.length (streams s) in
    let s := set_videoSrcObject (Some stream)
               (set_streams (streams s ++ [false])%list s) in
    connectToLive connect s
  else set_permissionDenied true (emit (ConsoleError "Camera error") s).

(** [initPose] (lines 402-420). *)
Definition initPose (s : State) : State :=
  if poseAvailable env then set_poseInstanceRef (Some false) s else s.

(** The component after its first render and its mount effects. *)
Definition mount (now : Z) : State :=
  let s := initial now in
  let cl := capture s in
  startCamera cl (initPose (set_connectToLiveMemo (Some cl) s)).

Definition rerender (s : State) : State :=
  match connectToLiveMemo s with
  | Some cl =>
      if same_deps cl s then s
      else
        let cl' := capture s in
        startCamera cl' (cleanup true (set_connectToLiveMemo (Some cl') s))
  | None => s
  end.

(** *** Events *)

Inductive Event :=
| ToggleMic                       (* the microphone button, line 603 *)
| ManualNext                      (* the next button, line 614 *)
| ExitButton                      (* the close button, line 555 *)
| Open (session : nat)
| Message (msg : LiveServerMessage) (now : Z) (currentTime : Q)
| Close
| SessionError
| AudioProcess (inputData : list Q). (* the microphone delivers a chunk *)

(** A captured chunk reaches the script processor of every audio context
    that is still running. *)
Definition deliver_audio (inputData : list Q) (s : State) : State :=
  fold_left
    (fun s c =>
       match ctx_closed c, ctx_processor c with
       | false, Some micActive => onaudioprocess micActive inputData s
       | _, _ => s
       end)
    (contexts s) s.

Definition handle (ev : Event) (s : State) : State :=
  match ev with
  | ToggleMic => set_micActive (negb (micActive s)) s
  | ManualNext => handleNextStep "manual" s
  | ExitButton => onExit s
  | Open session => onopen session s
  | Message msg now currentTime => onmessage msg now currentTime s
  | Close => set_connectionStatus disconnected s
  | SessionError => emit (ConsoleError "Live API Error") s
  | AudioProcess inputData => deliver_audio inputData s
  end.

(** One event: its handler, then the render it causes.  Once [onExit] was
    called the parent removes the component and no event reaches it. *)
Definition step (s : State) (ev : Event) : State :=
  if exited s then s
  else
    let s' := handle ev s in
    if exited s' then s' else rerender s'.

Definition run (evs : list Event) (s : State) : State := fold_left step evs s.

End Component.

(** *** The overlay renderer: [onPoseResults] (lines 303-399) *)

Record Landmark := { lm_x : Q; lm_y : Q }.

(** The calls made on the 2D context and on the MediaPipe drawing
    utilities; [Arc x y r] is the full circle [arc(x, y, r, 0, 2 * Math.PI)]. *)
Inductive DrawCmd :=
| Save
| Restore
| ClearRect (x y w h : Q)
| DrawConnectors (color : string) (lineWidth : Z)
| DrawLandmarks (color : string) (lineWidth radius : Z)
| FillStyle (style : string)
| StrokeStyle (style : string)
| LineWidth (n : Z)
| Font (font : string)
| BeginPath
| Arc (x y r : Q)
| Fill
| Stroke
| MoveTo (x y : Q)
| LineTo (x y : Q)
| FillText (text : string) (x y : Q)
| FillRect (x y w h : Q).

(** Which drawing utilities the page loaded. *)
Record Window := { drawConnectors : bool; drawLandmarks : bool }.

Definition status_color (status : string) : string :=
  let color := "#06b6d4" in
  let color := if String.eqb status "correct" then "#22c55e" else color in
  let color := if String.eqb status "incorrect" then "#ef4444" else color in
  if String.eqb status "warning" then "#eab308" else color.

(** Lines 348-353. *)
Definition targetLandmark (state : OverlayState) (poseLandmarks : list Landmark)
    : option Landmark :=
  if negb (String.eqb (status state) "scanning")
     && negb (String.eqb (status state) "correct")
  then
    if String.eqb (focusArea state) "head" then nth_error poseLandmarks 0
    else if String.eqb (focusArea state) "shoulders"
    then nth_error poseLandmarks 11
    else if String.eqb (focusArea state) "hips" then nth_error poseLandmarks 23
    else None
  else None.

(** Lines 356-380. *)
Definition callout (color feedback : string) (w h : Q) (target : Landmark)
    : list DrawCmd :=
  let tx := (lm_x target * w)%Q in
  let ty := (lm_y target * h)%Q in
  [ FillStyle color; BeginPath; Arc tx ty 20; Fill;
    FillStyle "black"; Font "bold 12px Inter";
    FillText "!" (tx - 2)%Q (ty + 4)%Q;
    StrokeStyle color; LineWidth 2; BeginPath;
    MoveTo tx ty; LineTo (tx + 50)%Q (ty - 50)%Q; Stroke;
    FillStyle "rgba(15, 23, 42, 0.9)";
    FillRect (tx + 50)%Q (ty - 70)%Q 140 30;
    FillStyle "white"; FillText feedback (tx + 60)%Q (ty - 50)%Q ].

(** Lines 386-396. *)
Definition corners (w h : Q) : list DrawCmd :=
  let cornerSize := 40%Q in
  [ StrokeStyle "rgba(6, 182, 212, 0.3)"; LineWidth 2;
    BeginPath; MoveTo 20 (20 + cornerSize)%Q; LineTo 20 20;
    LineTo (20 + cornerSize)%Q 20; Stroke;
    BeginPath; MoveTo (w - 20)%Q (20 + cornerSize)%Q; LineTo (w - 20)%Q 20;
    LineTo (w - 20 - cornerSize)%Q 20; Stroke;
    BeginPath; MoveTo 20 (h - 20 - cornerSize)%Q; LineTo 20 (h - 20)%Q;
    LineTo (20 + cornerSize)%Q (h - 20)%Q; Stroke;
    BeginPath; MoveTo (w - 20)%Q (h - 20 - cornerSize)%Q;
    LineTo (w - 20)%Q (h - 20)%Q;
    LineTo (w - 20 - cornerSize)%Q (h - 20)%Q; Stroke ].

Definition skeleton (win : Window) (color : string) : list DrawCmd :=
  ((if drawConnectors win then [DrawConnectors color 4] else [])
   ++ (if drawLandmarks win then [DrawLandmarks "#ffffff" 2 4] else []))%list.

(** [canvas] is the size of the overlay canvas once it was fitted to the
    video ([None]: no canvas or no 2D context); [poseLandmarks] is
    [results.poseLandmarks]. *)
Definition onPoseResults (win : Window) (canvas : option (Q * Q))
    (state : OverlayState) (poseLandmarks : option (list Landmark))
    : list DrawCmd :=
  match canvas with
  | None => []
  | Some (w, h) =>
      let color := status_color (status state) in
      ([Save; ClearRect 0 0 w h]
       ++ match poseLandmarks with
          | Some landmarks =>
              skeleton win color
              ++ match targetLandmark state landmarks with
                 | Some target => callout color (feedback state) w h target
                 | None => []
                 end
          | None => []
          end
       ++ corners w h ++ [Restore])%list
  end.

(** *** Observations on the effect log *)

(** What a run from [s] to [s'] appended to the log. *)
Definition emitted (s s' : State) : list Effect :=
  skipn (List.length (log s)) (log s').

Definition sent_texts (l : list Effect) : list string :=
  flat_map (fun e => match e with SendText _ t => [t] | _ => [] end) l.

Definition sent_audio (l : list Effect) : list Codec.PcmBlob :=
  flat_map (fun e => match e with SendRealtimeInput _ m => [m] | _ => [] end) l.

Definition tool_responses (l : list Effect) : list (string * string) :=
  flat_map
    (fun e => match e with SendToolResponse _ f id _ => [(f, id)] | _ => [] end)
    l.

(** The audio segments put on the output timeline: start and duration. *)
Definition scheduled (l : list Effect) : list (Q * Q) :=
  flat_map
    (fun e =>
       match e with
       | SourceStart _ b t => [(t, Codec.duration b)]
       | _ => []
       end) l.

(** The [micActive] captured by each script processor that still runs. *)
Definition running_processors (s : State) : list bool :=
  flat_map
    (fun c =>
       match ctx_closed c, ctx_processor c with
       | false, Some micActive => [micActive]
       | _, _ => []
       end) (contexts s).

(** Segments laid on the timeline from a cursor: each one starts at or
    after the cursor, which then moves to its end; [final] is where the
    cursor stands after the last one. *)
Fixpoint back_to_back (cursor : Q) (segments : list (Q * Q)) (final : Q)
    : Prop :=
  match segments with
  | [] => final = cursor
  | (start, d) :: rest =>
      (cursor <= start)%Q /\ (0 <= d)%Q
      /\ back_to_back (start + d)%Q rest final
  end.

(** [s'] was reached from [s] without touching the playback timeline. *)
Definition quiet (s s' : State) : Prop :=
  nextStartTimeRef s' = nextStartTimeRef s
  /\ exists es, log s' = (log s ++ es)%list /\ scheduled es = [].

(** [s'] was reached from [s] by scheduling segments back to back. *)
Definition playback (s s' : State) : Prop :=
  exists es,
    log s' = (log s ++ es)%list
    /\ back_to_back (nextStartTimeRef s) (scheduled es) (nextStartTimeRef s').

(** The memoised [connectToLive] is the one of the current dependencies:
    so it is once a render and its effects are over. *)
Definition synced (s : State) : Prop :=
  match connectToLiveMemo s with
  | Some cl => same_deps cl s = true
  | None => True
  end.

(** [s'] has the sessions, the memoised callback, the connection status,
    the microphone flag, the audio contexts and the audio refs of [s]. *)
Definition same_wiring (s s' : State) : Prop :=
  sessions s' = sessions s
  /\ connectToLiveMemo s' = connectToLiveMemo s
  /\ connectionStatus s' = connectionStatus s
  /\ micActive s' = micActive s
  /\ contexts s' = contexts s
  /\ audioContextRef s' = audioContextRef s
  /\ inputAudioContextRef s' = inputAudioContextRef s.

(** Every audio context that still runs is held by one of the two refs. *)
Definition owned (s : State) : Prop :=
  forall i c,
    nth_error (contexts s) i = Some c -> ctx_closed c = false ->
    audioContextRef s = Some i \/ inputAudioContextRef s = Some i.

Definition all_closed (s : State) : Prop :=
  forall i c, nth_error (contexts s) i = Some c -> ctx_closed c = true.

Definition is_exit (e : Effect) : bool :=
  match e with OnExit => true | _ => false end.

Definition labels (cmds : list DrawCmd) : list string :=
  flat_map (fun c => match c with FillText t _ _ => [t] | _ => [] end) cmds.

(** The landmarks of the pose model that line 347 names. *)
Definition NOSE : nat := 0.
Definition LEFT_SHOULDER : nat := 11.
Definition LEFT_HIP : nat := 23.

(** The mapping of focus areas to landmarks as the specification words it:
    head to the nose, shoulders to the left shoulder, hips to the left hip,
    nothing for the other areas. *)
Definition mapped_landmark (area : string) : option nat :=
  if String.eqb area "head" then Some NOSE
  else if String.eqb area "shoulders" then Some LEFT_SHOULDER
  else if String.eqb area "hips" then Some LEFT_HIP
  else None.

(** The audio contexts once the one a ref holds, if any, is closed. *)
Definition close_of (ref : option nat) (cs : list AudioContext)
    : list AudioContext :=
  match ref with
  | Some ctx => update_at ctx close cs
  | None => cs
  end.

(** *** Sample data for the examples *)

Definition exercise (n : string) : Exercise :=
  {| name := n; durationOrReps := "10 reps"; description := ""; tips := "" |}.

Definition plan3 : WorkoutPlan :=
  {| title := "Full body"; duration := "15 min"; difficulty := "easy";
     exercises := [exercise "Squat"; exercise "Plank"; exercise "Lunge"] |}.

Definition granted : Env :=
  {| hasApiKey := true; cameraGranted := true; micGranted := true;
     poseAvailable := true |}.

(** The component of [plan3], mounted and with its session open. *)
Definition live3 : State := run plan3 granted [Open 0%nat] (mount granted 0).

(** Two camera requests pending at once.  The mount effect asks for the
    camera; before the user has answered, a click on the microphone button
    renders again and the effect, run again, asks a second time.  Then
    both requests are granted, and each [startCamera] goes on from its
    [await]: it attaches its stream and calls the [connectToLive] of its
    own render. *)
Definition first_render : State :=
  initPose granted
    (set_connectToLiveMemo (Some (capture (initial 0))) (initial 0)).

Definition second_render : State :=
  let s := handle plan3 ToggleMic first_render in
  cleanup true (set_connectToLiveMemo (Some (capture s)) s).

Definition first_granted : State :=
  startCamera granted (capture (initial 0)) second_render.

Definition both_granted : State :=
  startCamera granted (capture (handle plan3 ToggleMic first_render))
    first_granted.

Definition nextExercise (id : string) : LiveServerMessage :=
  {| audioData := None;
     toolCall :=
       Some [{| fc_name := "nextExercise"; fc_id := id;
                fc_args := {| arg_status := ""; arg_feedback := "";
                              arg_focusArea := "" |} |}] |}.

(** A pose of 33 landmarks, the left shoulder at (1/4, 3/4). *)
Definition pose33 : list Landmark :=
  (List.repeat {| lm_x := 1 # 2; lm_y := 1 # 2 |} 11
   ++ {| lm_x := 1 # 4; lm_y := 3 # 4 |}
   :: List.repeat {| lm_x := 1 # 2; lm_y := 1 # 2 |} 21)%list.

Definition audio (payload : string) : LiveServerMessage :=
  {| audioData := Some payload; toolCall := None |}.

Definition updateFormFeedback (id st fb area : string) : FunctionCall :=
  {| fc_name := "updateFormFeedback"; fc_id := id;
     fc_args := {| arg_status := st; arg_feedback := fb;
                   arg_focusArea := area |} |}.

End LiveSession.

(* ------------------------------------------------------------------ *)
(** ** The tool declarations and the traffic of a run                   *)
(* ------------------------------------------------------------------ *)

Module LiveSessionTools.

Import LiveSession.

Local Open Scope string_scope.

(** The enumerations that [updateFormFeedbackTool] declares for its
    [status] and [focusArea] parameters (lines 124-147), as sent to the
    model in the session configuration. *)
Definition declared_status : list string := ["correct"; "warning"; "incorrect"].
Definition declared_focusArea : list string :=
  ["head"; "shoulders"; "torso"; "hips"; "legs"; "general"].

(** A function call that keeps to the declaration of its tool.
    [nextExerciseTool] (lines 119-122) declares no parameter. *)
Definition conforms (fc : FunctionCall) : Prop :=
  fc_name fc = "updateFormFeedback" ->
  In (arg_status (fc_args fc)) declared_status
  /\ In (arg_focusArea (fc_args fc)) declared_focusArea.

Definition conforming (ev : Event) : Prop :=
  match ev with
  | Message msg _ _ =>
      match toolCall msg with
      | Some functionCalls => Forall conforms functionCalls
      | None => True
      end
  | _ => True
  end.

(** The overlay state is the one the component started with, or holds a
    status and a focus area that the tool declares. *)
Definition overlay_declared (now0 : Z) (o : OverlayState) : Prop :=
  o = overlayStateRef (initial now0)
  \/ (In (status o) declared_status /\ In (focusArea o) declared_focusArea).

(** How many advances an event asks for: one for the next button, one for
    each [nextExercise] call of a message. *)
Definition advance_requests (ev : Event) : nat :=
  match ev with
  | ManualNext => 1
  | Message msg _ _ =>
      match toolCall msg with
      | Some functionCalls =>
          List.length
            (filter (fun fc => String.eqb (fc_name fc) "nextExercise")
               functionCalls)
      | None => 0
      end
  | _ => 0
  end.

(** The ids acknowledged under a tool name, in the order of the responses,
    and the ids of the function calls of a tool name, in the order of the
    calls. *)
Definition acknowledged (fname : string) (l : list Effect) : list string :=
  map snd (filter (fun r => String.eqb (fst r) fname) (tool_responses l)).

Definition called (fname : string) (functionCalls : list FunctionCall)
    : list string :=
  map fc_id (filter (fun fc => String.eqb (fc_name fc) fname) functionCalls).

(** The effects that go out on the live session. *)
Definition is_outbound (e : Effect) : bool :=
  match e with
  | SendRealtimeInput _ _ | SendText _ _ | SendToolResponse _ _ _ _ => true
  | _ => false
  end.

Definition outbound (l : list Effect) : list Effect := filter is_outbound l.

(** The effects of a render: resources released by the cleanup of the
    camera effect and errors reported on the console. *)
Definition is_housekeeping (e : Effect) : bool :=
  match e with
  | TrackStop _ | ContextClose _ | PoseClose | ConsoleError _ => true
  | _ => false
  end.



(** *** Well-formed drawings *)

(** Every path that is begun is filled or stroked before the next one
    begins and before the drawing ends, and path segments occur only in a
    path; [inside] tells whether a path is being built. *)
Fixpoint paths_painted (inside : bool) (cmds : list DrawCmd) : bool :=
  match cmds with
  | [] => negb inside
  | BeginPath :: rest => negb inside && paths_painted true rest
  | Fill :: rest | Stroke :: rest => inside && paths_painted false rest
  | Arc _ _ _ :: rest | MoveTo _ _ :: rest | LineTo _ _ :: rest =>
      inside && paths_painted inside rest
  | _ :: rest => paths_painted inside rest
  end.

Definition is_bracket (c : DrawCmd) : bool :=
  match c with Save | Restore => true | _ => false end.

(** *** Sample data for the examples *)

Definition call (fname id : string) : FunctionCall :=
  {| fc_name := fname; fc_id := id;
     fc_args := {| arg_status := ""; arg_feedback := ""; arg_focusArea := "" |} |}.

(** A tool call of three function calls, the second for a tool that was
    never declared. *)
Definition mixed_calls : list FunctionCall :=
  [updateFormFeedback "a" "warning" "Lower Hips" "hips";
   call "stretch" "b"; call "nextExercise" "c"].

Definition mixed_message : LiveServerMessage :=
  {| audioData := None; toolCall := Some mixed_calls |}.

(** A browser in which the user refuses the microphone, and one in which
    the user refuses the camera. *)
Definition microphone_refused : Env :=
  {| hasApiKey := true; cameraGranted := true; micGranted := false;
     poseAvailable := true |}.

Definition camera_refused : Env :=
  {| hasApiKey := true; cameraGranted := false; micGranted := true;
     poseAvailable := true |}.

End LiveSessionTools.

(* ------------------------------------------------------------------ *)
(** ** The application shell: [App] and [Navigation]                    *)
(* ------------------------------------------------------------------ *)

Module App.

Import LiveSession.

(** [AppView] (types.ts). *)
Inductive AppView := DASHBOARD | WORKOUT_PLANNER | LIVE_SESSION | ANALYSIS.

Inductive Theme := dark | light.

(** The three [useState] cells of [App] (App.tsx, lines 9-11). *)
Record AppState := {
  currentView : AppView;
  activePlan : option WorkoutPlan;
  theme : Theme
}.

Definition initialApp : AppState :=
  {| currentView := DASHBOARD; activePlan := None; theme := dark |}.

Definition toggleTheme (st : AppState) : AppState :=
  {| currentView := currentView st; activePlan := activePlan st;
     theme := match theme st with dark => light | light => dark end |}.

Definition startWorkout (plan : WorkoutPlan) (st : AppState) : AppState :=
  {| currentView := LIVE_SESSION; activePlan := Some plan; theme := theme st |}.

(** [endWorkout], the [onExit] that [LiveSession] is given. *)
Definition endWorkout (st : AppState) : AppState :=
  {| currentView := DASHBOARD; activePlan := None; theme := theme st |}.

Definition setCurrentView (view : AppView) (st : AppState) : AppState :=
  {| currentView := view; activePlan := activePlan st; theme := theme st |}.

(** What [renderView] returns (lines 27-42). *)
Inductive Rendered :=
| Dashboard (isDark : bool)
| WorkoutPlanner
| LiveSessionView (plan : WorkoutPlan).

Definition isDark (st : AppState) : bool :=
  match theme st with dark => true | light => false end.

Definition renderView (st : AppState) : Rendered :=
  match currentView st with
  | DASHBOARD => Dashboard (isDark st)
  | WORKOUT_PLANNER => WorkoutPlanner
  | LIVE_SESSION =>
      match activePlan st with
      | Some plan => LiveSessionView plan
      | None => WorkoutPlanner
      end
  | ANALYSIS => Dashboard (isDark st)
  end.

(** [currentView !== AppView.LIVE_SESSION && <Navigation ... />] (line 56). *)
Definition navigationShown (st : AppState) : bool :=
  match currentView st with LIVE_SESSION => false | _ => true end.

(** The buttons of [Navigation]. *)
Definition navItems : list AppView := [DASHBOARD; WORKOUT_PLANNER; LIVE_SESSION].

(** What reaches [App] from what it renders: the theme button of the
    dashboard, a button of the navigation, the start button of the planner
    with the plan it generated, [onExit] called by the live session. *)
Inductive Action :=
| ClickTheme
| ClickNav (item : nat)
| ClickStart (plan : WorkoutPlan)
| SessionExit.

(** An action has an effect only when the component it comes from is
    rendered. *)
Definition act (st : AppState) (a : Action) : AppState :=
  match a with
  | ClickTheme =>
      match renderView st with Dashboard _ => toggleTheme st | _ => st end
  | ClickNav item =>
      if navigationShown st then
        match nth_error navItems item with
        | Some view => setCurrentView view st
        | None => st
        end
      else st
  | ClickStart plan =>
      match renderView st with
      | WorkoutPlanner => startWorkout plan st
      | _ => st
      end
  | SessionExit =>
      match renderView st with
      | LiveSessionView _ => endWorkout st
      | _ => st
      end
  end.

Definition runApp (actions : list Action) : AppState :=
  fold_left act actions initialApp.

End App.

(* ------------------------------------------------------------------ *)
(** ** Properties                                                       *)
(* ------------------------------------------------------------------ *)

(** *** The codec *)

Module CodecFacts.
Import Codec.

(** **** Quantisation of one sample *)

Lemma truncate_scaled_bounds (x : Q) :
  (-1 <= x)%Q -> (x < 1)%Q ->
  let t := truncate (x * 32768)%Q in
  -32768 <= t <= 32767
  /\ Z.abs (t * Z.pos (Qden x) - Qnum x * 32768) < Z.pos (Qden x).
Proof.
  intros Hlo Hhi t. subst t. unfold truncate. destruct x as [a b].
  unfold Qle, Qlt in *. cbn in *. rewrite Pos.mul_1_r.
  pose proof (Z.quot_rem' (a * 32768) (Z.pos b)) as Hqr.
  set (q := Z.quot (a * 32768) (Z.pos b)) in *.
  set (r := Z.rem (a * 32768) (Z.pos b)) in *.
  assert (Hr : (0 <= a -> 0 <= r < Z.pos b) /\ (a <= 0 -> - Z.pos b < r <= 0)).
  { split; intros Ha.
    - apply Z.rem_bound_pos; lia.
    - apply Z.rem_bound_pos_neg; lia. }
  destruct Hr as [Hpos Hneg].
  destruct (Z_le_gt_dec 0 a) as [Ha|Ha].
  - specialize (Hpos Ha). split; nia.
  - assert (Ha' : a <= 0) by lia. specialize (Hneg Ha'). split; nia.
Qed.

Lemma ToInt16_scaled (x : Q) :
  (-1 <= x)%Q -> (x < 1)%Q ->
  let v := ToInt16 (x * 32768)%Q in
  -32768 <= v <= 32767
  /\ (Qabs (inject_Z v / 32768 - x) < 1 # 32768)%Q.
Proof.
  intros Hlo Hhi v.
  destruct (truncate_scaled_bounds x Hlo Hhi) as [Hrange Herr].
  assert (Hv : v = truncate (x * 32768)%Q).
  { subst v. unfold ToInt16.
    set (t := truncate (x * 32768)%Q) in *.
    destruct (Z_le_gt_dec 0 t).
    - rewrite Z.mod_small by lia.
      destruct (Z.leb_spec 32768 t); lia.
    - replace (t mod 65536) with (t + 65536)
        by (apply (Z.mod_unique _ _ (-1)); lia).
      destruct (Z.leb_spec 32768 (t + 65536)); lia. }
  split; [rewrite Hv; exact Hrange|].
  rewrite Hv. set (t := truncate (x * 32768)%Q) in *.
  destruct x as [a b]. cbn [Qnum Qden] in Herr.
  apply Qabs_Qlt_condition. unfold Qlt, Qdiv, Qminus, Qplus, Qmult, Qopp, Qinv.
  cbn. split; lia.
Qed.

(** **** Bytes and characters *)

Lemma int16_bytes_is_byte v : Forall is_byte (int16_bytes v).
Proof.
  unfold int16_bytes, is_byte.
  pose proof (Z.mod_pos_bound v 65536 eq_refl).
  repeat constructor; try apply Z.mod_pos_bound; try lia.
  - apply Z.div_pos; lia.
  - apply Z.div_lt_upper_bound; lia.
Qed.

Lemma Int16Array_of_int16_bytes vs :
  Forall (fun v => -32768 <= v <= 32767) vs ->
  Int16Array_of_bytes (flat_map int16_bytes vs) = Some vs.
Proof.
  induction 1 as [|v vs Hv _ IH]; [reflexivity|].
  cbn [flat_map]. unfold int16_bytes at 1. cbn [app Int16Array_of_bytes].
  rewrite IH. do 2 f_equal.
  set (u := v mod 65536).
  assert (Hu : u mod 256 + 256 * (u / 256) = u)
    by (pose proof (Z.div_mod u 256); lia).
  rewrite Hu. subst u.
  destruct (Z_le_gt_dec 0 v).
  - rewrite Z.mod_small by lia. destruct (Z.leb_spec 32768 v); lia.
  - replace (v mod 65536) with (v + 65536)
      by (apply (Z.mod_unique _ _ (-1)); lia).
    destruct (Z.leb_spec 32768 (v + 65536)); lia.
Qed.

Lemma charCodeAt_fromCharCode b : is_byte b -> charCodeAt (fromCharCode b) = b.
Proof.
  intros Hb. unfold charCodeAt, fromCharCode, is_byte in *.
  rewrite N_ascii_embedding; lia.
Qed.

Lemma fromCharCode_charCodeAt c : fromCharCode (charCodeAt c) = c.
Proof.
  unfold charCodeAt, fromCharCode. rewrite N2Z.id. apply ascii_N_embedding.
Qed.

Lemma charCodeAt_is_byte c : is_byte (charCodeAt c).
Proof.
  unfold charCodeAt, is_byte. pose proof (N_ascii_bounded c). lia.
Qed.

Lemma map_charCodeAt_fromCharCode bs :
  Forall is_byte bs -> map charCodeAt (map fromCharCode bs) = bs.
Proof.
  induction 1 as [|b bs Hb _ IH]; cbn; [reflexivity|].
  rewrite IH, charCodeAt_fromCharCode by exact Hb. reflexivity.
Qed.

(** **** Base64 *)

Lemma sextet_table :
  forallb (fun k => sextet_ok (Z.of_nat k)) (seq 0 64) = true.
Proof. vm_compute. reflexivity. Qed.

Lemma b64_char_facts n :
  0 <= n < 64 ->
  is_ascii_whitespace (b64_char n) = false
  /\ Ascii.eqb (b64_char n) pad = false
  /\ b64_index (b64_char n) = Some n.
Proof.
  intros Hn. pose proof sextet_table as H.
  rewrite forallb_forall in H. specialize (H (Z.to_nat n)).
  rewrite Z2Nat.id in H by lia.
  assert (Hin : In (Z.to_nat n) (seq 0 64)) by (apply in_seq; lia).
  specialize (H Hin). unfold sextet_ok in H.
  apply andb_prop in H. destruct H as [H H3].
  apply andb_prop in H. destruct H as [H1 H2].
  apply negb_true_iff in H1, H2.
  destruct (b64_index (b64_char n)) as [i|]; [|discriminate].
  apply Z.eqb_eq in H3. subst i. auto.
Qed.

Lemma strip_padding_group c1 c2 c3 c4 X :
  Ascii.eqb c4 pad = false ->
  strip_padding (c1 :: c2 :: c3 :: c4 :: X)
  = c1 :: c2 :: c3 :: c4 :: strip_padding X.
Proof.
  intros Hc4. unfold strip_padding.
  replace (Z.of_nat (List.length (c1 :: c2 :: c3 :: c4 :: X)) mod 4)
    with (Z.of_nat (List.length X) mod 4).
  2:{ cbn [List.length]. rewrite !Nat2Z.inj_succ.
      replace (Z.succ (Z.succ (Z.succ (Z.succ (Z.of_nat (List.length X))))))
        with (Z.of_nat (List.length X) + 1 * 4) by lia.
      rewrite Z.mod_add by lia. reflexivity. }
  destruct (Z.eqb_spec (Z.of_nat (List.length X) mod 4) 0) as [Hlen|];
    [|reflexivity].
  change (c1 :: c2 :: c3 :: c4 :: X) with ([c1; c2; c3; c4] ++ X)%list.
  rewrite rev_app_distr.
  destruct (rev X) as [|y1 [|y2 r]] eqn:Hrev.
  - apply (f_equal (@rev ascii)) in Hrev. rewrite rev_involutive in Hrev.
    subst X. cbn. rewrite Hc4. reflexivity.
  - apply (f_equal (@rev ascii)) in Hrev. rewrite rev_involutive in Hrev.
    subst X. cbn in Hlen. discriminate.
  - cbn [app].
    assert (HX : X = (rev r ++ [y2; y1])%list).
    { apply (f_equal (@rev ascii)) in Hrev. rewrite rev_involutive in Hrev.
      rewrite Hrev. cbn. rewrite <- app_assoc. reflexivity. }
    destruct (Ascii.eqb y1 pad); [|reflexivity].
    destruct (Ascii.eqb y2 pad).
    + rewrite rev_app_distr. reflexivity.
    + change (y2 :: r ++ rev [c1; c2; c3; c4])%list
        with ((y2 :: r) ++ rev [c1; c2; c3; c4])%list.
      rewrite rev_app_distr, rev_involutive. reflexivity.
Qed.

Lemma list_ind3 {A} (P : list A -> Prop) :
  P [] -> (forall a, P [a]) -> (forall a b, P [a; b]) ->
  (forall a b c r, P r -> P (a :: b :: c :: r)) ->
  forall l, P l.
Proof.
  intros H0 H1 H2 H3.
  assert (H : forall n l, (List.length l <= n)%nat -> P l).
  { induction n as [|n IH]; intros [|a [|b [|c r]]]; cbn; auto; try lia.
    intros Hlen. apply H3, IH. lia. }
  intros l. apply (H (List.length l)). lia.
Qed.

Lemma sextet_ranges a b c :
  is_byte a -> is_byte b -> is_byte c ->
  0 <= a / 4 < 64
  /\ 0 <= (a mod 4) * 16 + b / 16 < 64
  /\ 0 <= (b mod 16) * 4 + c / 64 < 64
  /\ 0 <= c mod 64 < 64
  /\ 0 <= (a mod 4) * 16 < 64
  /\ 0 <= (b mod 16) * 4 < 64.
Proof.
  unfold is_byte. intros Ha Hb Hc.
  repeat split; Z.div_mod_to_equations; lia.
Qed.

Lemma sextets_recombine a b c :
  is_byte a -> is_byte b -> is_byte c ->
  (a / 4) * 4 + ((a mod 4) * 16 + b / 16) / 16 = a
  /\ (((a mod 4) * 16 + b / 16) mod 16) * 16 + ((b mod 16) * 4 + c / 64) / 4 = b
  /\ (((b mod 16) * 4 + c / 64) mod 4) * 64 + c mod 64 = c
  /\ (a / 4) * 4 + ((a mod 4) * 16) / 16 = a
  /\ (((a mod 4) * 16 + b / 16) mod 16) * 16 + ((b mod 16) * 4) / 4 = b.
Proof.
  unfold is_byte. intros Ha Hb Hc.
  repeat split; Z.div_mod_to_equations; lia.
Qed.

Local Arguments b64_char : simpl never.
Local Arguments Z.mul : simpl never.
Local Arguments Z.add : simpl never.
Local Arguments Z.div : simpl never.
Local Arguments Z.modulo : simpl never.

Lemma forgiving_base64_decode_inv l bs :
  forgiving_base64_decode l = Some bs <->
  let data := strip_padding (filter (fun c => negb (is_ascii_whitespace c)) l) in
  (Z.of_nat (List.length data) mod 4 =? 1) = false
  /\ exists ss, sextets data = Some ss /\ decode_groups ss = bs.
Proof.
  unfold forgiving_base64_decode. cbv zeta.
  destruct (_ mod 4 =? 1); [split; [discriminate|intros [? _]; discriminate]|].
  destruct (sextets _) as [ss|].
  - split.
    + intros [= <-]. eauto.
    + intros [_ (ss' & [= <-] & <-)]. reflexivity.
  - split; [discriminate|]. intros [_ (ss' & ? & _)]. discriminate.
Qed.

Lemma filter_b64_char n X :
  0 <= n < 64 ->
  filter (fun c => negb (is_ascii_whitespace c)) (b64_char n :: X)
  = b64_char n :: filter (fun c => negb (is_ascii_whitespace c)) X.
Proof.
  intros Hn. cbn [filter]. destruct (b64_char_facts n Hn) as [-> _].
  reflexivity.
Qed.

Lemma sextets_b64_char n X :
  0 <= n < 64 ->
  sextets (b64_char n :: X)
  = match sextets X with Some ss => Some (n :: ss) | None => None end.
Proof.
  intros Hn. cbn [sextets]. destruct (b64_char_facts n Hn) as (_ & _ & ->).
  reflexivity.
Qed.

(** Decoding what [btoa] produced gives the bytes back. *)
Lemma forgiving_base64_decode_btoa bs :
  Forall is_byte bs -> forgiving_base64_decode (btoa_bytes bs) = Some bs.
Proof.
  induction bs as [|a|a b|a b c r IH] using list_ind3; intros Hbs.
  - reflexivity.
  - inversion Hbs as [|? ? Ha _]; subst.
    destruct (sextet_ranges a a a Ha Ha Ha) as (R1 & _ & _ & _ & R5 & _).
    destruct (sextets_recombine a a a Ha Ha Ha) as (_ & _ & _ & E4 & _).
    apply forgiving_base64_decode_inv. cbv zeta. cbn [btoa_bytes].
    rewrite !filter_b64_char by assumption.
    unfold strip_padding. cbn. change (4 mod 4 =? 0) with true. cbv iota.
    split; [reflexivity|].
    exists [a / 4; (a mod 4) * 16].
    rewrite !sextets_b64_char by assumption. cbn.
    rewrite E4. auto.
  - inversion Hbs as [|? ? Ha Hbs']; subst.
    inversion Hbs' as [|? ? Hb _]; subst.
    destruct (sextet_ranges a b b Ha Hb Hb) as (R1 & R2 & _ & _ & _ & R6).
    destruct (sextets_recombine a b b Ha Hb Hb) as (E1 & _ & _ & _ & E5).
    apply forgiving_base64_decode_inv. cbv zeta. cbn [btoa_bytes].
    rewrite !filter_b64_char by assumption.
    destruct (b64_char_facts _ R6) as (_ & P6 & _).
    unfold strip_padding. cbn. change (4 mod 4 =? 0) with true. cbv iota.
    rewrite P6.
    split; [reflexivity|].
    exists [a / 4; (a mod 4) * 16 + b / 16; (b mod 16) * 4].
    rewrite !sextets_b64_char by assumption. cbn.
    rewrite E1, E5. auto.
  - inversion Hbs as [|? ? Ha Hbs1]; subst.
    inversion Hbs1 as [|? ? Hb Hbs2]; subst.
    inversion Hbs2 as [|? ? Hc Hr]; subst.
    destruct (sextet_ranges a b c Ha Hb Hc) as (R1 & R2 & R3 & R4 & _ & _).
    destruct (sextets_recombine a b c Ha Hb Hc) as (E1 & E2 & E3 & _ & _).
    specialize (IH Hr). apply forgiving_base64_decode_inv in IH.
    cbv zeta in IH. destruct IH as (Hlen & ss & Hss & Hdec).
    apply forgiving_base64_decode_inv. cbv zeta. cbn [btoa_bytes].
    rewrite !filter_b64_char by assumption.
    destruct (b64_char_facts _ R4) as (_ & P4 & _).
    rewrite strip_padding_group by exact P4.
    set (D := strip_padding
                (filter (fun c => negb (is_ascii_whitespace c)) (btoa_bytes r)))
      in *.
    split.
    + cbn [List.length]. rewrite !Nat2Z.inj_succ.
      replace (Z.succ (Z.succ (Z.succ (Z.succ (Z.of_nat (List.length D))))))
        with (Z.of_nat (List.length D) + 1 * 4) by lia.
      rewrite Z.mod_add by lia. exact Hlen.
    + exists (a / 4 :: (a mod 4) * 16 + b / 16 :: (b mod 16) * 4 + c / 64
              :: c mod 64 :: ss).
      rewrite !sextets_b64_char by assumption. rewrite Hss.
      split; [reflexivity|].
      cbn [decode_groups]. rewrite E1, E2, E3, Hdec. reflexivity.
Qed.

Lemma atob_btoa binary : atob (btoa binary) = Some binary.
Proof.
  unfold atob, btoa. rewrite list_ascii_of_string_of_list_ascii.
  rewrite forgiving_base64_decode_btoa.
  - rewrite map_map.
    rewrite (map_ext _ (fun c => c)) by apply fromCharCode_charCodeAt.
    rewrite map_id, string_of_list_ascii_of_string. reflexivity.
  - apply Forall_forall. intros b Hb. apply in_map_iff in Hb.
    destruct Hb as (c & <- & _). apply charCodeAt_is_byte.
Qed.

(** **** The round trip *)

Lemma decodeAudioData_createPcmBlob samples :
  samples <> [] ->
  Forall (fun v => -32768 <= v <= 32767)
    (map (fun x => ToInt16 (x * 32768)%Q) samples) ->
  decodeAudioData (data (createPcmBlob samples))
  = Some {| channelData :=
              map (fun x => (inject_Z (ToInt16 (x * 32768)%Q) / 32768)%Q)
                samples;
            sampleRate := PCM_SAMPLE_RATE |}.
Proof.
  intros Hne Hrange. unfold decodeAudioData, createPcmBlob. cbn [data].
  rewrite atob_btoa, list_ascii_of_string_of_list_ascii.
  rewrite map_charCodeAt_fromCharCode.
  2:{ apply Forall_flat_map, Forall_forall. intros v _.
      apply int16_bytes_is_byte. }
  rewrite Int16Array_of_int16_bytes by exact Hrange.
  rewrite map_map. destruct samples; [congruence|reflexivity].
Qed.

(** Encoding then decoding samples of [-1, 1) gives each of them back to
    within less than one quantisation step. *)
Lemma roundtrip_below_full_scale samples :
  samples <> [] ->
  Forall (fun x => (-1 <= x)%Q /\ (x < 1)%Q) samples ->
  exists buffer,
    decodeAudioData (data (createPcmBlob samples)) = Some buffer
    /\ sampleRate buffer = PCM_SAMPLE_RATE
    /\ Forall2 (fun x y => (Qabs (y - x) < 1 # 32768)%Q)
         samples (channelData buffer).
Proof.
  intros Hne Hin. eexists. split; [|split].
  - apply decodeAudioData_createPcmBlob; [exact Hne|].
    apply Forall_map. eapply Forall_impl; [|exact Hin].
    intros x [Hlo Hhi]. apply (ToInt16_scaled x Hlo Hhi).
  - reflexivity.
  - cbn [channelData]. clear Hne.
    induction Hin as [|x xs [Hlo Hhi] _ IH]; cbn [map]; constructor.
    + apply (ToInt16_scaled x Hlo Hhi).
    + exact IH.
Qed.

(** C1: the code at a failing input.  The sample 1.0 is in range; scaled
    by 32768 it does not fit 16 bits and is stored as -32768 (the wire
    bytes 00 80, "AIA=" in base64), so that decoding gives -1.0, which is
    2 away from the original and not within 1/32768 of it. *)
Theorem full_scale_sample_wraps :
  (-1 <= 1)%Q /\ (1 <= 1)%Q
  /\ ToInt16 (1 * 32768)%Q = -32768
  /\ data (createPcmBlob [1%Q]) = "AIA="%string
  /\ exists y,
       option_map channelData (decodeAudioData (data (createPcmBlob [1%Q])))
       = Some [y]
       /\ (y == -1)%Q
       /\ (Qabs (y - 1) == 2)%Q
       /\ ~ (Qabs (y - 1) <= 1 # 32768)%Q.
Proof.
  split; [discriminate|]. split; [discriminate|].
  split; [reflexivity|]. split; [reflexivity|].
  eexists. split; [vm_compute; reflexivity|].
  split; [reflexivity|]. split; [reflexivity|].
  vm_compute. intros H. apply H. reflexivity.
Qed.

End CodecFacts.

(** *** Timelines *)

Module Timeline.
Import LiveSession.

Lemma back_to_back_app c l1 c1 l2 c2 :
  back_to_back c l1 c1 -> back_to_back c1 l2 c2 ->
  back_to_back c (l1 ++ l2) c2.
Proof.
  revert c. induction l1 as [|[t d] l1 IH]; intros c; cbn.
  - intros ->. auto.
  - intros (Hc & Hd & H1) H2. repeat split; auto.
Qed.

(** The cursor only moves forward, and every segment lies between the
    cursor before and the cursor after. *)
Lemma back_to_back_bounds c l f :
  back_to_back c l f ->
  (c <= f)%Q
  /\ forall i t d, nth_error l i = Some (t, d) -> (c <= t /\ t + d <= f)%Q.
Proof.
  revert c. induction l as [|[t0 d0] l IH]; intros c; cbn.
  - intros ->. split; [lra|]. intros [|i] t d; discriminate.
  - intros (Hc & Hd & H). destruct (IH _ H) as [Hf Hin]. split; [lra|].
    intros [|i] t d; cbn.
    + intros [= <- <-]. lra.
    + intros E. destruct (Hin i t d E). lra.
Qed.

Lemma back_to_back_adjacent c l f i t1 d1 t2 d2 :
  back_to_back c l f ->
  nth_error l i = Some (t1, d1) -> nth_error l (S i) = Some (t2, d2) ->
  (t1 + d1 <= t2)%Q.
Proof.
  revert c i. induction l as [|[t0 d0] l IH]; intros c [|i]; cbn;
    try discriminate.
  - intros (_ & _ & H) [= <- <-] E.
    destruct (back_to_back_bounds _ _ _ H) as [_ Hin].
    destruct (Hin 0%nat t2 d2 E). assumption.
  - intros (_ & _ & H). apply IH with (c := (t0 + d0)%Q). exact H.
Qed.

Lemma back_to_back_sorted c l f i j t1 d1 t2 d2 :
  back_to_back c l f -> (i <= j)%nat ->
  nth_error l i = Some (t1, d1) -> nth_error l j = Some (t2, d2) ->
  (t1 <= t2)%Q.
Proof.
  revert c i j. induction l as [|[t0 d0] l IH]; intros c [|i] [|j]; cbn;
    try discriminate; try lia.
  - intros _ _ [= <- <-] [= <- <-]. lra.
  - intros (_ & Hd & H) _ [= <- <-] E.
    destruct (back_to_back_bounds _ _ _ H) as [_ Hin].
    destruct (Hin j t2 d2 E). lra.
  - intros (_ & _ & H) Hij. apply IH with (c := (t0 + d0)%Q); [exact H|lia].
Qed.

End Timeline.

Module LiveSessionFacts.
Import LiveSession.

Local Open Scope string_scope.

Local Arguments nth_error : simpl never.
Local Arguments Nat.leb : simpl never.
Local Arguments Nat.ltb : simpl never.
Local Arguments String.append : simpl never.

Lemma skipn_length_app {A} (l es : list A) :
  skipn (List.length l) (l ++ es)%list = es.
Proof. induction l; simpl; auto. Qed.

Lemma emitted_app s s' es : log s' = (log s ++ es)%list -> emitted s s' = es.
Proof. unfold emitted. intros ->. apply skipn_length_app. Qed.

Lemma log_emit e s : log (emit e s) = (log s ++ [e])%list.
Proof. reflexivity. Qed.

(** **** The exercise index *)

Section Progression.

Variable plan : WorkoutPlan.
Variable env : Env.

Let n := List.length (exercises plan).

Lemma handleNextStep_in_range id s :
  (currentStep s < n)%nat -> (currentStep (handleNextStep plan id s) < n)%nat.
Proof.
  intros H. unfold handleNextStep. fold n.
  destruct (Nat.leb_spec n (S (currentStep s)));
    destruct (String.eqb id "manual"); unfold with_session, triggerHaptic, onExit; cbn;
    repeat match goal with
           | |- context [match ?x with _ => _ end] => destruct x; cbn
           end; lia.
Qed.

Lemma handleFunctionCall_in_range now fc s :
  (currentStep s < n)%nat ->
  (currentStep (handleFunctionCall plan now fc s) < n)%nat.
Proof.
  intros H. unfold handleFunctionCall.
  destruct (String.eqb (fc_name fc) "nextExercise").
  - apply handleNextStep_in_range. exact H.
  - destruct (String.eqb (fc_name fc) "updateFormFeedback"); [|exact H].
    unfold with_session, triggerHaptic.
    destruct (String.eqb (arg_status (fc_args fc)) "incorrect"); cbn;
      destruct (sessionPromiseRef s); exact H.
Qed.

Lemma handleToolCall_in_range now msg s :
  (currentStep s < n)%nat ->
  (currentStep (handleToolCall plan now msg s) < n)%nat.
Proof.
  unfold handleToolCall. destruct (toolCall msg) as [fcs|]; [|auto].
  revert s. induction fcs as [|fc fcs IH]; intros s H; cbn; [exact H|].
  apply IH, handleFunctionCall_in_range, H.
Qed.

Lemma onmessage_in_range msg now t s :
  (currentStep s < n)%nat ->
  (currentStep (onmessage plan msg now t s) < n)%nat.
Proof.
  intros H. unfold onmessage.
  destruct (truthy (audioData msg)) as [payload|];
    [destruct (audioContextRef s) as [ctx|]|];
    try (apply handleToolCall_in_range; exact H).
  destruct (Codec.decodeAudioData payload); [|exact H].
  apply handleToolCall_in_range. exact H.
Qed.

Lemma currentStep_cleanup s : currentStep (cleanup true s) = currentStep s.
Proof.
  unfold cleanup, stop_tracks, close_context, close_pose.
  destruct (videoSrcObject s); cbn; destruct (audioContextRef s); cbn;
    destruct (inputAudioContextRef s); cbn; destruct (poseInstanceRef s);
    reflexivity.
Qed.

Lemma currentStep_connectToLive cl s :
  currentStep (connectToLive env cl s) = currentStep s.
Proof.
  unfold connectToLive, connectToLive_try, connection_failed.
  destruct (cl_connectionStatus cl), (hasApiKey env), (micGranted env);
    reflexivity.
Qed.

Lemma currentStep_startCamera cl s :
  currentStep (startCamera env cl s) = currentStep s.
Proof.
  unfold startCamera. destruct (cameraGranted env); [|reflexivity].
  rewrite currentStep_connectToLive. reflexivity.
Qed.

Lemma currentStep_rerender s : currentStep (rerender env s) = currentStep s.
Proof.
  unfold rerender. destruct (connectToLiveMemo s) as [cl|]; [|reflexivity].
  destruct (same_deps cl s); [reflexivity|].
  rewrite currentStep_startCamera, currentStep_cleanup. reflexivity.
Qed.

Lemma currentStep_deliver_audio inputData s :
  currentStep (deliver_audio inputData s) = currentStep s.
Proof.
  unfold deliver_audio. generalize (contexts s) as cs.
  intros cs. revert s. induction cs as [|c cs IH]; intros s; cbn; [reflexivity|].
  rewrite IH. unfold onaudioprocess.
  destruct (ctx_closed c), (ctx_processor c) as [[|]|], (sessionPromiseRef s);
    reflexivity.
Qed.

Lemma handle_in_range ev s :
  (currentStep s < n)%nat -> (currentStep (handle plan ev s) < n)%nat.
Proof.
  intros H. destruct ev; cbn; try exact H.
  - apply handleNextStep_in_range, H.
  - unfold onopen, with_session. cbn.
    destruct (sessionPromiseRef s); [|exact H].
    destruct (nth_error (sessions s) session) as [se|]; [|exact H].
    destruct (nth_error (exercises plan) (session_step se)); exact H.
  - apply onmessage_in_range, H.
  - rewrite currentStep_deliver_audio. exact H.
Qed.

Lemma step_in_range s ev :
  (currentStep s < n)%nat -> (currentStep (step plan env s ev) < n)%nat.
Proof.
  intros H. unfold step. destruct (exited s); [exact H|].
  destruct (exited (handle plan ev s)).
  - apply handle_in_range, H.
  - rewrite currentStep_rerender. apply handle_in_range, H.
Qed.

Lemma run_in_range evs s :
  (currentStep s < n)%nat -> (currentStep (run plan env evs s) < n)%nat.
Proof.
  revert s. induction evs as [|ev evs IH]; intros s H; cbn; [exact H|].
  apply IH, step_in_range, H.
Qed.

Lemma currentStep_mount now : currentStep (mount env now) = 0%nat.
Proof.
  unfold mount. rewrite currentStep_startCamera.
  unfold initPose. destruct (poseAvailable env); reflexivity.
Qed.

Lemma handleNextStep_last id s :
  S (currentStep s) = n ->
  currentStep (handleNextStep plan id s) = currentStep s
  /\ exited (handleNextStep plan id s) = true
  /\ existsb is_exit (emitted s (handleNextStep plan id s)) = true.
Proof.
  intros H. unfold handleNextStep. fold n.
  rewrite <- H, Nat.leb_refl, Nat.ltb_irrefl.
  destruct (String.eqb id "manual"); unfold with_session, triggerHaptic, onExit;
    cbn; [|destruct (sessionPromiseRef s); cbn]; repeat split;
    match goal with
    | |- existsb _ (emitted _ ?s') = true =>
        erewrite (emitted_app s s');
        [|cbn; rewrite <- ?app_assoc; reflexivity]
    end; reflexivity.
Qed.

End Progression.

(** C10. For a non-empty plan the exercise index of the component is, after
    every sequence of events, a valid index into the exercise sequence; an
    advance from the last index calls [onExit] and leaves the index where
    it was. *)
Theorem currentStep_stays_valid (plan : WorkoutPlan) (env : Env) :
  exercises plan <> [] ->
  (forall now evs,
      (currentStep (run plan env evs (mount env now))
       < List.length (exercises plan))%nat)
  /\ (forall id s,
         S (currentStep s) = List.length (exercises plan) ->
         currentStep (handleNextStep plan id s) = currentStep s
         /\ exited (handleNextStep plan id s) = true
         /\ existsb is_exit (emitted s (handleNextStep plan id s)) = true).
Proof.
  intros Hne. split.
  - intros now evs. apply run_in_range. rewrite currentStep_mount.
    destruct (exercises plan); [congruence|cbn; lia].
  - intros id s. apply handleNextStep_last.
Qed.

Lemma currentStep_stays_valid_witness :
  (forall now evs,
      (currentStep (run plan3 granted evs (mount granted now))
       < List.length (exercises plan3))%nat)
  /\ (forall id s,
         S (currentStep s) = List.length (exercises plan3) ->
         currentStep (handleNextStep plan3 id s) = currentStep s
         /\ exited (handleNextStep plan3 id s) = true
         /\ existsb is_exit (emitted s (handleNextStep plan3 id s)) = true).
Proof. apply (currentStep_stays_valid plan3 granted). discriminate. Defined.

(** **** Exercise progression *)

Lemma sent_texts_app l1 l2 :
  sent_texts (l1 ++ l2) = (sent_texts l1 ++ sent_texts l2)%list.
Proof. apply flat_map_app. Qed.

Lemma existsb_is_exit_app l1 l2 :
  existsb is_exit (l1 ++ l2) = existsb is_exit l1 || existsb is_exit l2.
Proof. apply existsb_app. Qed.

(** Everything one call of [handleNextStep] does. *)
Lemma handleNextStep_effects plan id s session :
  sessionPromiseRef s = Some session ->
  let n := List.length (exercises plan) in
  let i := currentStep s in
  let s' := handleNextStep plan id s in
  exists es,
    log s' = (log s ++ es)%list
    /\ sessionPromiseRef s' = Some session
    /\ currentStep s' = (if (n <=? S i)%nat then i else S i)
    /\ exited s' = (if (n <=? S i)%nat then true else exited s)
    /\ existsb is_exit es = (n <=? S i)%nat
    /\ sent_texts es =
         if String.eqb id "manual" then []
         else match nth_error (exercises plan) (S i) with
              | Some e => ["Next up: " ++ name e ++ "."]
              | None => ["Workout complete!"]
              end.
Proof.
  intros Hs n i s'. subst s'. unfold handleNextStep. fold n. fold i.
  assert (Hnth : (S i < n)%nat ->
                 exists e, nth_error (exercises plan) (S i) = Some e).
  { intros Hlt. destruct (nth_error (exercises plan) (S i)) eqn:E; eauto.
    apply nth_error_None in E. unfold n in Hlt. lia. }
  assert (Hnone : (n <= S i)%nat -> nth_error (exercises plan) (S i) = None).
  { intros Hle. apply nth_error_None. exact Hle. }
  subst i.
  destruct (String.eqb id "manual");
    destruct (Nat.leb_spec n (S (currentStep s))) as [Hle|Hlt];
    unfold with_session, triggerHaptic, onExit; cbn; rewrite ?Hs; cbn.
  - exists [Haptic [200]; OnExit]. rewrite <- app_assoc. repeat split; try exact Hs.
  - exists [Haptic [200]]. repeat split; try exact Hs.
  - destruct (Nat.ltb_spec (S (currentStep s)) n); [lia|]. rewrite (Hnone Hle).
    eexists. cbn. rewrite <- !app_assoc. cbn. repeat split; try exact Hs.
  - destruct (Nat.ltb_spec (S (currentStep s)) n); [|lia].
    destruct (Hnth Hlt) as [e He]. rewrite He.
    eexists. cbn. rewrite <- !app_assoc. cbn. repeat split; try exact Hs.
Qed.

(** C3 (amended). With a session attached, an advance from index [i] of a
    plan of [n] exercises behaves as follows.  When [i+1 < n] the index
    becomes [i+1], [onExit] is not called, a remote advance sends exactly
    one text, the announcement naming the new exercise, and a manual
    advance sends none.  When [i+1 >= n] the index is left unchanged and
    [onExit] is called; a remote advance then sends the one text
    "Workout complete!", which names no exercise, and a manual advance
    sends none.  For a plan of three exercises, three remote advances send
    the announcements of the second and of the third exercise and then
    "Workout complete!". *)
Theorem handleNextStep_progression (plan : WorkoutPlan) (id : string)
    (s : State) (session : nat) :
  sessionPromiseRef s = Some session ->
  let n := List.length (exercises plan) in
  let i := currentStep s in
  let s' := handleNextStep plan id s in
  ((S i < n)%nat ->
     currentStep s' = S i /\ exited s' = exited s
     /\ existsb is_exit (emitted s s') = false
     /\ exists e, nth_error (exercises plan) (S i) = Some e
          /\ sent_texts (emitted s s') =
               if String.eqb id "manual" then []
               else ["Next up: " ++ name e ++ "."])
  /\ ((n <= S i)%nat ->
        currentStep s' = i /\ exited s' = true
        /\ existsb is_exit (emitted s s') = true
        /\ sent_texts (emitted s s') =
             if String.eqb id "manual" then [] else ["Workout complete!"])
  /\ (forall a b c id2 id3,
         exercises plan = [a; b; c] -> i = 0%nat ->
         String.eqb id "manual" = false -> String.eqb id2 "manual" = false ->
         String.eqb id3 "manual" = false ->
         let s3 := handleNextStep plan id3 (handleNextStep plan id2 s') in
         sent_texts (emitted s s3) =
           ["Next up: " ++ name b ++ "."; "Next up: " ++ name c ++ ".";
            "Workout complete!"]
         /\ exited s3 = true).
Proof.
  intros Hs n i s'.
  destruct (handleNextStep_effects plan id s session Hs)
    as (es & Hlog & Hs' & Hstep & Hex & Hexit & Htxt).
  fold n i s' in Hlog, Hs', Hstep, Hex, Hexit, Htxt.
  rewrite (emitted_app _ _ _ Hlog).
  split; [|split].
  - intros Hlt. rewrite Hstep, Hex, Hexit, Htxt.
    destruct (Nat.leb_spec n (S i)); [lia|].
    repeat split.
    destruct (nth_error (exercises plan) (S i)) as [e|] eqn:E.
    + exists e. split; reflexivity.
    + apply nth_error_None in E. unfold n in Hlt. lia.
  - intros Hle. rewrite Hstep, Hex, Hexit, Htxt.
    destruct (Nat.leb_spec n (S i)); [|lia].
    repeat split.
    replace (nth_error (exercises plan) (S i)) with (@None Exercise);
      [reflexivity|symmetry; apply nth_error_None; exact Hle].
  - intros a b c id2 id3 Hplan Hi Hid Hid2 Hid3 s3.
    destruct (handleNextStep_effects plan id2 s' session Hs')
      as (es2 & Hlog2 & Hs2 & Hstep2 & Hex2 & Hexit2 & Htxt2).
    destruct (handleNextStep_effects plan id3 _ session Hs2)
      as (es3 & Hlog3 & Hs3 & Hstep3 & Hex3 & Hexit3 & Htxt3).
    fold s3 in Hlog3, Hex3.
    rewrite Hstep2 in Hstep3, Hex3, Htxt3, Hexit3.
    rewrite Hstep in Hstep2, Hex2, Htxt2, Hexit2, Hstep3, Hex3, Htxt3, Hexit3.
    rewrite Hid in Htxt. rewrite Hid2 in Htxt2. rewrite Hid3 in Htxt3.
    subst n. rewrite Hplan in *. rewrite Hi in *. cbn in *.
    rewrite (emitted_app s s3 (es ++ es2 ++ es3)).
    + rewrite !sent_texts_app, Htxt, Htxt2, Htxt3. split; [reflexivity|exact Hex3].
    + rewrite Hlog3, Hlog2, Hlog, <- !app_assoc. reflexivity.
Qed.

Lemma handleNextStep_progression_witness :
  sessionPromiseRef live3 = Some 0%nat
  /\ currentStep (handleNextStep plan3 "call-1" live3) = 1%nat
  /\ sent_texts (emitted live3 (handleNextStep plan3 "call-1" live3)) =
       ["Next up: Plank."].
Proof.
  split; [reflexivity|].
  destruct (handleNextStep_progression plan3 "call-1" live3 0 eq_refl)
    as [Hin _].
  destruct Hin as (Hstep & _ & _ & e & He & Htxt); [vm_compute; lia|].
  split; [exact Hstep|].
  rewrite Htxt. vm_compute in He. inversion He. reflexivity.
Defined.

(** C3, as stated, fails: a manual advance inside the plan is not
    announced, and the remote advance past the last exercise does send a
    text. *)
Lemma advance_announcements_counterexample :
  (* a manual advance from the first of three exercises *)
  currentStep (handleNextStep plan3 "manual" live3) = 1%nat
  /\ sent_texts (emitted live3 (handleNextStep plan3 "manual" live3)) = []
  (* three remote advances *)
  /\ sent_texts
       (emitted live3
          (run plan3 granted
             [Message (nextExercise "call-1") 0 0;
              Message (nextExercise "call-2") 0 0;
              Message (nextExercise "call-3") 0 0] live3)) =
       ["Next up: Plank."; "Next up: Lunge."; "Workout complete!"].
Proof. vm_compute. repeat split. Qed.

(** **** Form feedback *)

(** C4 (amended). The arguments of an [updateFormFeedback] invocation are
    applied as they come, without any check against the enumerated values:
    after the invocation the overlay state holds the status, the feedback
    text and the focus area of the invocation, whatever they are, stamped
    with the current time, and the invocation is acknowledged once on the
    attached session. *)
Theorem updateFormFeedback_applied (plan : WorkoutPlan) (now : Z)
    (fc : FunctionCall) (s : State) :
  fc_name fc = "updateFormFeedback" ->
  let s' := handleFunctionCall plan now fc s in
  overlayStateRef s' =
    {| status := arg_status (fc_args fc);
       feedback := arg_feedback (fc_args fc);
       focusArea := arg_focusArea (fc_args fc);
       lastUpdated := now |}
  /\ (forall session,
         sessionPromiseRef s = Some session ->
         tool_responses (emitted s s') = [("updateFormFeedback", fc_id fc)]).
Proof.
  intros Hname s'. subst s'. unfold handleFunctionCall. rewrite Hname.
  change (String.eqb "updateFormFeedback" "nextExercise") with false.
  change (String.eqb "updateFormFeedback" "updateFormFeedback") with true.
  cbv iota. unfold with_session, triggerHaptic.
  destruct (String.eqb (arg_status (fc_args fc)) "incorrect"); cbn.
  - split.
    + destruct (sessionPromiseRef s); reflexivity.
    + intros session ->. erewrite emitted_app;
        [|cbn; rewrite <- app_assoc; reflexivity]. reflexivity.
  - split.
    + destruct (sessionPromiseRef s); reflexivity.
    + intros session ->. erewrite emitted_app; [|reflexivity]. reflexivity.
Qed.

Lemma updateFormFeedback_applied_witness :
  fc_name (updateFormFeedback "call-7" "incorrect" "Straighten Back" "shoulders")
  = "updateFormFeedback"
  /\ overlayStateRef
       (handleFunctionCall plan3 42
          (updateFormFeedback "call-7" "incorrect" "Straighten Back" "shoulders")
          live3) =
     {| status := "incorrect"; feedback := "Straighten Back";
        focusArea := "shoulders"; lastUpdated := 42 |}.
Proof.
  split; [reflexivity|].
  apply (updateFormFeedback_applied plan3 42
           (updateFormFeedback "call-7" "incorrect" "Straighten Back" "shoulders")
           live3).
  reflexivity.
Defined.

(** C4, as stated, fails: an invocation whose status and focus area are
    outside the enumerations is written into the overlay state. *)
Lemma malformed_feedback_counterexample :
  let msg := {| audioData := None;
                toolCall := Some [updateFormFeedback "call-9" "bogus"
                                    "Lower Hips" "elbow"] |} in
  ~ In "bogus" FormStatus
  /\ ~ In "elbow" FocusArea
  /\ overlayStateRef (onmessage plan3 msg 42 0 live3) =
       {| status := "bogus"; feedback := "Lower Hips"; focusArea := "elbow";
          lastUpdated := 42 |}
  /\ overlayStateRef (onmessage plan3 msg 42 0 live3) <> overlayStateRef live3.
Proof.
  cbv zeta. split; [|split; [|split]].
  - cbn. intuition discriminate.
  - cbn. intuition discriminate.
  - reflexivity.
  - vm_compute. discriminate.
Qed.

(** **** Teardown *)



Lemma nth_error_update_at {A} (f : A -> A) i j (l : list A) :
  nth_error (update_at i f l) j =
  if (i =? j)%nat then option_map f (nth_error l j) else nth_error l j.
Proof.
  revert i j. induction l as [|x l IH]; intros [|i] [|j]; cbn;
    try reflexivity.
  - destruct (i =? j)%nat; reflexivity.
  - apply IH.
Qed.

Lemma cleanup_unfold s :
  cleanup true s =
  set_log
    (log s
     ++ match videoSrcObject s with Some v => [TrackStop v] | None => [] end
     ++ match audioContextRef s with Some c => [ContextClose c] | None => [] end
     ++ match inputAudioContextRef s with
        | Some c => [ContextClose c] | None => [] end
     ++ match poseInstanceRef s with Some _ => [PoseClose] | None => [] end)%list
    (set_poseInstanceRef
       match poseInstanceRef s with Some _ => Some true | None => None end
       (set_contexts
          (close_of (inputAudioContextRef s)
             (close_of (audioContextRef s) (contexts s)))
          (set_streams
             match videoSrcObject s with
             | Some v => update_at v (fun _ => true) (streams s)
             | None => streams s
             end s))).
Proof.
  unfold cleanup, stop_tracks, close_context, close_pose, close_of, emit.
  destruct s as [? ? ? ? ? ? a i ? ? p v ? ? ? ? ? ?]. cbn.
  destruct v; cbn; destruct a; cbn; destruct i; cbn; destruct p; cbn;
    rewrite <- ?app_assoc; cbn; rewrite ?app_nil_r; reflexivity.
Qed.

Lemma State_ext (s1 s2 : State) :
  currentStep s1 = currentStep s2 -> micActive s1 = micActive s2 ->
  aiSpeaking s1 = aiSpeaking s2 -> connectionStatus s1 = connectionStatus s2 ->
  permissionDenied s1 = permissionDenied s2 ->
  overlayStateRef s1 = overlayStateRef s2 ->
  audioContextRef s1 = audioContextRef s2 ->
  inputAudioContextRef s1 = inputAudioContextRef s2 ->
  sessionPromiseRef s1 = sessionPromiseRef s2 ->
  nextStartTimeRef s1 = nextStartTimeRef s2 ->
  poseInstanceRef s1 = poseInstanceRef s2 ->
  videoSrcObject s1 = videoSrcObject s2 ->
  connectToLiveMemo s1 = connectToLiveMemo s2 ->
  contexts s1 = contexts s2 -> streams s1 = streams s2 ->
  sessions s1 = sessions s2 -> exited s1 = exited s2 -> log s1 = log s2 ->
  s1 = s2.
Proof. destruct s1, s2; cbn; intros; subst; reflexivity. Qed.


Lemma close_idem c : close (close c) = close c.
Proof. reflexivity. Qed.





(** **** Connecting *)

(** In the component a channel is only ever opened from the disconnected
    status: no event delivered while it is connecting or connected opens
    one. *)

Section Wiring.

Variable plan : WorkoutPlan.
Variable env : Env.

Lemma same_wiring_refl s : same_wiring s s.
Proof. repeat split. Qed.

Lemma same_wiring_trans s1 s2 s3 :
  same_wiring s1 s2 -> same_wiring s2 s3 -> same_wiring s1 s3.
Proof. unfold same_wiring. intuition congruence. Qed.

Lemma same_wiring_handleNextStep id s : same_wiring s (handleNextStep plan id s).
Proof.
  unfold handleNextStep, with_session, triggerHaptic, onExit.
  destruct (String.eqb id "manual"), (_ <=? _)%nat; cbn;
    try destruct (sessionPromiseRef s); try destruct (_ <? _)%nat;
    try destruct (nth_error _ _); repeat split.
Qed.

Lemma same_wiring_handleFunctionCall now fc s :
  same_wiring s (handleFunctionCall plan now fc s).
Proof.
  unfold handleFunctionCall.
  destruct (String.eqb (fc_name fc) "nextExercise").
  - eapply same_wiring_trans; [|apply same_wiring_handleNextStep].
    repeat split.
  - destruct (String.eqb (fc_name fc) "updateFormFeedback");
      [|apply same_wiring_refl].
    unfold with_session, triggerHaptic.
    destruct (String.eqb (arg_status (fc_args fc)) "incorrect"); cbn;
      destruct (sessionPromiseRef s); repeat split.
Qed.

Lemma same_wiring_handleToolCall now msg s :
  same_wiring s (handleToolCall plan now msg s).
Proof.
  unfold handleToolCall. destruct (toolCall msg) as [fcs|];
    [|apply same_wiring_refl].
  revert s. induction fcs as [|fc fcs IH]; intros s; cbn;
    [apply same_wiring_refl|].
  eapply same_wiring_trans; [apply same_wiring_handleFunctionCall|apply IH].
Qed.

Lemma same_wiring_onmessage msg now t s :
  same_wiring s (onmessage plan msg now t s).
Proof.
  unfold onmessage.
  destruct (truthy (audioData msg)) as [payload|];
    [destruct (audioContextRef s) as [ctx|];
     [destruct (Codec.decodeAudioData payload)|]|];
    try apply same_wiring_handleToolCall.
  - eapply same_wiring_trans; [|apply same_wiring_handleToolCall].
    repeat split.
  - repeat split.
Qed.

Lemma same_wiring_deliver_audio inputData s :
  same_wiring s (deliver_audio inputData s).
Proof.
  unfold deliver_audio. generalize (contexts s) as cs. intros cs. revert s.
  induction cs as [|c cs IH]; intros s; cbn; [apply same_wiring_refl|].
  eapply same_wiring_trans; [|apply IH]. unfold onaudioprocess.
  destruct (ctx_closed c), (ctx_processor c) as [[|]|], (sessionPromiseRef s);
    repeat split.
Qed.

Lemma sessions_handle ev s :
  sessions (handle plan ev s) = sessions s
  /\ connectToLiveMemo (handle plan ev s) = connectToLiveMemo s.
Proof.
  destruct ev; cbn [handle]; try (split; reflexivity).
  - destruct (same_wiring_handleNextStep "manual" s) as (? & ? & _). auto.
  - unfold onopen, with_session. cbn.
    destruct (sessionPromiseRef s); [|auto].
    destruct (nth_error (sessions s) session) as [se|]; [|auto].
    destruct (nth_error (exercises plan) (session_step se)); auto.
  - destruct (same_wiring_onmessage msg now currentTime s) as (? & ? & _). auto.
  - destruct (same_wiring_deliver_audio inputData s) as (? & ? & _). auto.
Qed.

(** An event other than the closing of the session leaves the component
    connecting or connected; the closing leaves the dependencies of
    [connectToLive] alone. *)
Lemma handle_status_or_deps ev s cl :
  connectionStatus s <> disconnected ->
  connectionStatus (handle plan ev s) <> disconnected
  \/ same_deps cl (handle plan ev s) = same_deps cl s.
Proof.
  intros Hs. destruct ev; cbn [handle]; auto.
  - left. destruct (same_wiring_handleNextStep "manual" s) as (_ & _ & -> & _).
    exact Hs.
  - left. unfold onopen, with_session. cbn.
    destruct (sessionPromiseRef s); [|discriminate].
    destruct (nth_error (sessions s) session) as [se|]; [|discriminate].
    destruct (nth_error (exercises plan) (session_step se)); discriminate.
  - left. destruct (same_wiring_onmessage msg now currentTime s)
      as (_ & _ & -> & _). exact Hs.
  - left. destruct (same_wiring_deliver_audio inputData s) as (_ & _ & -> & _).
    exact Hs.
Qed.

Lemma sessions_cleanup s :
  sessions (cleanup true s) = sessions s
  /\ connectionStatus (cleanup true s) = connectionStatus s.
Proof. rewrite cleanup_unfold. split; reflexivity. Qed.

Lemma no_channel_while_connected s ev :
  synced s -> connectionStatus s <> disconnected ->
  sessions (step plan env s ev) = sessions s.
Proof.
  intros Hsync Hs. unfold step. destruct (exited s); [reflexivity|].
  destruct (sessions_handle ev s) as [Hsess Hmemo].
  destruct (exited (handle plan ev s)); [exact Hsess|].
  unfold rerender. rewrite Hmemo. unfold synced in Hsync.
  destruct (connectToLiveMemo s) as [cl|]; [|exact Hsess].
  destruct (same_deps cl (handle plan ev s)) eqn:Hdeps; [exact Hsess|].
  destruct (handle_status_or_deps ev s cl Hs) as [Hst|Hd];
    [|congruence].
  unfold startCamera.
  destruct (cameraGranted env);
    [|cbn; rewrite (proj1 (sessions_cleanup _)); exact Hsess].
  unfold connectToLive, capture. cbn [cl_connectionStatus].
  destruct (connectionStatus (handle plan ev s)); [congruence| |];
    cbn; rewrite (proj1 (sessions_cleanup _)); exact Hsess.
Qed.

Lemma deps_cleanup s :
  currentStep (cleanup true s) = currentStep s
  /\ micActive (cleanup true s) = micActive s
  /\ connectToLiveMemo (cleanup true s) = connectToLiveMemo s.
Proof. rewrite cleanup_unfold. repeat split. Qed.

Lemma deps_startCamera cl s :
  currentStep (startCamera env cl s) = currentStep s
  /\ micActive (startCamera env cl s) = micActive s
  /\ connectToLiveMemo (startCamera env cl s) = connectToLiveMemo s.
Proof.
  unfold startCamera, connectToLive, connectToLive_try, connection_failed.
  destruct (cameraGranted env); [|repeat split].
  destruct (cl_connectionStatus cl), (hasApiKey env), (micGranted env);
    repeat split.
Qed.

Lemma same_deps_capture s : same_deps (capture s) s = true.
Proof.
  unfold same_deps, capture. cbn. rewrite Nat.eqb_refl.
  destruct (micActive s); reflexivity.
Qed.

Lemma synced_rerender s : synced (rerender env s).
Proof.
  unfold rerender, synced.
  destruct (connectToLiveMemo s) as [cl|] eqn:Hmemo; [|rewrite Hmemo; exact I].
  destruct (same_deps cl s) eqn:Hdeps; [rewrite Hmemo; exact Hdeps|].
  set (s1 := set_connectToLiveMemo (Some (capture s)) s).
  destruct (deps_startCamera (capture s) (cleanup true s1)) as (H1 & H2 & ->).
  destruct (deps_cleanup s1) as (H3 & H4 & ->).
  cbn [connectToLiveMemo s1 set_connectToLiveMemo].
  unfold same_deps in *. rewrite H1, H2, H3, H4. cbn.
  rewrite Nat.eqb_refl. destruct (micActive s); reflexivity.
Qed.

Lemma synced_mount now : synced (mount env now).
Proof.
  unfold mount, synced.
  set (s0 := set_connectToLiveMemo (Some (capture (initial now))) (initial now)).
  destruct (deps_startCamera (capture (initial now)) (initPose env s0))
    as (H1 & H2 & ->).
  unfold same_deps. rewrite H1, H2. unfold initPose.
  destruct (poseAvailable env); reflexivity.
Qed.

Lemma synced_step s ev :
  synced s -> exited (step plan env s ev) = false ->
  synced (step plan env s ev).
Proof.
  unfold step. intros Hs. destruct (exited s); [auto|].
  destruct (exited (handle plan ev s)) eqn:E; [congruence|].
  intros _. apply synced_rerender.
Qed.

Lemma exited_step s ev : exited s = true -> step plan env s ev = s.
Proof. unfold step. intros ->. reflexivity. Qed.

Lemma run_snoc evs ev s :
  run plan env (evs ++ [ev]) s = step plan env (run plan env evs s) ev.
Proof. unfold run. rewrite fold_left_app. reflexivity. Qed.

Lemma synced_run now evs :
  exited (run plan env evs (mount env now)) = false ->
  synced (run plan env evs (mount env now)).
Proof.
  induction evs as [|ev evs IH] using rev_ind; [intros _; apply synced_mount|].
  rewrite run_snoc. intros Hex.
  destruct (exited (run plan env evs (mount env now))) eqn:E.
  - rewrite exited_step in Hex by exact E. congruence.
  - apply synced_step; [apply IH; reflexivity|exact Hex].
Qed.

(** Over any run of the component, an event that finds it connecting or
    connected opens no channel. *)
Lemma single_channel_while_connected now evs ev :
  let s := run plan env evs (mount env now) in
  connectionStatus s <> disconnected ->
  sessions (step plan env s ev) = sessions s.
Proof.
  intros s Hs. destruct (exited s) eqn:E.
  - rewrite exited_step by exact E. reflexivity.
  - apply no_channel_while_connected; [apply synced_run; exact E|exact Hs].
Qed.

(** The audio contexts over a run: those still running are the ones of
    the refs, and a change of the microphone flag while the component is
    connecting or connected closes them all and opens none. *)

Lemma audio_handle ev s :
  contexts (handle plan ev s) = contexts s
  /\ audioContextRef (handle plan ev s) = audioContextRef s
  /\ inputAudioContextRef (handle plan ev s) = inputAudioContextRef s.
Proof.
  destruct ev; cbn [handle]; try (repeat split; fail).
  - destruct (same_wiring_handleNextStep "manual" s)
      as (_ & _ & _ & _ & ? & ? & ?). auto.
  - unfold onopen, with_session. cbn.
    destruct (sessionPromiseRef s); [|auto].
    destruct (nth_error (sessions s) session) as [se|]; [|auto].
    destruct (nth_error (exercises plan) (session_step se)); auto.
  - destruct (same_wiring_onmessage msg now currentTime s)
      as (_ & _ & _ & _ & ? & ? & ?). auto.
  - destruct (same_wiring_deliver_audio inputData s)
      as (_ & _ & _ & _ & ? & ? & ?). auto.
Qed.

Lemma close_of_nth ref cs i c :
  nth_error (close_of ref cs) i = Some c ->
  exists c0,
    nth_error cs i = Some c0
    /\ (ctx_closed c = true \/ (c = c0 /\ ref <> Some i)).
Proof.
  unfold close_of. destruct ref as [j|].
  - rewrite nth_error_update_at. destruct (Nat.eqb_spec j i) as [->|Hne].
    + destruct (nth_error cs i) as [c0|]; [|discriminate].
      intros [= <-]. exists c0. auto.
    + intros E. exists c. split; [exact E|]. right. split; congruence.
  - intros E. exists c. split; [exact E|]. right. split; congruence.
Qed.

Lemma all_closed_cleanup s : owned s -> all_closed (cleanup true s).
Proof.
  intros Hown i c. rewrite cleanup_unfold. cbn [contexts set_log
    set_poseInstanceRef set_contexts].
  intros E.
  apply close_of_nth in E. destruct E as (c1 & E1 & [Hc|[-> Hinp]]);
    [exact Hc|].
  apply close_of_nth in E1. destruct E1 as (c0 & E0 & [Hc|[-> Hout]]);
    [exact Hc|].
  destruct (ctx_closed c0) eqn:Hcl; [reflexivity|].
  destruct (Hown i c0 E0 Hcl); congruence.
Qed.

Lemma owned_of_all_closed s : all_closed s -> owned s.
Proof. intros H i c E Hc. rewrite (H i c E) in Hc. discriminate. Qed.

Lemma owned_connectToLive cl s :
  all_closed s -> owned (connectToLive env cl s).
Proof.
  intros Hcl. unfold connectToLive.
  destruct (cl_connectionStatus cl); try (apply owned_of_all_closed, Hcl).
  unfold connectToLive_try, connection_failed, createScriptProcessor,
    newAudioContext.
  destruct (hasApiKey env); cbn [negb]; cbv iota;
    [|apply owned_of_all_closed; exact Hcl].
  set (n := List.length (contexts s)).
  assert (Hbase : forall i c,
             nth_error
               ((contexts s
                 ++ [{| ctx_sampleRate := Codec.PCM_SAMPLE_RATE;
                        ctx_closed := false; ctx_processor := None |}])
                ++ [{| ctx_sampleRate := Codec.INPUT_SAMPLE_RATE;
                       ctx_closed := false; ctx_processor := None |}])%list i
             = Some c ->
             ctx_closed c = false -> i = n \/ i = S n).
  { intros i c E Hc. destruct (Nat.lt_ge_cases i n) as [Hlt|Hge].
    - rewrite <- app_assoc, nth_error_app1 in E by exact Hlt.
      rewrite (Hcl i c E) in Hc. discriminate.
    - assert (Hsome : nth_error
                          ((contexts s
                            ++ [{| ctx_sampleRate := Codec.PCM_SAMPLE_RATE;
                                   ctx_closed := false;
                                   ctx_processor := None |}])
                           ++ [{| ctx_sampleRate := Codec.INPUT_SAMPLE_RATE;
                                  ctx_closed := false;
                                  ctx_processor := None |}])%list i <> None)
        by (rewrite E; discriminate).
      apply nth_error_Some in Hsome. rewrite !length_app in Hsome.
      cbn [List.length] in Hsome. fold n in Hsome. lia. }
  destruct (micGranted env); cbn [negb]; cbv iota; intros i c; cbn;
    rewrite length_app; cbn [List.length]; fold n; rewrite Nat.add_1_r.
  - rewrite nth_error_update_at.
    destruct (Nat.eqb_spec (S n) i) as [<-|Hne]; [auto|].
    intros E Hc. destruct (Hbase i c E Hc) as [->| ->]; auto.
  - intros E Hc. destruct (Hbase i c E Hc) as [->| ->]; auto.
Qed.

Lemma owned_startCamera cl s :
  all_closed s -> owned (startCamera env cl s).
Proof.
  intros Hcl. unfold startCamera. destruct (cameraGranted env).
  - apply owned_connectToLive. exact Hcl.
  - apply owned_of_all_closed. exact Hcl.
Qed.

Lemma owned_rerender s : owned s -> owned (rerender env s).
Proof.
  intros Hown. unfold rerender.
  destruct (connectToLiveMemo s) as [cl|]; [|exact Hown].
  destruct (same_deps cl s); [exact Hown|].
  apply owned_startCamera, all_closed_cleanup. exact Hown.
Qed.

Lemma owned_step s ev : owned s -> owned (step plan env s ev).
Proof.
  intros Hown. unfold step. destruct (exited s); [exact Hown|].
  assert (H : owned (handle plan ev s)).
  { destruct (audio_handle ev s) as (Hc & Ha & Hi).
    intros i c. rewrite Hc, Ha, Hi. apply Hown. }
  destruct (exited (handle plan ev s)); [exact H|].
  apply owned_rerender, H.
Qed.

Lemma owned_run now evs : owned (run plan env evs (mount env now)).
Proof.
  induction evs as [|ev evs IH] using rev_ind.
  - unfold run, mount. cbn [fold_left]. apply owned_startCamera.
    intros [|i] c; unfold initPose; destruct (poseAvailable env); discriminate.
  - rewrite run_snoc. apply owned_step, IH.
Qed.

Lemma memo_run now evs :
  connectToLiveMemo (run plan env evs (mount env now)) <> None.
Proof.
  induction evs as [|ev evs IH] using rev_ind.
  - unfold run, mount. cbn [fold_left].
    destruct (deps_startCamera
                (capture (initial now))
                (initPose env
                   (set_connectToLiveMemo (Some (capture (initial now)))
                      (initial now)))) as (_ & _ & ->).
    unfold initPose. destruct (poseAvailable env); discriminate.
  - rewrite run_snoc. unfold step.
    destruct (exited _); [exact IH|].
    destruct (sessions_handle ev (run plan env evs (mount env now)))
      as [_ Hmemo].
    destruct (exited (handle plan ev _)); [congruence|].
    unfold rerender. rewrite Hmemo.
    destruct (connectToLiveMemo (run plan env evs (mount env now))) as [cl|];
      [|congruence].
    destruct (same_deps cl _); [congruence|].
    destruct (deps_startCamera
                (capture (handle plan ev (run plan env evs (mount env now))))
                (cleanup true
                   (set_connectToLiveMemo
                      (Some (capture (handle plan ev
                                        (run plan env evs (mount env now)))))
                      (handle plan ev (run plan env evs (mount env now))))))
      as (_ & _ & ->).
    destruct (deps_cleanup
                (set_connectToLiveMemo
                   (Some (capture (handle plan ev
                                     (run plan env evs (mount env now)))))
                   (handle plan ev (run plan env evs (mount env now)))))
      as (_ & _ & ->).
    discriminate.
Qed.

Lemma running_processors_all_closed s :
  all_closed s -> running_processors s = [].
Proof.
  unfold all_closed, running_processors. generalize (contexts s) as cs.
  induction cs as [|c cs IH]; intros H; [reflexivity|].
  cbn [flat_map]. rewrite (H 0%nat c eq_refl). cbn [app].
  apply IH. intros i c'. apply (H (S i) c').
Qed.

(** Over any run of the component, a click on the microphone button that
    finds it connecting or connected leaves no audio context running,
    hence no script processor to hand a captured chunk to. *)
Lemma toggle_closes_capture now evs :
  let s := run plan env evs (mount env now) in
  exited s = false -> connectionStatus s <> disconnected ->
  all_closed (step plan env s ToggleMic)
  /\ running_processors (step plan env s ToggleMic) = []
  /\ connectionStatus (step plan env s ToggleMic) = connectionStatus s.
Proof.
  intros s Hex Hst.
  assert (Hall : all_closed (step plan env s ToggleMic)
                 /\ connectionStatus (step plan env s ToggleMic)
                    = connectionStatus s).
  { unfold step. rewrite Hex. cbn [handle exited set_micActive]. rewrite Hex.
    unfold rerender. cbn [connectToLiveMemo set_micActive].
    pose proof (synced_run now evs Hex) as Hsync. fold s in Hsync.
    pose proof (memo_run now evs) as Hmemo. fold s in Hmemo.
    unfold synced in Hsync.
    destruct (connectToLiveMemo s) as [cl|]; [|congruence].
    assert (Hdeps : same_deps cl (set_micActive (negb (micActive s)) s) = false).
    { unfold same_deps in *. cbn [currentStep micActive set_micActive].
      apply andb_prop in Hsync. destruct Hsync as [_ Hmic].
      apply andb_false_intro2.
      destruct (cl_micActive cl), (micActive s); try discriminate; reflexivity. }
    rewrite Hdeps.
    set (s1 := set_connectToLiveMemo
                 (Some (capture (set_micActive (negb (micActive s)) s)))
                 (set_micActive (negb (micActive s)) s)).
    assert (Hown1 : owned s1).
    { intros i c. apply (owned_run now evs). }
    pose proof (all_closed_cleanup s1 Hown1) as Hclosed.
    destruct (sessions_cleanup s1) as [_ Hstat].
    unfold startCamera. destruct (cameraGranted env).
    - unfold connectToLive, capture. cbn [cl_connectionStatus connectionStatus
        set_micActive].
      destruct (connectionStatus s) eqn:Hcs; [congruence| |];
        (split; [exact Hclosed|]);
        cbn; rewrite Hstat; cbn; exact Hcs.
    - split; [exact Hclosed|]. cbn. rewrite Hstat. reflexivity. }
  destruct Hall as [Hall Hstat]. split; [exact Hall|]. split; [|exact Hstat].
  apply running_processors_all_closed, Hall.
Qed.

Lemma deliver_audio_none inputData s :
  running_processors s = [] -> deliver_audio inputData s = s.
Proof.
  unfold running_processors, deliver_audio. generalize (contexts s) as cs.
  intros cs. revert s. induction cs as [|c cs IH]; intros s; [reflexivity|].
  cbn [flat_map fold_left].
  destruct (ctx_closed c), (ctx_processor c) as [m|]; cbn [app];
    try apply IH. discriminate.
Qed.

(** So the chunk captured after such a click goes nowhere, whatever the
    microphone flag now says: the event leaves the component as it is. *)
Lemma chunk_after_toggle_dropped now evs inputData :
  let s := run plan env evs (mount env now) in
  exited s = false -> connectionStatus s <> disconnected ->
  let s' := step plan env s ToggleMic in
  micActive s' = negb (micActive s)
  /\ step plan env s' (AudioProcess inputData) = s'.
Proof.
  intros s Hex Hst s'.
  destruct (toggle_closes_capture now evs Hex Hst) as (_ & Hrun & _).
  fold s s' in Hrun.
  assert (Hs' : s' = run plan env (evs ++ [ToggleMic]) (mount env now))
    by (rewrite run_snoc; reflexivity).
  split.
  - subst s'. unfold step. rewrite Hex. cbn [handle exited set_micActive].
    rewrite Hex.
    destruct (deps_startCamera
                (capture (set_micActive (negb (micActive s)) s))
                (cleanup true
                   (set_connectToLiveMemo
                      (Some (capture (set_micActive (negb (micActive s)) s)))
                      (set_micActive (negb (micActive s)) s))))
      as (_ & Hm1 & _).
    destruct (deps_cleanup
                (set_connectToLiveMemo
                   (Some (capture (set_micActive (negb (micActive s)) s)))
                   (set_micActive (negb (micActive s)) s)))
      as (_ & Hm2 & _).
    unfold rerender. cbn [connectToLiveMemo set_micActive].
    pose proof (synced_run now evs Hex) as Hsync. fold s in Hsync.
    pose proof (memo_run now evs) as Hmemo. fold s in Hmemo.
    unfold synced in Hsync.
    destruct (connectToLiveMemo s) as [cl|]; [|congruence].
    assert (Hdeps : same_deps cl (set_micActive (negb (micActive s)) s) = false).
    { unfold same_deps in *. cbn [currentStep micActive set_micActive].
      apply andb_prop in Hsync. destruct Hsync as [_ Hmic].
      apply andb_false_intro2.
      destruct (cl_micActive cl), (micActive s); try discriminate; reflexivity. }
    rewrite Hdeps, Hm1, Hm2. reflexivity.
  - unfold step at 1. destruct (exited s') eqn:Hex'; [reflexivity|].
    cbn [handle]. rewrite (deliver_audio_none _ _ Hrun), Hex'.
    unfold rerender.
    assert (Hsync' : synced s') by (rewrite Hs'; apply synced_run; congruence).
    unfold synced in Hsync'.
    destruct (connectToLiveMemo s'); [rewrite Hsync'|]; reflexivity.
Qed.

End Wiring.

(** C8: the code at failing inputs.  The guard of [connectToLive] tests
    the connection status that the callback captured when it was created,
    and the callback is created anew only when the exercise index or the
    microphone flag changes.  A callback that captured "disconnected"
    opens a channel whatever the status is by then, and one that captured
    "connecting" or "connected" does nothing whatever the status is by
    then.  So, when two camera requests are pending at once, the second
    [connectToLive] finds the component connecting and opens a second
    channel all the same, which leaves two script processors running, one
    of them transmitting although the microphone is off; and the callback
    that the connected component still memoises would, called again, set
    the status back to connecting and open a second channel. *)
Theorem connectToLive_guard_reads_captured_status :
  (* the first request is granted: one channel, connecting *)
  (connectionStatus second_render = disconnected
   /\ connectionStatus first_granted = connecting
   /\ List.length (sessions first_granted) = 1%nat)
  (* the second request is granted while connecting *)
  /\ (connectionStatus both_granted = connecting
      /\ List.length (sessions both_granted) = 2%nat
      /\ sessionPromiseRef both_granted = Some 1%nat
      /\ micActive both_granted = false
      /\ running_processors both_granted = [true; false])
  (* the callback the connected component memoises, called again *)
  /\ (connectionStatus live3 = connected
      /\ connectToLiveMemo live3 = Some (capture (initial 0))
      /\ connectionStatus (connectToLive granted (capture (initial 0)) live3)
         = connecting
      /\ List.length (sessions live3) = 1%nat
      /\ List.length
           (sessions (connectToLive granted (capture (initial 0)) live3))
         = 2%nat)
  (* the guard, in general *)
  /\ (forall env cl s,
         cl_connectionStatus cl = disconnected ->
         hasApiKey env = true -> micGranted env = true ->
         connectionStatus (connectToLive env cl s) = connecting
         /\ sessions (connectToLive env cl s)
            = (sessions s ++ [{| session_step := cl_currentStep cl |}])%list
         /\ sessionPromiseRef (connectToLive env cl s)
            = Some (List.length (sessions s)))
  /\ (forall env cl s,
         cl_connectionStatus cl <> disconnected -> connectToLive env cl s = s).
Proof.
  split; [vm_compute; repeat split|].
  split; [vm_compute; repeat split|].
  split; [vm_compute; repeat split|].
  split.
  - intros env cl s Hcl Hkey Hmic. unfold connectToLive, connectToLive_try.
    rewrite Hcl, Hkey, Hmic. cbn. repeat split.
  - intros env cl s Hcl. unfold connectToLive.
    destruct (cl_connectionStatus cl); [congruence| |]; reflexivity.
Qed.

(** **** Outbound audio *)

Lemma onaudioprocess_muted inputData s :
  onaudioprocess false inputData s = s.
Proof. reflexivity. Qed.

Lemma onaudioprocess_enabled inputData s session :
  sessionPromiseRef s = Some session ->
  emitted s (onaudioprocess true inputData s) =
    [SendRealtimeInput session (Codec.createPcmBlob inputData)].
Proof.
  intros Hs. unfold onaudioprocess. rewrite Hs. apply emitted_app. reflexivity.
Qed.

(** A captured chunk is transmitted once by every running script processor
    whose closure has the microphone enabled, and by no other. *)
Lemma deliver_audio_sent inputData s session :
  sessionPromiseRef s = Some session ->
  sent_audio (emitted s (deliver_audio inputData s))
  = flat_map
      (fun micActive : bool =>
         if micActive then [Codec.createPcmBlob inputData] else [])
      (running_processors s).
Proof.
  intros Hs. unfold deliver_audio, running_processors.
  assert (H : forall cs s0 es,
             sessionPromiseRef s0 = Some session ->
             log s0 = (log s ++ es)%list ->
             exists es',
               log (fold_left
                      (fun s1 c =>
                         match ctx_closed c, ctx_processor c with
                         | false, Some m => onaudioprocess m inputData s1
                         | _, _ => s1
                         end) cs s0) = (log s ++ es ++ es')%list
               /\ sent_audio es'
                  = flat_map
                      (fun m : bool =>
                         if m then [Codec.createPcmBlob inputData] else [])
                      (flat_map
                         (fun c =>
                            match ctx_closed c, ctx_processor c with
                            | false, Some m => [m]
                            | _, _ => []
                            end) cs)).
  { induction cs as [|c cs IH]; intros s0 es Hs0 Hl; cbn [fold_left flat_map].
    - exists []. rewrite app_nil_r. auto.
    - destruct (ctx_closed c), (ctx_processor c) as [[|]|];
        cbn [app flat_map]; try (apply IH; assumption).
      assert (E : onaudioprocess true inputData s0
                  = emit (SendRealtimeInput session
                            (Codec.createPcmBlob inputData)) s0)
        by (unfold onaudioprocess; rewrite Hs0; reflexivity).
      rewrite E.
      destruct (IH (emit (SendRealtimeInput session
                            (Codec.createPcmBlob inputData)) s0)
                   (es ++ [SendRealtimeInput session
                             (Codec.createPcmBlob inputData)])%list)
        as (es' & Hl' & Hsent).
      + exact Hs0.
      + cbn. rewrite Hl, <- app_assoc. reflexivity.
      + exists (SendRealtimeInput session (Codec.createPcmBlob inputData)
                :: es').
        split.
        * rewrite Hl', <- !app_assoc. reflexivity.
        * change (sent_audio (SendRealtimeInput session
                                (Codec.createPcmBlob inputData) :: es'))
            with (Codec.createPcmBlob inputData :: sent_audio es').
          rewrite Hsent. reflexivity. }
  destruct (H (contexts s) s [] Hs) as (es' & Hl & Hsent).
  - rewrite app_nil_r. reflexivity.
  - rewrite (emitted_app _ _ _ Hl). exact Hsent.
Qed.

(** C5: the code at a failing input.  The session is open and the first
    chunk is transmitted.  The microphone is then disabled: nothing is
    transmitted.  It is enabled again, the component shows it enabled and
    connected, and the chunk captured next is not transmitted either: the
    only audio ever sent is the first chunk.  Each toggle re-ran the camera
    effect, whose cleanup closed both audio contexts, and [connectToLive],
    seeing the component connected, set up no new ones; the one script
    processor there ever was is the one of the first connection, in a
    closed context, with [micActive = true] in its closure (also while the
    microphone was disabled).  This is no accident of the input: over any
    run, enabling the microphone of a connecting or connected component
    leaves no script processor running, and the chunk captured next
    changes nothing. *)
Theorem microphone_reenabled_stays_silent (plan : WorkoutPlan)
    (c1 c2 c3 : list Q) :
  let s1 := run plan granted [Open 0%nat; AudioProcess c1] (mount granted 0) in
  let s2 := run plan granted [ToggleMic; AudioProcess c2] s1 in
  let s3 := run plan granted [ToggleMic; AudioProcess c3] s2 in
  sent_audio (log s1) = [Codec.createPcmBlob c1]
  /\ micActive s2 = false /\ sent_audio (emitted s1 s2) = []
  /\ micActive s3 = true /\ connectionStatus s3 = connected
  /\ sent_audio (emitted s2 s3) = []
  /\ sent_audio (log s3) = [Codec.createPcmBlob c1]
  /\ map ctx_closed (contexts s3) = [true; true]
  /\ map ctx_processor (contexts s3) = [None; Some true]
  /\ map ctx_processor (contexts s2) = [None; Some true]
  /\ (forall env now evs inputData,
         let s := run plan env evs (mount env now) in
         let s' := step plan env s ToggleMic in
         exited s = false -> connectionStatus s <> disconnected ->
         micActive s = false ->
         micActive s' = true
         /\ connectionStatus s' = connectionStatus s
         /\ running_processors s' = []
         /\ step plan env s' (AudioProcess inputData) = s').
Proof.
  split; [|split; [|split; [|split; [|split; [|split; [|split;
    [|split; [|split; [|split]]]]]]]]];
    try (destruct plan as [t d df [|e es]]; reflexivity).
  intros env now evs inputData s s' Hex Hst Hmic.
  destruct (chunk_after_toggle_dropped plan env now evs inputData Hex Hst)
    as [Hm Hdrop].
  destruct (toggle_closes_capture plan env now evs Hex Hst) as (_ & Hrun & Hs).
  fold s in Hm. rewrite Hmic in Hm. auto.
Qed.

(** **** Playback scheduling *)

Lemma scheduled_app l1 l2 :
  scheduled (l1 ++ l2) = (scheduled l1 ++ scheduled l2)%list.
Proof. apply flat_map_app. Qed.

Lemma quiet_refl s : quiet s s.
Proof.
  repeat split. exists []. split; [symmetry; apply app_nil_r|reflexivity].
Qed.

Lemma quiet_trans s1 s2 s3 : quiet s1 s2 -> quiet s2 s3 -> quiet s1 s3.
Proof.
  intros (Hn1 & es1 & Hl1 & Hs1) (Hn2 & es2 & Hl2 & Hs2).
  repeat split; try congruence.
  exists (es1 ++ es2)%list. split.
  - rewrite Hl2, Hl1, app_assoc. reflexivity.
  - rewrite scheduled_app, Hs1, Hs2. reflexivity.
Qed.

Lemma quiet_frame s s1 s2 :
  quiet s s1 -> log s2 = log s1 ->
  nextStartTimeRef s2 = nextStartTimeRef s1 -> quiet s s2.
Proof.
  intros (Hn & es & Hl & Hs) Hlog Hnext.
  repeat split; try congruence. exists es. split; congruence.
Qed.

Lemma quiet_emit e s s1 :
  scheduled [e] = [] -> quiet s s1 -> quiet s (emit e s1).
Proof.
  intros He H. apply (quiet_trans _ s1); [exact H|].
  repeat split. exists [e]. split; [reflexivity|exact He].
Qed.

(** Straight-line code that only sets fields other than the cursor and
    emits effects other than a source start. *)
Ltac quiet :=
  repeat match goal with
         | |- quiet ?s ?s => apply quiet_refl
         | H : quiet ?s ?s1 |- quiet ?s ?s1 => exact H
         | |- quiet _ (emit _ _) => apply quiet_emit; [reflexivity|]
         | |- quiet _ (match ?x with _ => _ end) => destruct x
         | |- quiet _ (?f _ ?s1) =>
             apply (quiet_frame _ s1); [|reflexivity..]
         end.

Section Playback.

Variable plan : WorkoutPlan.
Variable env : Env.

Lemma quiet_handleNextStep id s0 s :
  quiet s0 s -> quiet s0 (handleNextStep plan id s).
Proof.
  intros H. unfold handleNextStep.
  destruct (String.eqb id "manual"), (_ <=? _)%nat;
    unfold with_session, triggerHaptic, onExit; cbn [sessionPromiseRef emit set_log set_exited set_currentStep];
    try destruct (sessionPromiseRef s); try destruct (_ <? _)%nat; quiet.
Qed.

Lemma quiet_handleFunctionCall now fc s0 s :
  quiet s0 s -> quiet s0 (handleFunctionCall plan now fc s).
Proof.
  intros H. unfold handleFunctionCall.
  destruct (String.eqb (fc_name fc) "nextExercise").
  - apply quiet_handleNextStep. unfold triggerHaptic. quiet.
  - destruct (String.eqb (fc_name fc) "updateFormFeedback"); [|exact H].
    unfold with_session, triggerHaptic.
    destruct (String.eqb (arg_status (fc_args fc)) "incorrect");
      cbn [sessionPromiseRef emit set_log set_overlayStateRef];
      destruct (sessionPromiseRef s); quiet.
Qed.

Lemma quiet_handleToolCall now msg s0 s :
  quiet s0 s -> quiet s0 (handleToolCall plan now msg s).
Proof.
  unfold handleToolCall. destruct (toolCall msg) as [fcs|]; [|auto].
  revert s. induction fcs as [|fc fcs IH]; intros s H; cbn; [exact H|].
  apply IH, quiet_handleFunctionCall, H.
Qed.

Lemma quiet_onopen session s0 s : quiet s0 s -> quiet s0 (onopen plan session s).
Proof.
  intros H. unfold onopen, with_session.
  cbn [sessionPromiseRef set_connectionStatus sessions].
  destruct (sessionPromiseRef s); [|quiet].
  destruct (nth_error (sessions s) session) as [se|]; [|quiet].
  destruct (nth_error (exercises plan) (session_step se)); quiet.
Qed.

Lemma quiet_cleanup s : quiet s (cleanup true s).
Proof.
  rewrite cleanup_unfold. repeat split. eexists. split; [reflexivity|].
  destruct (videoSrcObject s), (audioContextRef s), (inputAudioContextRef s),
    (poseInstanceRef s); reflexivity.
Qed.

Lemma quiet_connectToLive cl s0 s :
  quiet s0 s -> quiet s0 (connectToLive env cl s).
Proof.
  intros H. apply (quiet_trans _ s); [exact H|].
  unfold connectToLive, connectToLive_try, connection_failed.
  destruct (cl_connectionStatus cl); try apply quiet_refl.
  destruct (hasApiKey env); cbn [negb]; cbv iota;
    [destruct (micGranted env); cbn [negb]; cbv iota|];
    (split; [reflexivity|]);
    first [ exists []; split; [symmetry; apply app_nil_r|reflexivity]
          | exists [ConsoleError "Connection failed"]; split; reflexivity ].
Qed.

Lemma quiet_startCamera cl s0 s :
  quiet s0 s -> quiet s0 (startCamera env cl s).
Proof.
  intros H. unfold startCamera. destruct (cameraGranted env); [|quiet].
  apply quiet_connectToLive. quiet.
Qed.

Lemma quiet_rerender s0 s : quiet s0 s -> quiet s0 (rerender env s).
Proof.
  intros H. unfold rerender. destruct (connectToLiveMemo s) as [cl|]; [|exact H].
  destruct (same_deps cl s); [exact H|].
  apply quiet_startCamera. eapply quiet_trans; [|apply quiet_cleanup]. quiet.
Qed.

Lemma quiet_deliver_audio inputData s0 s :
  quiet s0 s -> quiet s0 (deliver_audio inputData s).
Proof.
  unfold deliver_audio. generalize (contexts s) as cs. intros cs. revert s.
  induction cs as [|c cs IH]; intros s H; cbn; [exact H|].
  apply IH. unfold onaudioprocess.
  destruct (ctx_closed c), (ctx_processor c) as [[|]|], (sessionPromiseRef s);
    quiet.
Qed.

Lemma Qmax_ge_r (x y : Q) : (y <= Qmax x y)%Q.
Proof. apply Q.le_max_r. Qed.

Lemma decodeAudioData_duration payload buffer :
  Codec.decodeAudioData payload = Some buffer ->
  (0 < Codec.duration buffer)%Q.
Proof.
  unfold Codec.decodeAudioData, Codec.createBuffer.
  destruct (Codec.atob payload); [|discriminate].
  destruct (Codec.Int16Array_of_bytes _) as [[|v vs]|]; try discriminate.
  intros [= <-]. unfold Codec.duration. cbn [Codec.channelData Codec.sampleRate map].
  unfold Codec.PCM_SAMPLE_RATE, Qdiv, Qlt. cbn. lia.
Qed.

Lemma playback_refl s : playback s s.
Proof. exists []. split; [symmetry; apply app_nil_r|reflexivity]. Qed.

Lemma quiet_playback s s' : quiet s s' -> playback s s'.
Proof.
  intros (Hn & es & Hl & Hs). exists es. split; [exact Hl|].
  rewrite Hs. exact Hn.
Qed.

Lemma playback_trans s1 s2 s3 :
  playback s1 s2 -> playback s2 s3 -> playback s1 s3.
Proof.
  intros (es1 & Hl1 & H1) (es2 & Hl2 & H2). exists (es1 ++ es2)%list. split.
  - rewrite Hl2, Hl1, app_assoc. reflexivity.
  - rewrite scheduled_app. eapply Timeline.back_to_back_app; eauto.
Qed.

Lemma onmessage_audio msg now t s payload ctx buffer :
  truthy (audioData msg) = Some payload ->
  audioContextRef s = Some ctx ->
  Codec.decodeAudioData payload = Some buffer ->
  let startTime := Qmax t (nextStartTimeRef s) in
  onmessage plan msg now t s =
  handleToolCall plan now msg
    (set_nextStartTimeRef (startTime + Codec.duration buffer)%Q
       (emit (SourceStart ctx buffer startTime)
          (triggerHaptic [50] (set_aiSpeaking true s)))).
Proof.
  intros Ha Hc Hd. unfold onmessage. rewrite Ha, Hc, Hd. reflexivity.
Qed.

Lemma onmessage_corrupt msg now t s payload ctx :
  truthy (audioData msg) = Some payload ->
  audioContextRef s = Some ctx ->
  Codec.decodeAudioData payload = None ->
  onmessage plan msg now t s =
  emit UnhandledRejection (triggerHaptic [50] (set_aiSpeaking true s)).
Proof.
  intros Ha Hc Hd. unfold onmessage. rewrite Ha, Hc, Hd. reflexivity.
Qed.

Lemma playback_onmessage msg now t s : playback s (onmessage plan msg now t s).
Proof.
  destruct (truthy (audioData msg)) as [payload|] eqn:Ha;
    [destruct (audioContextRef s) as [ctx|] eqn:Hc;
     [destruct (Codec.decodeAudioData payload) as [buffer|] eqn:Hd|]|].
  - rewrite (onmessage_audio _ _ _ _ _ _ _ Ha Hc Hd).
    eapply playback_trans;
      [|apply quiet_playback, quiet_handleToolCall, quiet_refl].
    exists [Haptic [50];
            SourceStart ctx buffer (Qmax t (nextStartTimeRef s))].
    split.
    + cbn. rewrite <- app_assoc. reflexivity.
    + cbn. repeat split.
      * apply Qmax_ge_r.
      * apply Qlt_le_weak, (decodeAudioData_duration payload), Hd.
  - rewrite (onmessage_corrupt _ _ _ _ _ _ Ha Hc Hd).
    apply quiet_playback. unfold triggerHaptic. quiet.
  - unfold onmessage. rewrite Ha, Hc.
    apply quiet_playback, quiet_handleToolCall, quiet_refl.
  - unfold onmessage. rewrite Ha.
    apply quiet_playback, quiet_handleToolCall, quiet_refl.
Qed.

Lemma playback_handle ev s : playback s (handle plan ev s).
Proof.
  destruct ev; cbn [handle];
    try (apply quiet_playback; unfold onExit; quiet; fail).
  - apply quiet_playback, quiet_handleNextStep, quiet_refl.
  - apply quiet_playback, quiet_onopen, quiet_refl.
  - apply playback_onmessage.
  - apply quiet_playback, quiet_deliver_audio, quiet_refl.
Qed.

Lemma playback_step s ev : playback s (step plan env s ev).
Proof.
  unfold step. destruct (exited s); [apply playback_refl|].
  destruct (exited (handle plan ev s)); [apply playback_handle|].
  eapply playback_trans; [apply playback_handle|].
  apply quiet_playback, quiet_rerender, quiet_refl.
Qed.

Lemma playback_run evs s : playback s (run plan env evs s).
Proof.
  revert s. induction evs as [|ev evs IH]; intros s; cbn;
    [apply playback_refl|].
  eapply playback_trans; [apply playback_step|apply IH].
Qed.

End Playback.

Lemma onmessage_audio_schedule (plan : WorkoutPlan) msg now t s payload ctx
    buffer :
  truthy (audioData msg) = Some payload ->
  audioContextRef s = Some ctx ->
  Codec.decodeAudioData payload = Some buffer ->
  let s' := onmessage plan msg now t s in
  let startTime := Qmax t (nextStartTimeRef s) in
  scheduled (emitted s s') = [(startTime, Codec.duration buffer)]
  /\ nextStartTimeRef s' = (startTime + Codec.duration buffer)%Q
  /\ (0 < Codec.duration buffer)%Q
  /\ ((t <= nextStartTimeRef s)%Q ->
      (nextStartTimeRef s'
       == nextStartTimeRef s + Codec.duration buffer)%Q).
Proof.
  intros Ha Hc Hd s' startTime. subst s'.
  rewrite (onmessage_audio plan _ _ _ _ _ _ _ Ha Hc Hd). fold startTime.
  destruct (quiet_handleToolCall plan now msg _ _ (quiet_refl
    (set_nextStartTimeRef (startTime + Codec.duration buffer)%Q
       (emit (SourceStart ctx buffer startTime)
          (triggerHaptic [50] (set_aiSpeaking true s))))))
    as (Hn & es & Hl & Hs).
  split; [|split; [|split]].
  - erewrite emitted_app;
      [|rewrite Hl; cbn; rewrite <- !app_assoc; reflexivity].
    cbn. f_equal. exact Hs.
  - rewrite Hn. reflexivity.
  - apply (decodeAudioData_duration payload), Hd.
  - intros Hle. rewrite Hn. cbn. subst startTime.
    rewrite (Q.max_r _ _ Hle). reflexivity.
Qed.

(** C2. An inbound audio segment is started at the maximum of the current
    playback time and [nextStartTime], and [nextStartTime] becomes that
    start plus the duration of the segment (the former [nextStartTime] plus
    the duration when playback had not passed it).  Hence, over any sequence of
    events whatever the playback times at which the messages are handled,
    the segments put on the timeline start at non-decreasing times, each
    at or after the end (start plus duration) of the one before, the first
    at or after the cursor the sequence began with and the last ending at
    or before the cursor it ends with. *)
Theorem playback_ordering (plan : WorkoutPlan) (env : Env) :
  (forall msg now t s payload ctx buffer,
      truthy (audioData msg) = Some payload ->
      audioContextRef s = Some ctx ->
      Codec.decodeAudioData payload = Some buffer ->
      let s' := onmessage plan msg now t s in
      let startTime := Qmax t (nextStartTimeRef s) in
      scheduled (emitted s s') = [(startTime, Codec.duration buffer)]
      /\ nextStartTimeRef s' = (startTime + Codec.duration buffer)%Q
      /\ (0 < Codec.duration buffer)%Q
      /\ ((t <= nextStartTimeRef s)%Q ->
          (nextStartTimeRef s'
           == nextStartTimeRef s + Codec.duration buffer)%Q))
  /\ (forall evs s,
         let s' := run plan env evs s in
         let segments := scheduled (emitted s s') in
         (forall i t1 d1 t2 d2,
             nth_error segments i = Some (t1, d1) ->
             nth_error segments (S i) = Some (t2, d2) ->
             (t1 <= t2 /\ t1 + d1 <= t2)%Q)
         /\ (forall i j t1 d1 t2 d2,
                (i <= j)%nat ->
                nth_error segments i = Some (t1, d1) ->
                nth_error segments j = Some (t2, d2) -> (t1 <= t2)%Q)
         /\ (forall i t d,
                nth_error segments i = Some (t, d) ->
                (nextStartTimeRef s <= t /\ t + d <= nextStartTimeRef s')%Q)
         /\ (nextStartTimeRef s <= nextStartTimeRef s')%Q).
Proof.
  split.
  - apply onmessage_audio_schedule.
  - intros evs s s' segments.
    destruct (playback_run plan env evs s) as (es & Hl & Hb).
    fold s' in Hl, Hb. subst segments. rewrite (emitted_app _ _ _ Hl).
    destruct (Timeline.back_to_back_bounds _ _ _ Hb) as [Hf Hin].
    split; [|split; [|split]].
    + intros i t1 d1 t2 d2 E1 E2. split.
      * apply (Timeline.back_to_back_sorted _ _ _ i (S i) t1 d1 t2 d2 Hb);
          [lia|exact E1|exact E2].
      * apply (Timeline.back_to_back_adjacent _ _ _ i t1 d1 t2 d2 Hb E1 E2).
    + intros i j t1 d1 t2 d2 Hij E1 E2.
      apply (Timeline.back_to_back_sorted _ _ _ i j t1 d1 t2 d2 Hb Hij E1 E2).
    + intros i t d E. apply (Hin i t d E).
    + exact Hf.
Qed.

Lemma playback_ordering_witness :
  let segments :=
    scheduled
      (emitted live3
         (run plan3 granted
            [Message (audio "AAAAQA==") 0 (1 # 2); Message (audio "AEA=") 0 0]
            live3)) in
  segments = [((1 # 2)%Q, (2 # 24000)%Q); ((24004 # 48000)%Q, (1 # 24000)%Q)]
  /\ (forall i t1 d1 t2 d2,
         nth_error segments i = Some (t1, d1) ->
         nth_error segments (S i) = Some (t2, d2) ->
         (t1 <= t2 /\ t1 + d1 <= t2)%Q).
Proof.
  split; [reflexivity|].
  apply (playback_ordering plan3 granted).
Defined.

(** **** Corrupt audio *)

Section Corrupt.

Variable plan : WorkoutPlan.

Lemma audioContextRef_handleToolCall now msg s :
  audioContextRef (handleToolCall plan now msg s) = audioContextRef s.
Proof.
  unfold handleToolCall. destruct (toolCall msg) as [fcs|]; [|reflexivity].
  revert s. induction fcs as [|fc fcs IH]; intros s; cbn; [reflexivity|].
  rewrite IH. unfold handleFunctionCall, handleNextStep, with_session,
    triggerHaptic, onExit.
  destruct (String.eqb (fc_name fc) "nextExercise").
  - destruct (String.eqb (fc_id fc) "manual"), (_ <=? _)%nat; cbn;
      try destruct (sessionPromiseRef s); try destruct (_ <? _)%nat;
      try destruct (nth_error _ _); reflexivity.
  - destruct (String.eqb (fc_name fc) "updateFormFeedback"); [|reflexivity].
    destruct (String.eqb (arg_status (fc_args fc)) "incorrect"); cbn;
      destruct (sessionPromiseRef s); reflexivity.
Qed.

(** What a message puts on the timeline depends on the state through the
    playback context ref and the cursor only. *)
Lemma onmessage_schedule msg now t s :
  let s' := onmessage plan msg now t s in
  match truthy (audioData msg), audioContextRef s with
  | Some payload, Some _ =>
      match Codec.decodeAudioData payload with
      | Some buffer =>
          scheduled (emitted s s')
          = [(Qmax t (nextStartTimeRef s), Codec.duration buffer)]
          /\ nextStartTimeRef s'
             = (Qmax t (nextStartTimeRef s) + Codec.duration buffer)%Q
      | None =>
          scheduled (emitted s s') = []
          /\ nextStartTimeRef s' = nextStartTimeRef s
      end
  | _, _ =>
      scheduled (emitted s s') = []
      /\ nextStartTimeRef s' = nextStartTimeRef s
  end.
Proof.
  cbv zeta.
  assert (Hq : forall s0, scheduled (emitted s0 (handleToolCall plan now msg s0)) = []
                     /\ nextStartTimeRef (handleToolCall plan now msg s0)
                        = nextStartTimeRef s0).
  { intros s0.
    destruct (quiet_handleToolCall plan now msg _ _ (quiet_refl s0))
      as (Hn & es & Hl & Hs).
    rewrite (emitted_app _ _ _ Hl). auto. }
  destruct (truthy (audioData msg)) as [payload|] eqn:Ha;
    [destruct (audioContextRef s) as [ctx|] eqn:Hc;
     [destruct (Codec.decodeAudioData payload) as [buffer|] eqn:Hd|]|].
  - destruct (onmessage_audio_schedule plan msg now t s payload ctx buffer
                Ha Hc Hd) as (H1 & H2 & _ & _).
    auto.
  - rewrite (onmessage_corrupt plan _ _ _ _ _ _ Ha Hc Hd). split; [|reflexivity].
    erewrite emitted_app; [|cbn; rewrite <- app_assoc; reflexivity].
    reflexivity.
  - unfold onmessage. rewrite Ha, Hc. apply Hq.
  - unfold onmessage. rewrite Ha. apply Hq.
Qed.

End Corrupt.

Lemma Int16Array_of_bytes_odd bytes :
  Nat.odd (List.length bytes) = true -> Codec.Int16Array_of_bytes bytes = None.
Proof.
  revert bytes.
  assert (H : forall n bytes, (List.length bytes <= n)%nat ->
                Nat.odd (List.length bytes) = true ->
                Codec.Int16Array_of_bytes bytes = None).
  { induction n as [|n IH]; intros [|lo [|hi rest]]; cbn [List.length];
      try discriminate; try lia; try reflexivity.
    intros Hlen Hodd. cbn [Codec.Int16Array_of_bytes].
    rewrite IH; [reflexivity|lia|exact Hodd]. }
  intros bytes. apply (H (List.length bytes)). lia.
Qed.

(** A payload of an odd number of bytes is not a whole number of 16-bit
    samples: [decodeAudioData] throws. *)
Lemma decodeAudioData_odd base64 binary :
  Codec.atob base64 = Some binary ->
  Nat.odd (String.length binary) = true ->
  Codec.decodeAudioData base64 = None.
Proof.
  intros Ha Hodd. unfold Codec.decodeAudioData. rewrite Ha.
  rewrite Int16Array_of_bytes_odd; [reflexivity|].
  rewrite length_map. revert Hodd. generalize binary as b.
  assert (E : forall b, List.length (list_ascii_of_string b) = String.length b).
  { induction b; cbn; congruence. }
  intros b. rewrite E. auto.
Qed.

(** C7. A message whose audio payload fails to decode does not take the
    session down: the callback only marks the coach as speaking, fires
    the haptic and ends in a rejected promise; nothing is put on the
    timeline and the cursor [nextStartTime] is exactly what it was, so it
    still satisfies its invariant; the connection and the component are
    as before; and any later message is scheduled exactly as if the
    corrupt one had never arrived. *)
Theorem corrupt_audio_skipped (plan : WorkoutPlan) (msg : LiveServerMessage)
    (now : Z) (t : Q) (s : State) (payload : string) (ctx : nat) :
  truthy (audioData msg) = Some payload ->
  audioContextRef s = Some ctx ->
  Codec.decodeAudioData payload = None ->
  let s' := onmessage plan msg now t s in
  s' = set_log (log s ++ [Haptic [50]; UnhandledRejection])%list
         (set_aiSpeaking true s)
  /\ nextStartTimeRef s' = nextStartTimeRef s
  /\ scheduled (emitted s s') = []
  /\ connectionStatus s' = connectionStatus s
  /\ exited s' = exited s
  /\ (forall msg2 now2 t2,
         scheduled (emitted s' (onmessage plan msg2 now2 t2 s'))
         = scheduled (emitted s (onmessage plan msg2 now2 t2 s))
         /\ nextStartTimeRef (onmessage plan msg2 now2 t2 s')
            = nextStartTimeRef (onmessage plan msg2 now2 t2 s)).
Proof.
  intros Ha Hc Hd s'. subst s'.
  rewrite (onmessage_corrupt plan _ _ _ _ _ _ Ha Hc Hd).
  set (s1 := emit UnhandledRejection (triggerHaptic [50] (set_aiSpeaking true s))).
  assert (Hctx : audioContextRef s1 = audioContextRef s) by reflexivity.
  assert (Hnext : nextStartTimeRef s1 = nextStartTimeRef s) by reflexivity.
  assert (Hlog : log s1 = (log s ++ [Haptic [50]; UnhandledRejection])%list).
  { subst s1. cbn. rewrite <- app_assoc. reflexivity. }
  split; [|split; [|split; [|split; [|split]]]]; try reflexivity.
  - apply State_ext; try reflexivity. exact Hlog.
  - rewrite (emitted_app _ _ _ Hlog). reflexivity.
  - intros msg2 now2 t2.
    pose proof (onmessage_schedule plan msg2 now2 t2 s) as H1.
    pose proof (onmessage_schedule plan msg2 now2 t2 s1) as H2.
    cbv zeta in H1, H2. rewrite Hctx, Hnext in H2.
    destruct (truthy (audioData msg2)) as [p2|];
      [destruct (audioContextRef s);
       [destruct (Codec.decodeAudioData p2)|]|];
      destruct H1 as [-> ->], H2 as [-> ->]; split; reflexivity.
Qed.

Lemma corrupt_audio_skipped_witness :
  truthy (audioData (audio "AA==")) = Some "AA=="
  /\ audioContextRef live3 = Some 0%nat
  /\ Codec.decodeAudioData "AA==" = None
  /\ nextStartTimeRef (onmessage plan3 (audio "AA==") 0 (3 # 1) live3)
     = nextStartTimeRef live3
  /\ scheduled (emitted live3 (onmessage plan3 (audio "AA==") 0 (3 # 1) live3))
     = [].
Proof.
  split; [reflexivity|]. split; [reflexivity|]. split; [reflexivity|].
  destruct (corrupt_audio_skipped plan3 (audio "AA==") 0 (3 # 1) live3
              "AA==" 0%nat eq_refl eq_refl eq_refl)
    as (_ & Hn & Hs & _).
  split; [exact Hn|exact Hs].
Defined.

(** **** The overlay renderer *)

Lemma labels_app l1 l2 : labels (l1 ++ l2) = (labels l1 ++ labels l2)%list.
Proof. apply flat_map_app. Qed.

Lemma labels_skeleton win color : labels (skeleton win color) = [].
Proof. unfold skeleton. destruct (drawConnectors win), (drawLandmarks win); reflexivity. Qed.

Lemma labels_corners w h : labels (corners w h) = [].
Proof. reflexivity. Qed.

Lemma labels_callout color fb w h target :
  labels (callout color fb w h target) = ["!"; fb].
Proof. reflexivity. Qed.

Lemma targetLandmark_mapped state landmarks :
  targetLandmark state landmarks =
  if negb (String.eqb (status state) "scanning")
     && negb (String.eqb (status state) "correct")
  then match mapped_landmark (focusArea state) with
       | Some k => nth_error landmarks k
       | None => None
       end
  else None.
Proof.
  unfold targetLandmark, mapped_landmark.
  destruct (negb _ && negb _); [|reflexivity].
  destruct (String.eqb (focusArea state) "head"); [reflexivity|].
  destruct (String.eqb (focusArea state) "shoulders"); [reflexivity|].
  destruct (String.eqb (focusArea state) "hips"); reflexivity.
Qed.

(** C9 (amended). On a render tick with a canvas, whatever string the
    overlay state holds as its status: the callout (the only text the
    renderer draws) is drawn if and only if the status is neither
    "scanning" nor "correct" and the focus area is mapped (head to the
    nose, shoulders to the left shoulder, hips to the left hip) to a
    landmark of the pose results; on the four values of [FormStatus] the
    first condition is: warning or incorrect.  For the focus areas torso,
    legs and general no callout is drawn.  When it is drawn, the callout
    is, between the skeleton and the corner brackets: a disc of radius 20
    in the status colour centred on the landmark at (x * w, y * h), a
    black "!" on it, a leader line in the status colour from the landmark
    to (+50, -50), a dark label box of 140 by 30 at (+50, -70) and the
    feedback text in white at (+60, -50).  When it is not drawn, nothing
    stands between the skeleton and the corner brackets. *)
Theorem callout_drawn_iff (win : Window) (w h : Q) (state : OverlayState)
    (results : option (list Landmark)) :
  let cmds := onPoseResults win (Some (w, h)) state results in
  let flagged := status state <> "scanning" /\ status state <> "correct" in
  let anchor :=
    match results, mapped_landmark (focusArea state) with
    | Some landmarks, Some k => nth_error landmarks k
    | _, _ => None
    end in
  let color := status_color (status state) in
  let before :=
    ([Save; ClearRect 0 0 w h]
     ++ match results with Some _ => skeleton win color | None => [] end)%list in
  let after := (corners w h ++ [Restore])%list in
  (labels cmds <> [] <-> flagged /\ anchor <> None)
  /\ (In (status state) FormStatus ->
      (flagged <-> status state = "warning" \/ status state = "incorrect"))
  /\ (In (focusArea state) ["torso"; "legs"; "general"] -> labels cmds = [])
  /\ (forall target,
         flagged -> anchor = Some target ->
         let tx := (lm_x target * w)%Q in
         let ty := (lm_y target * h)%Q in
         cmds =
           (before
            ++ [ FillStyle color; BeginPath; Arc tx ty 20; Fill;
                 FillStyle "black"; Font "bold 12px Inter";
                 FillText "!" (tx - 2)%Q (ty + 4)%Q;
                 StrokeStyle color; LineWidth 2; BeginPath;
                 MoveTo tx ty; LineTo (tx + 50)%Q (ty - 50)%Q; Stroke;
                 FillStyle "rgba(15, 23, 42, 0.9)";
                 FillRect (tx + 50)%Q (ty - 70)%Q 140 30;
                 FillStyle "white";
                 FillText (feedback state) (tx + 60)%Q (ty - 50)%Q ]
            ++ after)%list)
  /\ (~ (flagged /\ anchor <> None) -> cmds = (before ++ after)%list)
  /\ labels before = [] /\ labels after = [].
Proof.
  intros cmds flagged anchor color before after.
  assert (Hflag : negb (String.eqb (status state) "scanning")
                  && negb (String.eqb (status state) "correct") = true
                  <-> flagged).
  { subst flagged.
    destruct (String.eqb_spec (status state) "scanning") as [E1|E1];
      destruct (String.eqb_spec (status state) "correct") as [E2|E2]; cbn;
      intuition (try discriminate; auto). }
  assert (Hcmds :
    cmds =
      (before
       ++ match (if negb (String.eqb (status state) "scanning")
                    && negb (String.eqb (status state) "correct")
                 then anchor else None) with
          | Some target => callout color (feedback state) w h target
          | None => []
          end
       ++ after)%list).
  { subst cmds anchor before after color. unfold onPoseResults.
    destruct results as [lms|].
    - rewrite targetLandmark_mapped, <- !app_assoc.
      destruct (negb _ && negb _); reflexivity.
    - destruct (negb _ && negb _); reflexivity. }
  assert (Hbefore : labels before = []).
  { subst before. rewrite labels_app.
    destruct results; rewrite ?labels_skeleton; reflexivity. }
  assert (Hafter : labels after = []) by reflexivity.
  assert (Hlabels :
    labels cmds =
      match (if negb (String.eqb (status state) "scanning")
                && negb (String.eqb (status state) "correct")
             then anchor else None) with
      | Some target => ["!"; feedback state]
      | None => []
      end).
  { rewrite Hcmds, !labels_app, Hbefore, Hafter.
    destruct (negb _ && negb _); try reflexivity;
      destruct anchor; reflexivity. }
  split; [|split; [|split; [|split; [|split; [|split]]]]].
  - rewrite Hlabels.
    destruct (negb _ && negb _) eqn:E.
    + assert (Hf : flagged) by (apply Hflag; reflexivity).
      destruct anchor; split.
      * intros _. split; [exact Hf|discriminate].
      * intros _. discriminate.
      * congruence.
      * intros [_ H]. congruence.
    + split; [congruence|]. intros [Hf _]. apply Hflag in Hf. discriminate.
  - intros Hst. subst flagged. cbn in Hst.
    destruct Hst as [<-|[<-|[<-|[<-|[]]]]];
      intuition (try discriminate; try congruence; auto).
  - intros Harea. rewrite Hlabels.
    assert (Hnone : anchor = None).
    { subst anchor. cbn in Harea.
      destruct Harea as [<-|[<-|[<-|[]]]]; destruct results; reflexivity. }
    rewrite Hnone. destruct (negb _ && negb _); reflexivity.
  - intros target Hf Ha. apply Hflag in Hf.
    rewrite Hcmds, Hf, Ha. reflexivity.
  - intros Hno. rewrite Hcmds.
    destruct (negb _ && negb _) eqn:E; [|reflexivity].
    destruct anchor as [target|]; [|reflexivity].
    exfalso. apply Hno. split; [apply Hflag; reflexivity|discriminate].
  - exact Hbefore.
  - exact Hafter.
Qed.

Lemma callout_drawn_iff_witness :
  let state := {| status := "incorrect"; feedback := "Straighten Back";
                  focusArea := "shoulders"; lastUpdated := 0 |} in
  let win := {| drawConnectors := true; drawLandmarks := true |} in
  labels (onPoseResults win (Some (640, 480)%Q) state (Some pose33)) <> [].
Proof.
  cbv zeta.
  destruct (callout_drawn_iff
              {| drawConnectors := true; drawLandmarks := true |} 640 480
              {| status := "incorrect"; feedback := "Straighten Back";
                 focusArea := "shoulders"; lastUpdated := 0 |} (Some pose33))
    as [[_ H] _].
  apply H. split; [split; discriminate|discriminate].
Defined.

(** C9, as stated, fails.  The status is stored as it is received: after
    an [updateFormFeedback] call with the status "bogus" and the focus
    area shoulders, the status is neither warning nor incorrect, and the
    callout is drawn on the left shoulder all the same. *)
Lemma unlisted_status_counterexample :
  let msg := {| audioData := None;
                toolCall := Some [updateFormFeedback "call-9" "bogus"
                                    "Lower Hips" "shoulders"] |} in
  let state := overlayStateRef (onmessage plan3 msg 42 0 live3) in
  let win := {| drawConnectors := true; drawLandmarks := true |} in
  let cmds := onPoseResults win (Some (640, 480)%Q) state (Some pose33) in
  status state = "bogus"
  /\ ~ (status state = "warning" \/ status state = "incorrect")
  /\ nth_error pose33 LEFT_SHOULDER = Some {| lm_x := 1 # 4; lm_y := 3 # 4 |}
  /\ labels cmds = ["!"; "Lower Hips"]
  /\ In (Arc ((1 # 4) * 640) ((3 # 4) * 480) 20) cmds.
Proof.
  cbv zeta. split; [reflexivity|]. split.
  { vm_compute. intros [H|H]; discriminate H. }
  split; [reflexivity|]. split; [reflexivity|].
  vm_compute. do 6 right. left. reflexivity.
Qed.

End LiveSessionFacts.

(* ------------------------------------------------------------------ *)
(** ** Further properties of the codec bridge                           *)
(* ------------------------------------------------------------------ *)

Module CodecCoverage.

Import Codec CodecFacts.

Lemma ToInt16_range (x : Q) : -32768 <= ToInt16 x <= 32767.
Proof.
  unfold ToInt16. cbv zeta.
  pose proof (Z.mod_pos_bound (truncate x) 65536 eq_refl) as Hm.
  destruct (Z.leb_spec 32768 (truncate x mod 65536)); lia.
Qed.

Lemma ToInt16_small (t : Q) :
  -32768 <= truncate t <= 32767 -> ToInt16 t = truncate t.
Proof.
  intros Ht. unfold ToInt16. cbv zeta.
  destruct (Z_le_gt_dec 0 (truncate t)).
  - rewrite Z.mod_small by lia.
    destruct (Z.leb_spec 32768 (truncate t)); lia.
  - replace (truncate t mod 65536) with (truncate t + 65536)
      by (apply (Z.mod_unique _ _ (-1)); lia).
    destruct (Z.leb_spec 32768 (truncate t + 65536)); lia.
Qed.

Lemma length_string_of_list_ascii (l : list ascii) :
  String.length (string_of_list_ascii l) = List.length l.
Proof. induction l as [|c l IH]; cbn; [reflexivity|now rewrite IH]. Qed.

Lemma length_list_ascii_of_string (s : string) :
  List.length (list_ascii_of_string s) = String.length s.
Proof. induction s as [|c s IH]; cbn; [reflexivity|now rewrite IH]. Qed.

Lemma length_flat_map_int16_bytes (vs : list Z) :
  List.length (flat_map int16_bytes vs) = (2 * List.length vs)%nat.
Proof. induction vs as [|v vs IH]; cbn in *; [reflexivity|lia]. Qed.

Lemma decoded_sample_range (v : Z) :
  -32768 <= v <= 32767 ->
  (-1 <= inject_Z v / 32768)%Q /\ (inject_Z v / 32768 < 1)%Q.
Proof.
  intros Hv. unfold Qle, Qlt, Qdiv, Qmult, Qinv, inject_Z. cbn. lia.
Qed.

(** The decoded value of a sample of [-1, 1) lies between zero and the
    sample: quantisation truncates towards zero. *)
Lemma ToInt16_scaled_towards_zero (x : Q) :
  (-1 <= x)%Q -> (x < 1)%Q ->
  let y := (inject_Z (ToInt16 (x * 32768)%Q) / 32768)%Q in
  ((0 <= x)%Q -> (0 <= y)%Q /\ (y <= x)%Q)
  /\ ((x <= 0)%Q -> (x <= y)%Q /\ (y <= 0)%Q).
Proof.
  intros Hlo Hhi y. subst y.
  destruct (truncate_scaled_bounds x Hlo Hhi) as [Hrange _].
  rewrite (ToInt16_small _ Hrange). unfold truncate.
  destruct x as [a b]. clear Hlo Hhi Hrange.
  unfold Qle, Qdiv, Qmult, Qinv, inject_Z. cbn. rewrite Pos.mul_1_r.
  pose proof (Z.quot_rem' (a * 32768) (Z.pos b)) as Hqr.
  set (q := Z.quot (a * 32768) (Z.pos b)) in *.
  set (r := Z.rem (a * 32768) (Z.pos b)) in *.
  split; intros Ha.
  - assert (0 <= r < Z.pos b) by (apply Z.rem_bound_pos; lia). nia.
  - assert (- Z.pos b < r <= 0) by (apply Z.rem_bound_pos_neg; lia). nia.
Qed.

(** X1. Encoding a non-empty chunk of samples of [-1, 1) with
    [createPcmBlob] and decoding the payload with [decodeAudioData] gives,
    at rate 24000, one sample per input sample, less than 1/32768 away
    from it and never louder: the decoded sample lies between zero and the
    original. *)
Theorem round_trip_truncates_towards_zero samples :
  samples <> [] ->
  Forall (fun x => (-1 <= x)%Q /\ (x < 1)%Q) samples ->
  exists buffer,
    decodeAudioData (data (createPcmBlob samples)) = Some buffer
    /\ sampleRate buffer = PCM_SAMPLE_RATE
    /\ Forall2
         (fun x y =>
            (Qabs (y - x) < 1 # 32768)%Q
            /\ ((0 <= x)%Q -> (0 <= y)%Q /\ (y <= x)%Q)
            /\ ((x <= 0)%Q -> (x <= y)%Q /\ (y <= 0)%Q))
         samples (channelData buffer).
Proof.
  intros Hne Hin. eexists. split; [|split].
  - apply decodeAudioData_createPcmBlob; [exact Hne|].
    apply Forall_map, Forall_forall. intros x _. apply ToInt16_range.
  - reflexivity.
  - cbn [channelData]. clear Hne.
    induction Hin as [|x xs [Hlo Hhi] _ IH]; cbn [map]; constructor.
    + split.
      * apply (ToInt16_scaled x Hlo Hhi).
      * apply (ToInt16_scaled_towards_zero x Hlo Hhi).
    + exact IH.
Qed.

Lemma round_trip_truncates_towards_zero_witness :
  exists buffer,
    decodeAudioData (data (createPcmBlob [(1 # 3)%Q; (-3 # 4)%Q])) = Some buffer
    /\ sampleRate buffer = PCM_SAMPLE_RATE
    /\ Forall2
         (fun x y =>
            (Qabs (y - x) < 1 # 32768)%Q
            /\ ((0 <= x)%Q -> (0 <= y)%Q /\ (y <= x)%Q)
            /\ ((x <= 0)%Q -> (x <= y)%Q /\ (y <= 0)%Q))
         [(1 # 3)%Q; (-3 # 4)%Q] (channelData buffer).
Proof.
  apply (round_trip_truncates_towards_zero [(1 # 3)%Q; (-3 # 4)%Q]).
  - discriminate.
  - repeat constructor; vm_compute; discriminate.
Defined.

(** **** From the payload back to the payload *)

Local Arguments Z.mul : simpl never.
Local Arguments Z.add : simpl never.

Lemma Int16Array_of_bytes_inv vs : forall bytes,
  Forall is_byte bytes ->
  Int16Array_of_bytes bytes = Some vs ->
  Forall (fun v => -32768 <= v <= 32767) vs
  /\ List.length bytes = (2 * List.length vs)%nat
  /\ flat_map int16_bytes vs = bytes.
Proof.
  induction vs as [|v vs IH]; intros [|lo [|hi rest]] Hb; cbn [Int16Array_of_bytes];
    try discriminate.
  - intros _. repeat split. constructor.
  - destruct (Int16Array_of_bytes rest); discriminate.
  - destruct (Int16Array_of_bytes rest) as [vs'|] eqn:E; [|discriminate].
    intros [= Hv Hvs]. subst vs'.
    pose proof (Forall_inv Hb) as Hlo.
    pose proof (Forall_inv (Forall_inv_tail Hb)) as Hhi.
    pose proof (Forall_inv_tail (Forall_inv_tail Hb)) as Hrest.
    destruct (IH rest Hrest E) as (Hr & Hl & Hf).
    unfold is_byte in Hlo, Hhi.
    assert (Hv' : -32768 <= v <= 32767 /\ v mod 65536 = lo + 256 * hi).
    { subst v. destruct (Z.leb_spec 32768 (lo + 256 * hi)); cbv iota.
      - split; [lia|]. symmetry. apply (Z.mod_unique _ _ (-1)); lia.
      - split; [lia|]. apply Z.mod_small. lia. }
    destruct Hv' as [Hrange Hmod].
    split; [constructor; assumption|]. split; [cbn [List.length]; lia|].
    cbn [flat_map]. unfold int16_bytes at 1. rewrite Hmod, Hf.
    replace ((lo + 256 * hi) mod 256) with lo
      by (apply (Z.mod_unique _ _ hi); lia).
    replace ((lo + 256 * hi) / 256) with hi
      by (apply (Z.div_unique _ _ _ lo); lia).
    reflexivity.
Qed.

Lemma Int16Array_of_bytes_even bytes :
  Nat.even (List.length bytes) = true ->
  exists vs, Int16Array_of_bytes bytes = Some vs
             /\ List.length bytes = (2 * List.length vs)%nat.
Proof.
  revert bytes.
  assert (H : forall n bytes, (List.length bytes <= n)%nat ->
                Nat.even (List.length bytes) = true ->
                exists vs, Int16Array_of_bytes bytes = Some vs
                           /\ List.length bytes = (2 * List.length vs)%nat).
  { induction n as [|n IH]; intros [|lo [|hi rest]]; cbn [List.length];
      try discriminate; try lia.
    - intros _ _. exists []. split; reflexivity.
    - intros _ _. exists []. split; reflexivity.
    - intros Hlen Heven.
      destruct (IH rest ltac:(lia) Heven) as (vs & E & Hl).
      cbn [Int16Array_of_bytes]. rewrite E. eexists. split; [reflexivity|].
      cbn [List.length]. lia. }
  intros bytes. apply (H (List.length bytes)). lia.
Qed.

Lemma bytes_of_binary (binary : string) :
  Forall is_byte (map charCodeAt (list_ascii_of_string binary)).
Proof. apply Forall_map, Forall_forall. intros c _. apply charCodeAt_is_byte. Qed.

Lemma map_fromCharCode_charCodeAt (l : list ascii) :
  map fromCharCode (map charCodeAt l) = l.
Proof.
  induction l as [|c l IH]; cbn [map]; [reflexivity|].
  now rewrite fromCharCode_charCodeAt, IH.
Qed.

Lemma decodeAudioData_inv payload buffer :
  decodeAudioData payload = Some buffer ->
  exists binary vs,
    atob payload = Some binary
    /\ Int16Array_of_bytes (map charCodeAt (list_ascii_of_string binary)) = Some vs
    /\ vs <> []
    /\ buffer = {| channelData := map (fun v => (inject_Z v / 32768)%Q) vs;
                   sampleRate := PCM_SAMPLE_RATE |}.
Proof.
  unfold decodeAudioData, createBuffer.
  destruct (atob payload) as [binary|]; [|discriminate].
  destruct (Int16Array_of_bytes _) as [[|v vs]|] eqn:E; try discriminate.
  intros [= <-]. exists binary, (v :: vs). repeat split; [exact E|discriminate].
Qed.

(** A sample on the 16-bit grid is stored as the integer it was decoded
    from. *)
Lemma ToInt16_of_decoded (v : Z) :
  -32768 <= v <= 32767 -> ToInt16 ((inject_Z v / 32768) * 32768)%Q = v.
Proof.
  intros Hv.
  assert (Ht : truncate ((inject_Z v / 32768) * 32768)%Q = v).
  { unfold truncate, Qdiv, Qmult, Qinv, inject_Z. cbn.
    replace (v * 1 * 32768) with (v * 32768) by lia.
    apply Z.quot_mul. lia. }
  rewrite ToInt16_small; rewrite Ht; [reflexivity|exact Hv].
Qed.

(** X2. Whatever payload [decodeAudioData] accepts, encoding the decoded
    samples with [createPcmBlob] gives back the bytes of the payload (in
    canonical base64), and decoding that again gives the same buffer:
    the 16-bit grid is a fixed point of the two directions. *)
Theorem decode_encode_decode payload buffer :
  decodeAudioData payload = Some buffer ->
  option_map btoa (atob payload)
  = Some (data (createPcmBlob (channelData buffer)))
  /\ decodeAudioData (data (createPcmBlob (channelData buffer))) = Some buffer.
Proof.
  intros Hdec.
  destruct (decodeAudioData_inv _ _ Hdec) as (binary & vs & Ha & Hi & Hne & ->).
  destruct (Int16Array_of_bytes_inv _ _ (bytes_of_binary binary) Hi)
    as (Hrange & _ & Hbytes).
  cbn [channelData].
  assert (Hgrid : map (fun x => ToInt16 (x * 32768)%Q)
                    (map (fun v => (inject_Z v / 32768)%Q) vs) = vs).
  { rewrite map_map. clear -Hrange.
    induction Hrange as [|v vs Hv _ IH]; cbn [map]; [reflexivity|].
    now rewrite ToInt16_of_decoded, IH. }
  split.
  - rewrite Ha. cbn [option_map]. unfold createPcmBlob. cbn [data].
    rewrite Hgrid, Hbytes, map_fromCharCode_charCodeAt.
    now rewrite string_of_list_ascii_of_string.
  - rewrite decodeAudioData_createPcmBlob.
    + do 2 f_equal. clear -Hrange.
      induction Hrange as [|v vs Hv _ IH]; cbn [map]; [reflexivity|].
      now rewrite ToInt16_of_decoded, IH.
    + destruct vs; [congruence|discriminate].
    + rewrite Hgrid. exact Hrange.
Qed.

Lemma decode_encode_decode_witness :
  exists buffer,
    decodeAudioData "/38AgA==" = Some buffer
    /\ option_map btoa (atob "/38AgA==")
       = Some (data (createPcmBlob (channelData buffer)))
    /\ decodeAudioData (data (createPcmBlob (channelData buffer))) = Some buffer.
Proof.
  eexists. split; [vm_compute; reflexivity|].
  apply (decode_encode_decode "/38AgA=="). vm_compute. reflexivity.
Defined.

(** X3. [decodeAudioData] accepts a payload exactly when [atob] accepts
    it and the decoded byte string is non-empty and of even length; every
    other payload makes it throw: invalid base64, an odd number of bytes
    (the [Int16Array] view), no byte at all ([createBuffer] of length 0). *)
Theorem decodeAudioData_accepts payload :
  decodeAudioData payload <> None <->
  exists binary,
    atob payload = Some binary
    /\ binary <> EmptyString
    /\ Nat.even (String.length binary) = true.
Proof.
  split.
  - destruct (decodeAudioData payload) as [buffer|] eqn:Hdec; [|congruence].
    intros _.
    destruct (decodeAudioData_inv _ _ Hdec) as (binary & vs & Ha & Hi & Hne & _).
    destruct (Int16Array_of_bytes_inv _ _ (bytes_of_binary binary) Hi)
      as (_ & Hl & _).
    rewrite length_map, length_list_ascii_of_string in Hl.
    exists binary. split; [exact Ha|]. split.
    + intros ->. destruct vs; [congruence|discriminate].
    + rewrite Hl, Nat.even_mul. reflexivity.
  - intros (binary & Ha & Hne & Heven).
    unfold decodeAudioData. rewrite Ha.
    destruct (Int16Array_of_bytes_even
                (map charCodeAt (list_ascii_of_string binary)))
      as (vs & E & Hl).
    { now rewrite length_map, length_list_ascii_of_string. }
    rewrite E. destruct vs as [|v vs]; [|discriminate].
    rewrite length_map, length_list_ascii_of_string in Hl.
    destruct binary; [congruence|discriminate].
Qed.

(** X4. A buffer that [decodeAudioData] returns is at rate 24000, has one
    sample for every two bytes of the payload, each sample in [-1, 1), and
    so plays for (number of bytes) / 48000 seconds, which is more than
    zero. *)
Theorem decodeAudioData_buffer payload buffer :
  decodeAudioData payload = Some buffer ->
  sampleRate buffer = 24000
  /\ Forall (fun y => (-1 <= y)%Q /\ (y < 1)%Q) (channelData buffer)
  /\ (0 < duration buffer)%Q
  /\ exists binary,
       atob payload = Some binary
       /\ String.length binary = (2 * List.length (channelData buffer))%nat
       /\ (duration buffer
           == inject_Z (Z.of_nat (String.length binary)) / 48000)%Q.
Proof.
  intros Hdec.
  destruct (decodeAudioData_inv _ _ Hdec) as (binary & vs & Ha & Hi & Hne & ->).
  destruct (Int16Array_of_bytes_inv _ _ (bytes_of_binary binary) Hi)
    as (Hrange & Hl & _).
  rewrite length_map, length_list_ascii_of_string in Hl.
  cbn [sampleRate channelData]. split; [reflexivity|]. split.
  { apply Forall_map. eapply Forall_impl; [|exact Hrange].
    intros v Hv. apply decoded_sample_range, Hv. }
  split.
  { unfold duration. cbn [channelData sampleRate]. rewrite length_map.
    destruct vs as [|v vs]; [congruence|].
    unfold PCM_SAMPLE_RATE, Qdiv, Qlt. cbn. lia. }
  exists binary. split; [exact Ha|]. rewrite length_map. split; [exact Hl|].
  unfold duration. cbn [channelData sampleRate]. rewrite length_map, Hl.
  unfold PCM_SAMPLE_RATE, Qeq, Qdiv, Qmult, Qinv, inject_Z. cbn. lia.
Qed.

Lemma decodeAudioData_buffer_witness :
  exists buffer,
    decodeAudioData "/38AgA==" = Some buffer
    /\ sampleRate buffer = 24000
    /\ (0 < duration buffer)%Q.
Proof.
  eexists. split; [vm_compute; reflexivity|].
  destruct (decodeAudioData_buffer "/38AgA==" _ eq_refl) as (Hr & _ & Hd & _).
  split; [exact Hr|exact Hd].
Defined.

(** **** The encoder on arbitrary chunks *)

Lemma length_btoa_bytes (l : list Z) :
  List.length (btoa_bytes l) = (4 * ((List.length l + 2) / 3))%nat.
Proof.
  induction l as [| a | a b | a b c r IH] using list_ind3; try reflexivity.
  cbn [btoa_bytes List.length]. rewrite IH.
  replace (S (S (S (List.length r))) + 2)%nat
    with ((List.length r + 2) + 1 * 3)%nat by lia.
  rewrite Nat.div_add by discriminate. lia.
Qed.

(** X5. [createPcmBlob] never fails and never clamps: whatever the
    samples, the payload is base64 text of 4 * ceil(2n / 3) characters
    that [atob] reads back as two bytes per sample, and
    [decodeAudioData] accepts it as n samples of [-1, 1), except for the
    empty chunk, whose payload is the empty string and is refused. *)
Theorem createPcmBlob_payload samples :
  let n := List.length samples in
  String.length (data (createPcmBlob samples)) = (4 * ((2 * n + 2) / 3))%nat
  /\ option_map String.length (atob (data (createPcmBlob samples)))
     = Some (2 * n)%nat
  /\ decodeAudioData (data (createPcmBlob samples))
     = match samples with
       | [] => None
       | _ =>
           Some {| channelData :=
                     map (fun x => (inject_Z (ToInt16 (x * 32768)%Q) / 32768)%Q)
                       samples;
                   sampleRate := PCM_SAMPLE_RATE |}
       end
  /\ Forall (fun y => (-1 <= y)%Q /\ (y < 1)%Q)
       (map (fun x => (inject_Z (ToInt16 (x * 32768)%Q) / 32768)%Q) samples).
Proof.
  intros n. subst n.
  assert (Hlen : List.length
                   (flat_map int16_bytes
                      (map (fun x => ToInt16 (x * 32768)%Q) samples))
                 = (2 * List.length samples)%nat).
  { now rewrite length_flat_map_int16_bytes, length_map. }
  split; [|split; [|split]].
  - unfold createPcmBlob, btoa. cbn [data].
    rewrite length_string_of_list_ascii, length_btoa_bytes, length_map.
    rewrite length_list_ascii_of_string, length_string_of_list_ascii.
    now rewrite length_map, Hlen.
  - unfold createPcmBlob. cbn [data]. rewrite atob_btoa. cbn [option_map].
    now rewrite length_string_of_list_ascii, length_map, Hlen.
  - destruct samples as [|x xs]; [reflexivity|].
    apply decodeAudioData_createPcmBlob; [discriminate|].
    apply Forall_map, Forall_forall. intros y _. apply ToInt16_range.
  - apply Forall_map, Forall_forall. intros x _.
    apply decoded_sample_range, ToInt16_range.
Qed.

Lemma ToInt16_overdriven (x : Q) :
  (1 <= x)%Q -> (x < 3)%Q ->
  ToInt16 (x * 32768)%Q = truncate (x * 32768)%Q - 65536
  /\ Z.abs (truncate (x * 32768)%Q * Z.pos (Qden x) - Qnum x * 32768)
     < Z.pos (Qden x).
Proof.
  intros Hlo Hhi.
  unfold ToInt16, truncate. cbv zeta. destruct x as [a b].
  unfold Qle, Qlt in Hlo, Hhi. cbn in Hlo, Hhi |- *. rewrite Pos.mul_1_r.
  pose proof (Z.quot_rem' (a * 32768) (Z.pos b)) as Hqr.
  assert (Hr : 0 <= Z.rem (a * 32768) (Z.pos b) < Z.pos b)
    by (apply Z.rem_bound_pos; lia).
  set (q := Z.quot (a * 32768) (Z.pos b)) in *.
  set (r := Z.rem (a * 32768) (Z.pos b)) in *.
  assert (Hq : 32768 <= q < 98304) by nia.
  split; [|nia].
  destruct (Z_lt_ge_dec q 65536).
  - rewrite Z.mod_small by lia.
    destruct (Z.leb_spec 32768 q); lia.
  - replace (q mod 65536) with (q - 65536)
      by (apply (Z.mod_unique _ _ 1); lia).
    destruct (Z.leb_spec 32768 (q - 65536)); lia.
Qed.

(** X6. A sample at or above full scale is not clamped. For every x with
    1 <= x < 3 the encoder stores x * 32768 reduced modulo 2^16, so that
    the decoded sample is within 1/32768 of x - 2, and therefore more than
    2 - 1/32768 away from x: full scale comes back as -1. *)
Theorem overdriven_sample_wraps (x : Q) :
  (1 <= x)%Q -> (x < 3)%Q ->
  exists y,
    option_map channelData (decodeAudioData (data (createPcmBlob [x])))
    = Some [y]
    /\ (Qabs (y - (x - 2)) < 1 # 32768)%Q
    /\ (2 - (1 # 32768) < Qabs (y - x))%Q.
Proof.
  intros Hlo Hhi. eexists. split; [|split].
  - rewrite decodeAudioData_createPcmBlob; [reflexivity|discriminate|].
    repeat constructor; apply ToInt16_range.
  - destruct (ToInt16_overdriven x Hlo Hhi) as [-> Herr].
    set (t := truncate (x * 32768)%Q) in *.
    destruct x as [a b]. cbn [Qnum Qden] in Herr.
    apply Qabs_Qlt_condition.
    unfold Qlt, Qdiv, Qminus, Qplus, Qmult, Qopp, Qinv, inject_Z.
    cbn. split; lia.
  - destruct (ToInt16_overdriven x Hlo Hhi) as [-> Herr].
    set (t := truncate (x * 32768)%Q) in *.
    eapply Qlt_le_trans; [|rewrite Qabs_Qminus; apply Qle_Qabs].
    destruct x as [a b]. cbn [Qnum Qden] in Herr.
    unfold Qlt, Qdiv, Qminus, Qplus, Qmult, Qopp, Qinv, inject_Z.
    cbn. lia.
Qed.

Lemma overdriven_sample_wraps_witness :
  exists y,
    option_map channelData
      (decodeAudioData (data (createPcmBlob [(3 # 2)%Q])))
    = Some [y]
    /\ (Qabs (y - ((3 # 2) - 2)) < 1 # 32768)%Q
    /\ (2 - (1 # 32768) < Qabs (y - (3 # 2)))%Q.
Proof.
  apply (overdriven_sample_wraps (3 # 2)%Q); vm_compute; [discriminate|reflexivity].
Defined.

End CodecCoverage.

(* ------------------------------------------------------------------ *)
(** ** Further properties of the component                              *)
(* ------------------------------------------------------------------ *)

Module LiveSessionCoverage.

Import LiveSession LiveSessionTools LiveSessionFacts.

Local Open Scope string_scope.

Local Arguments nth_error : simpl never.
Local Arguments Nat.leb : simpl never.
Local Arguments Nat.ltb : simpl never.
Local Arguments String.append : simpl never.
Local Arguments String.eqb : simpl never.

Section Handlers.

Variable plan : WorkoutPlan.
Variable env : Env.

(** **** What the tool-call handlers write *)

(** What [handleNextStep] appends to the log. *)
Lemma handleNextStep_unfold id s :
  let n := List.length (exercises plan) in
  let next := S (currentStep s) in
  handleNextStep plan id s =
  set_log
    (log s
     ++ (if String.eqb id "manual" then [Haptic [200]] else [])
     ++ (if (n <=? next)%nat then [OnExit] else [])
     ++ (if String.eqb id "manual" then []
         else
           match sessionPromiseRef s with
           | Some session =>
               [SendToolResponse session "nextExercise" id "Moved to next";
                if (next <? n)%nat then
                  match nth_error (exercises plan) next with
                  | Some e => SendText session ("Next up: " ++ name e ++ ".")
                  | None => UnhandledRejection
                  end
                else SendText session "Workout complete!"]
           | None => []
           end))%list
    (set_exited (if (n <=? next)%nat then true else exited s)
       (set_currentStep (if (n <=? next)%nat then currentStep s else next) s)).
Proof.
  intros n next. subst n next. unfold handleNextStep.
  destruct (String.eqb id "manual");
    destruct (Nat.leb (List.length (exercises plan)) (S (currentStep s)));
    unfold with_session, triggerHaptic, onExit; cbn;
    destruct (sessionPromiseRef s) as [session|] eqn:Hs; cbn;
    try destruct (Nat.ltb (S (currentStep s)) (List.length (exercises plan)));
    try destruct (nth_error (exercises plan) (S (currentStep s)));
    apply State_ext; cbn; rewrite <- ?app_assoc; cbn; try reflexivity;
    rewrite ?app_nil_r; reflexivity.
Qed.

(** What one function call does, branch by branch. *)
Lemma handleFunctionCall_unfold now fc s :
  handleFunctionCall plan now fc s =
  if String.eqb (fc_name fc) "nextExercise" then
    handleNextStep plan (fc_id fc) (emit (Haptic [200]) s)
  else if String.eqb (fc_name fc) "updateFormFeedback" then
    set_log
      (log s
       ++ (if String.eqb (arg_status (fc_args fc)) "incorrect"
           then [Haptic [100; 50; 100]] else [])
       ++ match sessionPromiseRef s with
          | Some session =>
              [SendToolResponse session "updateFormFeedback" (fc_id fc)
                 "Overlay updated"]
          | None => []
          end)%list
      (set_overlayStateRef
         {| status := arg_status (fc_args fc);
            feedback := arg_feedback (fc_args fc);
            focusArea := arg_focusArea (fc_args fc);
            lastUpdated := now |} s)
  else s.
Proof.
  unfold handleFunctionCall, triggerHaptic.
  destruct (String.eqb (fc_name fc) "nextExercise"); [reflexivity|].
  destruct (String.eqb (fc_name fc) "updateFormFeedback"); [|reflexivity].
  unfold with_session.
  destruct (String.eqb (arg_status (fc_args fc)) "incorrect"); cbn;
    destruct (sessionPromiseRef s); cbn;
    apply State_ext; cbn; rewrite <- ?app_assoc, ?app_nil_r; reflexivity.
Qed.

Lemma tool_responses_app l1 l2 :
  tool_responses (l1 ++ l2) = (tool_responses l1 ++ tool_responses l2)%list.
Proof. apply flat_map_app. Qed.

(** The acknowledgement of one function call, with a session attached. *)
Lemma handleFunctionCall_acknowledged now fc s session :
  sessionPromiseRef s = Some session ->
  exists es,
    log (handleFunctionCall plan now fc s) = (log s ++ es)%list
    /\ sessionPromiseRef (handleFunctionCall plan now fc s) = Some session
    /\ tool_responses es =
         if String.eqb (fc_name fc) "nextExercise" then
           if String.eqb (fc_id fc) "manual" then []
           else [("nextExercise", fc_id fc)]
         else if String.eqb (fc_name fc) "updateFormFeedback" then
           [("updateFormFeedback", fc_id fc)]
         else [].
Proof.
  intros Hs. rewrite handleFunctionCall_unfold.
  destruct (String.eqb (fc_name fc) "nextExercise").
  - rewrite handleNextStep_unfold. cbn. rewrite Hs.
    eexists. split; [rewrite <- app_assoc; reflexivity|]. split; [reflexivity|].
    destruct (String.eqb (fc_id fc) "manual");
      destruct (Nat.leb _ _); cbn; try reflexivity;
      destruct (Nat.ltb _ _); try reflexivity;
      destruct (nth_error _ _); reflexivity.
  - destruct (String.eqb (fc_name fc) "updateFormFeedback").
    + cbn. rewrite Hs. eexists. split; [reflexivity|]. split; [reflexivity|].
      destruct (String.eqb (arg_status (fc_args fc)) "incorrect"); reflexivity.
    + exists []. rewrite app_nil_r. repeat split. exact Hs.
Qed.

Lemma acknowledged_app fname l1 l2 :
  acknowledged fname (l1 ++ l2)
  = (acknowledged fname l1 ++ acknowledged fname l2)%list.
Proof.
  unfold acknowledged. now rewrite tool_responses_app, filter_app, map_app.
Qed.

(** One function call, tool by tool. *)
Lemma handleFunctionCall_acknowledged_by_tool now fc s session :
  sessionPromiseRef s = Some session ->
  exists es,
    log (handleFunctionCall plan now fc s) = (log s ++ es)%list
    /\ sessionPromiseRef (handleFunctionCall plan now fc s) = Some session
    /\ acknowledged "updateFormFeedback" es = called "updateFormFeedback" [fc]
    /\ acknowledged "nextExercise" es
       = filter (fun id => negb (String.eqb id "manual"))
           (called "nextExercise" [fc])
    /\ Forall (fun r => fst r = "updateFormFeedback" \/ fst r = "nextExercise")
         (tool_responses es).
Proof.
  intros Hs.
  destruct (handleFunctionCall_acknowledged now fc s session Hs)
    as (es & Hlog & Hs' & Hes).
  exists es. split; [exact Hlog|]. split; [exact Hs'|].
  unfold acknowledged, called. rewrite Hes. cbn [filter map].
  destruct (String.eqb_spec (fc_name fc) "nextExercise") as [E|E].
  - rewrite E. change (String.eqb "nextExercise" "updateFormFeedback") with false.
    cbv iota. cbn [map filter].
    destruct (String.eqb (fc_id fc) "manual"); cbn; repeat split;
      try reflexivity; repeat (apply Forall_cons || apply Forall_nil);
      cbn; auto.
  - destruct (String.eqb_spec (fc_name fc) "updateFormFeedback") as [E'|E'];
      cbn; repeat split; try reflexivity;
      repeat (apply Forall_cons || apply Forall_nil); cbn; auto.
Qed.

(** X7. With a session attached, the function calls of one tool call are
    acknowledged tool by tool: the responses named "updateFormFeedback"
    carry, in order, the ids of the calls of that name; the responses named
    "nextExercise" carry, in order, the ids of the calls of that name,
    except the ids equal to the string "manual" (the id the next button
    uses), which get none; and there is no response under any other name,
    so that a call of any other name gets none.  How the responses of the
    two tools interleave is left open: the response to [nextExercise] is
    sent from the state updater, which may run after the handler. *)
Theorem tool_calls_acknowledged now msg s session functionCalls :
  toolCall msg = Some functionCalls ->
  sessionPromiseRef s = Some session ->
  let es := emitted s (handleToolCall plan now msg s) in
  acknowledged "updateFormFeedback" es
  = called "updateFormFeedback" functionCalls
  /\ acknowledged "nextExercise" es
     = filter (fun id => negb (String.eqb id "manual"))
         (called "nextExercise" functionCalls)
  /\ Forall (fun r => fst r = "updateFormFeedback" \/ fst r = "nextExercise")
       (tool_responses es).
Proof.
  intros Hmsg Hs. unfold handleToolCall. rewrite Hmsg.
  enough (H : exists es,
             log (fold_left (fun s fc => handleFunctionCall plan now fc s)
                    functionCalls s) = (log s ++ es)%list
             /\ acknowledged "updateFormFeedback" es
                = called "updateFormFeedback" functionCalls
             /\ acknowledged "nextExercise" es
                = filter (fun id => negb (String.eqb id "manual"))
                    (called "nextExercise" functionCalls)
             /\ Forall
                  (fun r => fst r = "updateFormFeedback" \/ fst r = "nextExercise")
                  (tool_responses es)).
  { destruct H as (es & Hlog & Hes). cbv zeta.
    now rewrite (emitted_app _ _ es). }
  clear Hmsg. revert s Hs.
  induction functionCalls as [|fc fcs IH]; intros s Hs; cbn [fold_left].
  - exists []. rewrite app_nil_r. repeat split. constructor.
  - destruct (handleFunctionCall_acknowledged_by_tool now fc s session Hs)
      as (es1 & Hlog1 & Hs1 & Hu1 & Hn1 & Hf1).
    destruct (IH _ Hs1) as (es2 & Hlog2 & Hu2 & Hn2 & Hf2).
    exists (es1 ++ es2)%list.
    assert (Hcalled : forall fname,
               called fname (fc :: fcs)
               = (called fname [fc] ++ called fname fcs)%list).
    { intros fname. unfold called. cbn [filter].
      destruct (String.eqb (fc_name fc) fname); reflexivity. }
    split; [now rewrite Hlog2, Hlog1, app_assoc|].
    rewrite !acknowledged_app, !Hcalled, filter_app, tool_responses_app.
    rewrite Hu1, Hu2, Hn1, Hn2. repeat split.
    apply Forall_app. split; assumption.
Qed.

(** **** What the event handlers leave alone

    The handlers write the log, the exercise index, the exit flag, the
    overlay state, [aiSpeaking], the playback cursor, the microphone flag
    and the connection status; whatever does not depend on these is the
    same after an event as before. *)

Section Frame.

Context {A : Type} (proj : State -> A).
Hypothesis proj_log : forall v s, proj (set_log v s) = proj s.
Hypothesis proj_currentStep : forall v s, proj (set_currentStep v s) = proj s.
Hypothesis proj_exited : forall v s, proj (set_exited v s) = proj s.
Hypothesis proj_overlay : forall v s, proj (set_overlayStateRef v s) = proj s.
Hypothesis proj_aiSpeaking : forall v s, proj (set_aiSpeaking v s) = proj s.
Hypothesis proj_cursor : forall v s, proj (set_nextStartTimeRef v s) = proj s.
Hypothesis proj_micActive : forall v s, proj (set_micActive v s) = proj s.
Hypothesis proj_status : forall v s, proj (set_connectionStatus v s) = proj s.

Lemma frame_emit e s : proj (emit e s) = proj s.
Proof. unfold emit. apply proj_log. Qed.

Lemma frame_handleNextStep id s : proj (handleNextStep plan id s) = proj s.
Proof.
  rewrite handleNextStep_unfold. cbv zeta.
  now rewrite proj_log, proj_exited, proj_currentStep.
Qed.

Lemma frame_handleToolCall now msg s :
  proj (handleToolCall plan now msg s) = proj s.
Proof.
  unfold handleToolCall. destruct (toolCall msg) as [fcs|]; [|reflexivity].
  revert s. induction fcs as [|fc fcs IH]; intros s; cbn [fold_left];
    [reflexivity|].
  rewrite IH, handleFunctionCall_unfold.
  destruct (String.eqb (fc_name fc) "nextExercise");
    [now rewrite frame_handleNextStep, frame_emit|].
  destruct (String.eqb (fc_name fc) "updateFormFeedback"); [|reflexivity].
  now rewrite proj_log, proj_overlay.
Qed.

Lemma frame_handle ev s : proj (handle plan ev s) = proj s.
Proof.
  destruct ev; cbn [handle].
  - apply proj_micActive.
  - apply frame_handleNextStep.
  - unfold onExit. now rewrite proj_exited, frame_emit.
  - unfold onopen, with_session.
    destruct (sessionPromiseRef (set_connectionStatus connected s));
      [|apply proj_status].
    destruct (nth_error _ session) as [se|]; [|apply proj_status].
    destruct (nth_error (exercises plan) (session_step se));
      now rewrite frame_emit, proj_status.
  - unfold onmessage, triggerHaptic.
    destruct (truthy (audioData msg)) as [payload|];
      [destruct (audioContextRef s) as [ctx|]|];
      try apply frame_handleToolCall.
    destruct (Codec.decodeAudioData payload); cbv zeta.
    + now rewrite frame_handleToolCall, proj_cursor, !frame_emit,
        proj_aiSpeaking.
    + now rewrite !frame_emit, proj_aiSpeaking.
  - apply proj_status.
  - apply frame_emit.
  - unfold deliver_audio. generalize (contexts s) as cs. intros cs.
    revert s. induction cs as [|c cs IH]; intros s; cbn [fold_left];
      [reflexivity|].
    rewrite IH. unfold onaudioprocess.
    destruct (ctx_closed c), (ctx_processor c) as [[|]|],
      (sessionPromiseRef s); try reflexivity.
    apply frame_emit.
Qed.

End Frame.

Lemma poseInstanceRef_handle ev s :
  poseInstanceRef (handle plan ev s) = poseInstanceRef s.
Proof. apply (frame_handle poseInstanceRef); reflexivity. Qed.



Lemma permissionDenied_handle ev s :
  permissionDenied (handle plan ev s) = permissionDenied s.
Proof. apply (frame_handle permissionDenied); reflexivity. Qed.

(** **** The overlay state over a run *)

Lemma overlay_cleanup s : overlayStateRef (cleanup true s) = overlayStateRef s.
Proof. rewrite cleanup_unfold. reflexivity. Qed.

Lemma overlay_connectToLive cl s :
  overlayStateRef (connectToLive env cl s) = overlayStateRef s.
Proof.
  unfold connectToLive, connectToLive_try, connection_failed.
  destruct (cl_connectionStatus cl), (hasApiKey env), (micGranted env);
    reflexivity.
Qed.

Lemma overlay_startCamera cl s :
  overlayStateRef (startCamera env cl s) = overlayStateRef s.
Proof.
  unfold startCamera. destruct (cameraGranted env); [|reflexivity].
  rewrite overlay_connectToLive. reflexivity.
Qed.

Lemma overlay_rerender s : overlayStateRef (rerender env s) = overlayStateRef s.
Proof.
  unfold rerender. destruct (connectToLiveMemo s) as [cl|]; [|reflexivity].
  destruct (same_deps cl s); [reflexivity|].
  rewrite overlay_startCamera, overlay_cleanup. reflexivity.
Qed.

Lemma overlay_deliver_audio inputData s :
  overlayStateRef (deliver_audio inputData s) = overlayStateRef s.
Proof.
  unfold deliver_audio. generalize (contexts s) as cs. intros cs. revert s.
  induction cs as [|c cs IH]; intros s; cbn [fold_left]; [reflexivity|].
  rewrite IH. destruct (ctx_closed c), (ctx_processor c) as [[|]|];
    try reflexivity.
  unfold onaudioprocess. destruct (sessionPromiseRef s); reflexivity.
Qed.

Lemma overlay_onopen session s :
  overlayStateRef (onopen plan session s) = overlayStateRef s.
Proof.
  unfold onopen, with_session. cbn.
  destruct (sessionPromiseRef s); [|reflexivity]. cbn.
  destruct (nth_error (sessions s) session) as [se|]; [|reflexivity].
  destruct (nth_error (exercises plan) (session_step se)); reflexivity.
Qed.

Lemma overlay_handleFunctionCall now0 now fc s :
  conforms fc ->
  overlay_declared now0 (overlayStateRef s) ->
  overlay_declared now0 (overlayStateRef (handleFunctionCall plan now fc s)).
Proof.
  intros Hfc Ho. rewrite handleFunctionCall_unfold.
  destruct (String.eqb (fc_name fc) "nextExercise").
  - rewrite handleNextStep_unfold. exact Ho.
  - destruct (String.eqb_spec (fc_name fc) "updateFormFeedback") as [E|_];
      [|exact Ho].
    right. exact (Hfc E).
Qed.

Lemma overlay_handleToolCall now0 now msg s :
  match toolCall msg with
  | Some functionCalls => Forall conforms functionCalls
  | None => True
  end ->
  overlay_declared now0 (overlayStateRef s) ->
  overlay_declared now0 (overlayStateRef (handleToolCall plan now msg s)).
Proof.
  unfold handleToolCall. destruct (toolCall msg) as [fcs|]; [|auto].
  intros Hfcs. revert s.
  induction Hfcs as [|fc fcs Hfc _ IH]; intros s Ho; cbn [fold_left];
    [exact Ho|].
  apply IH, overlay_handleFunctionCall; assumption.
Qed.

Lemma overlay_handle now0 ev s :
  conforming ev ->
  overlay_declared now0 (overlayStateRef s) ->
  overlay_declared now0 (overlayStateRef (handle plan ev s)).
Proof.
  intros Hev Ho. destruct ev; cbn [handle]; try exact Ho.
  - rewrite handleNextStep_unfold. exact Ho.
  - rewrite overlay_onopen. exact Ho.
  - cbn [conforming] in Hev. unfold onmessage.
    destruct (truthy (audioData msg)) as [payload|];
      [destruct (audioContextRef s) as [ctx|]|];
      try (apply overlay_handleToolCall; assumption).
    destruct (Codec.decodeAudioData payload); [|exact Ho].
    apply overlay_handleToolCall; assumption.
  - rewrite overlay_deliver_audio. exact Ho.
Qed.

Lemma overlay_step now0 ev s :
  conforming ev ->
  overlay_declared now0 (overlayStateRef s) ->
  overlay_declared now0 (overlayStateRef (step plan env s ev)).
Proof.
  intros Hev Ho. unfold step. destruct (exited s); [exact Ho|].
  destruct (exited (handle plan ev s)); [|rewrite overlay_rerender];
    apply overlay_handle; assumption.
Qed.

Lemma overlay_mount now : overlayStateRef (mount env now) = overlayStateRef (initial now).
Proof.
  unfold mount. rewrite overlay_startCamera. unfold initPose.
  destruct (poseAvailable env); reflexivity.
Qed.

(** X8. Over any run of the component in which every [updateFormFeedback]
    call keeps to the enumerations of the tool declaration, the overlay
    state is well typed: its status is one of the four values of
    [FormStatus] and its focus area one of the six of [FocusArea].  The
    status is "scanning", which the declaration does not offer, only as
    long as the overlay state is the initial one. *)
Theorem overlay_stays_well_typed now evs :
  Forall conforming evs ->
  let o := overlayStateRef (run plan env evs (mount env now)) in
  In (status o) FormStatus
  /\ In (focusArea o) FocusArea
  /\ (status o = "scanning" -> o = overlayStateRef (initial now)).
Proof.
  intros Hevs o.
  assert (Ho : overlay_declared now o).
  { subst o. induction evs as [|ev evs IH] using rev_ind.
    - left. apply overlay_mount.
    - rewrite run_snoc. apply Forall_app in Hevs. destruct Hevs as [Hevs Hev].
      apply overlay_step; [exact (Forall_inv Hev)|exact (IH Hevs)]. }
  destruct Ho as [->|[Hst Hfa]].
  - cbn. repeat split; auto 10.
  - repeat split.
    + unfold declared_status, FormStatus in *. cbn in Hst |- *. tauto.
    + exact Hfa.
    + intros E. rewrite E in Hst. cbn in Hst.
      repeat destruct Hst as [Hst|Hst]; try discriminate; contradiction.
Qed.

(** **** How far the exercise index moves *)

Lemma exited_cleanup s : exited (cleanup true s) = exited s.
Proof. rewrite cleanup_unfold. reflexivity. Qed.

Lemma exited_connectToLive cl s : exited (connectToLive env cl s) = exited s.
Proof.
  unfold connectToLive, connectToLive_try, connection_failed.
  destruct (cl_connectionStatus cl), (hasApiKey env), (micGranted env);
    reflexivity.
Qed.

Lemma exited_startCamera cl s : exited (startCamera env cl s) = exited s.
Proof.
  unfold startCamera. destruct (cameraGranted env); [|reflexivity].
  rewrite exited_connectToLive. reflexivity.
Qed.

Lemma exited_rerender s : exited (rerender env s) = exited s.
Proof.
  unfold rerender. destruct (connectToLiveMemo s) as [cl|]; [|reflexivity].
  destruct (same_deps cl s); [reflexivity|].
  rewrite exited_startCamera, exited_cleanup. reflexivity.
Qed.

Lemma exited_mount now : exited (mount env now) = false.
Proof.
  unfold mount. rewrite exited_startCamera. unfold initPose.
  destruct (poseAvailable env); reflexivity.
Qed.

Lemma currentStep_handleNextStep id s :
  (currentStep s <= currentStep (handleNextStep plan id s) <= S (currentStep s))%nat.
Proof.
  rewrite handleNextStep_unfold. cbn.
  destruct (Nat.leb _ _); lia.
Qed.

Lemma currentStep_handleFunctionCall now fc s :
  (currentStep s <= currentStep (handleFunctionCall plan now fc s)
   <= currentStep s
      + (if String.eqb (fc_name fc) "nextExercise" then 1 else 0))%nat.
Proof.
  rewrite handleFunctionCall_unfold.
  destruct (String.eqb (fc_name fc) "nextExercise").
  - pose proof (currentStep_handleNextStep (fc_id fc) (emit (Haptic [200]) s)) as H.
    cbn in H |- *. lia.
  - destruct (String.eqb (fc_name fc) "updateFormFeedback"); cbn; lia.
Qed.

Lemma currentStep_handleToolCall now msg s :
  (currentStep s <= currentStep (handleToolCall plan now msg s)
   <= currentStep s + advance_requests (Message msg 0 0))%nat.
Proof.
  unfold handleToolCall. cbn [advance_requests].
  destruct (toolCall msg) as [fcs|]; [|lia].
  revert s. induction fcs as [|fc fcs IH]; intros s; cbn [fold_left filter];
    [cbn; lia|].
  specialize (IH (handleFunctionCall plan now fc s)).
  pose proof (currentStep_handleFunctionCall now fc s) as H.
  destruct (String.eqb (fc_name fc) "nextExercise"); cbn [List.length]; lia.
Qed.

Lemma currentStep_onopen session s :
  currentStep (onopen plan session s) = currentStep s.
Proof.
  unfold onopen, with_session. cbn.
  destruct (sessionPromiseRef s); [|reflexivity]. cbn.
  destruct (nth_error (sessions s) session) as [se|]; [|reflexivity].
  destruct (nth_error (exercises plan) (session_step se)); reflexivity.
Qed.

Lemma currentStep_handle ev s :
  (currentStep s <= currentStep (handle plan ev s)
   <= currentStep s + advance_requests ev)%nat.
Proof.
  destruct ev; cbn [handle advance_requests]; try (cbn; lia).
  - pose proof (currentStep_handleNextStep "manual" s). lia.
  - rewrite currentStep_onopen. lia.
  - unfold onmessage.
    pose proof (currentStep_handleToolCall now msg s) as H.
    cbn [advance_requests] in H.
    destruct (truthy (audioData msg)) as [payload|];
      [destruct (audioContextRef s) as [ctx|]|]; try exact H.
    destruct (Codec.decodeAudioData payload); [|cbn; lia].
    match goal with
    | |- context [handleToolCall plan now msg ?x] =>
        pose proof (currentStep_handleToolCall now msg x) as H'
    end.
    cbn [advance_requests] in H'. exact H'.
  - rewrite currentStep_deliver_audio. lia.
Qed.

Lemma currentStep_step ev s :
  (currentStep s <= currentStep (step plan env s ev)
   <= currentStep s + advance_requests ev)%nat.
Proof.
  unfold step. destruct (exited s); [lia|].
  destruct (exited (handle plan ev s));
    [|rewrite currentStep_rerender]; apply currentStep_handle.
Qed.

(** X9. The exercise index only moves forward, and by at most one per
    advance that was asked for: over any run, from any state, it ends
    between where it started and that plus the number of presses of the
    next button and of [nextExercise] calls received.  No event takes the
    coach back to an earlier exercise or past one that was not reached. *)
Theorem currentStep_moves_forward evs s :
  (currentStep s <= currentStep (run plan env evs s)
   <= currentStep s + list_sum (map advance_requests evs))%nat.
Proof.
  induction evs as [|ev evs IH] using rev_ind; [cbn; lia|].
  rewrite run_snoc, map_app, list_sum_app.
  change (list_sum (map advance_requests [ev]))
    with (advance_requests ev + 0)%nat.
  pose proof (currentStep_step ev (run plan env evs s)). lia.
Qed.

(** **** What a render writes to the log *)

Lemma housekeeping_app l1 l2 :
  forallb is_housekeeping l1 = true -> forallb is_housekeeping l2 = true ->
  forallb is_housekeeping (l1 ++ l2) = true.
Proof. intros H1 H2. rewrite forallb_app, H1, H2. reflexivity. Qed.

Lemma housekeeping_quiet es :
  forallb is_housekeeping es = true ->
  filter is_exit es = [] /\ outbound es = [].
Proof.
  induction es as [|e es IH]; cbn; [auto|].
  intros H. apply andb_prop in H. destruct H as [He Hes].
  destruct (IH Hes) as [IH1 IH2]. unfold outbound in IH2.
  destruct e; try discriminate He; cbn; auto.
Qed.

Lemma log_cleanup s :
  exists es, log (cleanup true s) = (log s ++ es)%list
             /\ forallb is_housekeeping es = true.
Proof.
  rewrite cleanup_unfold. cbn. eexists. split; [reflexivity|].
  destruct (videoSrcObject s), (audioContextRef s), (inputAudioContextRef s),
    (poseInstanceRef s); reflexivity.
Qed.

Lemma log_connectToLive cl s :
  exists es, log (connectToLive env cl s) = (log s ++ es)%list
             /\ forallb is_housekeeping es = true.
Proof.
  unfold connectToLive, connectToLive_try, connection_failed.
  destruct (cl_connectionStatus cl), (hasApiKey env), (micGranted env); cbn;
    first [ exists []; rewrite app_nil_r; split; reflexivity
          | eexists; split; reflexivity ].
Qed.

Lemma log_startCamera cl s :
  exists es, log (startCamera env cl s) = (log s ++ es)%list
             /\ forallb is_housekeeping es = true.
Proof.
  unfold startCamera. destruct (cameraGranted env).
  - destruct (log_connectToLive cl
                (set_videoSrcObject (Some (List.length (streams s)))
                   (set_streams (streams s ++ [false]) s)))
      as (es & Hlog & Hes).
    exists es. split; [exact Hlog|exact Hes].
  - eexists. split; reflexivity.
Qed.

Lemma log_rerender s :
  exists es, log (rerender env s) = (log s ++ es)%list
             /\ forallb is_housekeeping es = true.
Proof.
  unfold rerender. destruct (connectToLiveMemo s) as [cl|];
    [|exists []; rewrite app_nil_r; split; reflexivity].
  destruct (same_deps cl s);
    [exists []; rewrite app_nil_r; split; reflexivity|].
  destruct (log_startCamera (capture s)
              (cleanup true (set_connectToLiveMemo (Some (capture s)) s)))
    as (es2 & Hlog2 & Hes2).
  destruct (log_cleanup (set_connectToLiveMemo (Some (capture s)) s))
    as (es1 & Hlog1 & Hes1).
  exists (es1 ++ es2)%list. split.
  - rewrite Hlog2, Hlog1, app_assoc. reflexivity.
  - apply housekeeping_app; assumption.
Qed.

Lemma log_mount now :
  forallb is_housekeeping (log (mount env now)) = true.
Proof.
  unfold mount.
  destruct (log_startCamera (capture (initial now))
              (initPose env
                 (set_connectToLiveMemo (Some (capture (initial now)))
                    (initial now)))) as (es & Hlog & Hes).
  rewrite Hlog. unfold initPose. destruct (poseAvailable env); exact Hes.
Qed.

(** One press of the next button on a component that is still there. *)
Lemma step_ManualNext s :
  exited s = false ->
  let n := List.length (exercises plan) in
  let s' := step plan env s ManualNext in
  currentStep s' = (if (n <=? S (currentStep s))%nat
                    then currentStep s else S (currentStep s))
  /\ exited s' = (n <=? S (currentStep s))%nat
  /\ List.length (filter is_exit (log s'))
     = (List.length (filter is_exit (log s))
        + if (n <=? S (currentStep s))%nat then 1 else 0)%nat.
Proof.
  intros Hex n s'. subst s' n. unfold step. rewrite Hex. cbn [handle].
  rewrite handleNextStep_unfold. cbn [exited set_log set_exited].
  change (String.eqb "manual" "manual") with true. cbv iota.
  destruct (Nat.leb (List.length (exercises plan)) (S (currentStep s))).
  - cbn. rewrite filter_app, length_app. cbn. repeat split.
  - rewrite Hex, currentStep_rerender, exited_rerender.
    match goal with
    | |- context [rerender env ?x] =>
        destruct (log_rerender x) as (es & Hlog & Hes)
    end.
    rewrite Hlog. cbn. split; [reflexivity|]. split; [reflexivity|].
    destruct (housekeeping_quiet es Hes) as [Hq _].
    rewrite !filter_app, Hq, !length_app. cbn. lia.
Qed.

(** X10. Pressing the next button k times on a freshly mounted component
    of a plan of n >= 1 exercises leaves the index at min(k, n - 1), and
    the component has called [onExit] when k >= n, once, and not
    otherwise: the n-th press ends the workout and the presses after it
    reach nothing. *)
Theorem next_button_presses now k :
  exercises plan <> [] ->
  let n := List.length (exercises plan) in
  let s := run plan env (repeat ManualNext k) (mount env now) in
  currentStep s = Nat.min k (n - 1)
  /\ exited s = (n <=? k)%nat
  /\ List.length (filter is_exit (log s)) = (if (n <=? k)%nat then 1 else 0)%nat.
Proof.
  intros Hne n. assert (Hn : (1 <= n)%nat).
  { subst n. destruct (exercises plan); [congruence|cbn; lia]. }
  induction k as [|k IH]; intros s; subst s.
  - cbn [repeat run fold_left]. rewrite currentStep_mount, exited_mount.
    destruct (Nat.leb_spec n 0); [lia|]. repeat split.
    destruct (housekeeping_quiet _ (log_mount now)) as [-> _]. reflexivity.
  - replace (repeat ManualNext (S k)) with (repeat ManualNext k ++ [ManualNext])%list
      by (symmetry; apply (repeat_cons k ManualNext)).
    rewrite run_snoc. cbv zeta in IH. destruct IH as (Hcs & Hex & Hlog).
    set (s := run plan env (repeat ManualNext k) (mount env now)) in *.
    destruct (Nat.leb_spec n k) as [Hle|Hlt].
    + rewrite exited_step by exact Hex.
      destruct (Nat.leb_spec n (S k)); [|lia].
      repeat split; [lia|exact Hex|exact Hlog].
    + destruct (step_ManualNext s Hex) as (Hcs' & Hex' & Hlog').
      fold n in Hcs', Hex', Hlog'.
      rewrite Hcs', Hex', Hlog', Hlog, Hcs.
      replace (Nat.min k (n - 1)) with k by lia.
      destruct (Nat.leb_spec n (S k)); repeat split; lia.
Qed.

(** **** Without a session nothing goes out *)

Lemma outbound_app l1 l2 :
  outbound (l1 ++ l2) = (outbound l1 ++ outbound l2)%list.
Proof. apply filter_app. Qed.

Lemma handleFunctionCall_without_session now fc s :
  sessionPromiseRef s = None ->
  sessionPromiseRef (handleFunctionCall plan now fc s) = None
  /\ exists es, log (handleFunctionCall plan now fc s) = (log s ++ es)%list
                /\ outbound es = [].
Proof.
  intros Hs. rewrite handleFunctionCall_unfold.
  destruct (String.eqb (fc_name fc) "nextExercise").
  - rewrite handleNextStep_unfold. cbn. rewrite Hs. split; [reflexivity|].
    eexists. split; [rewrite <- app_assoc; reflexivity|].
    destruct (String.eqb (fc_id fc) "manual"), (Nat.leb _ _); reflexivity.
  - destruct (String.eqb (fc_name fc) "updateFormFeedback").
    + cbn. rewrite Hs. split; [reflexivity|].
      eexists. split; [reflexivity|].
      destruct (String.eqb (arg_status (fc_args fc)) "incorrect"); reflexivity.
    + split; [exact Hs|]. exists []. now rewrite app_nil_r.
Qed.

Lemma handleToolCall_without_session now msg s :
  sessionPromiseRef s = None ->
  sessionPromiseRef (handleToolCall plan now msg s) = None
  /\ exists es, log (handleToolCall plan now msg s) = (log s ++ es)%list
                /\ outbound es = [].
Proof.
  unfold handleToolCall. destruct (toolCall msg) as [fcs|].
  2:{ intros Hs. split; [exact Hs|]. exists []. now rewrite app_nil_r. }
  revert s. induction fcs as [|fc fcs IH]; intros s Hs; cbn [fold_left].
  - split; [exact Hs|]. exists []. now rewrite app_nil_r.
  - destruct (handleFunctionCall_without_session now fc s Hs)
      as (Hs1 & es1 & Hlog1 & Hes1).
    destruct (IH _ Hs1) as (Hs2 & es2 & Hlog2 & Hes2).
    split; [exact Hs2|]. exists (es1 ++ es2)%list. split.
    + now rewrite Hlog2, Hlog1, app_assoc.
    + now rewrite outbound_app, Hes1, Hes2.
Qed.

Lemma deliver_audio_without_session inputData s :
  sessionPromiseRef s = None -> deliver_audio inputData s = s.
Proof.
  intros Hs. unfold deliver_audio. generalize (contexts s) as cs.
  induction cs as [|c cs IH]; cbn [fold_left]; [reflexivity|].
  replace (match ctx_closed c with
           | true => s
           | false =>
               match ctx_processor c with
               | Some micActive => onaudioprocess micActive inputData s
               | None => s
               end
           end) with s; [exact IH|].
  unfold onaudioprocess. rewrite Hs.
  destruct (ctx_closed c), (ctx_processor c) as [[|]|]; reflexivity.
Qed.

Lemma handle_without_session ev s :
  sessionPromiseRef s = None ->
  sessionPromiseRef (handle plan ev s) = None
  /\ exists es, log (handle plan ev s) = (log s ++ es)%list
                /\ outbound es = [].
Proof.
  intros Hs. destruct ev; cbn [handle].
  - split; [exact Hs|]. exists []. cbn. now rewrite app_nil_r.
  - rewrite handleNextStep_unfold. cbn. split; [exact Hs|].
    eexists. split; [reflexivity|].
    change (String.eqb "manual" "manual") with true. cbv iota.
    destruct (Nat.leb _ _); reflexivity.
  - split; [exact Hs|]. exists [OnExit]. split; reflexivity.
  - unfold onopen, with_session. cbn. rewrite Hs. cbn. split; [exact Hs|].
    exists []. now rewrite app_nil_r.
  - unfold onmessage.
    destruct (truthy (audioData msg)) as [payload|];
      [destruct (audioContextRef s) as [ctx|]|];
      try (apply handleToolCall_without_session; exact Hs).
    destruct (Codec.decodeAudioData payload) as [buffer|].
    + match goal with
      | |- context [handleToolCall plan now msg ?x] =>
          destruct (handleToolCall_without_session now msg x Hs)
            as (Hs' & es & Hlog & Hes)
      end.
      split; [exact Hs'|]. rewrite Hlog. cbn.
      eexists. split; [rewrite <- !app_assoc; reflexivity|].
      cbn. exact Hes.
    + cbn. split; [exact Hs|]. eexists.
      split; [rewrite <- app_assoc; reflexivity|reflexivity].
  - split; [exact Hs|]. exists []. cbn. now rewrite app_nil_r.
  - split; [exact Hs|]. eexists. split; reflexivity.
  - rewrite deliver_audio_without_session by exact Hs.
    split; [exact Hs|]. exists []. now rewrite app_nil_r.
Qed.

Lemma startCamera_refused cl s :
  cameraGranted env && hasApiKey env && micGranted env = false ->
  sessions (startCamera env cl s) = sessions s
  /\ sessionPromiseRef (startCamera env cl s) = sessionPromiseRef s.
Proof.
  unfold startCamera, connectToLive, connectToLive_try, connection_failed.
  destruct (cameraGranted env), (hasApiKey env), (micGranted env),
    (cl_connectionStatus cl); cbn; intros H; try discriminate H;
    split; reflexivity.
Qed.

Lemma sessionPromiseRef_cleanup s :
  sessionPromiseRef (cleanup true s) = sessionPromiseRef s.
Proof. rewrite cleanup_unfold. reflexivity. Qed.

Lemma rerender_refused s :
  cameraGranted env && hasApiKey env && micGranted env = false ->
  sessions (rerender env s) = sessions s
  /\ sessionPromiseRef (rerender env s) = sessionPromiseRef s.
Proof.
  intros H. unfold rerender.
  destruct (connectToLiveMemo s) as [cl|]; [|split; reflexivity].
  destruct (same_deps cl s); [split; reflexivity|].
  destruct (startCamera_refused (capture s)
              (cleanup true (set_connectToLiveMemo (Some (capture s)) s)) H)
    as [-> ->].
  rewrite sessionPromiseRef_cleanup.
  destruct (sessions_cleanup (set_connectToLiveMemo (Some (capture s)) s))
    as [-> _].
  split; reflexivity.
Qed.

(** The camera is asked for first: when it is refused the component shows
    the permission screen and has created no audio context. *)
Lemma camera_refused_run now evs :
  cameraGranted env = false ->
  permissionDenied (run plan env evs (mount env now)) = true
  /\ contexts (run plan env evs (mount env now)) = [].
Proof.
  intros Hcam.
  assert (Hstart : forall cl s,
             permissionDenied (startCamera env cl s) = true
             /\ contexts (startCamera env cl s) = contexts s).
  { intros cl s. unfold startCamera. rewrite Hcam. split; reflexivity. }
  induction evs as [|ev evs IH] using rev_ind.
  - unfold run, mount. cbn [fold_left].
    match goal with
    | |- context [startCamera env ?cl ?x] =>
        destruct (Hstart cl x) as [-> ->]
    end.
    unfold initPose. destruct (poseAvailable env); split; reflexivity.
  - rewrite run_snoc. destruct IH as [IHp IHc].
    set (s := run plan env evs (mount env now)) in *.
    unfold step. destruct (exited s); [split; assumption|].
    assert (Hh : permissionDenied (handle plan ev s) = true
                 /\ contexts (handle plan ev s) = []).
    { destruct (audio_handle plan ev s) as (-> & _ & _).
      rewrite permissionDenied_handle. split; assumption. }
    destruct (exited (handle plan ev s)); [exact Hh|].
    destruct Hh as [Hp Hc]. unfold rerender.
    destruct (connectToLiveMemo (handle plan ev s)) as [cl|]; [|split; assumption].
    destruct (same_deps cl (handle plan ev s)); [split; assumption|].
    match goal with
    | |- context [startCamera env ?cl ?x] =>
        destruct (Hstart cl x) as [-> ->]
    end.
    split; [reflexivity|]. rewrite cleanup_unfold. cbn.
    rewrite Hc.
    destruct (inputAudioContextRef _) as [[|?]|], (audioContextRef _) as [[|?]|];
      reflexivity.
Qed.

(** X11. The component talks to the model only when the camera, the API
    key and the microphone are all there.  If one of them is missing, then
    over any run of the component no live session is ever opened, the
    session ref stays empty, and nothing is sent: no audio, no text, no
    tool response.  A refused camera moreover shows as
    [permissionDenied], with no audio context created. *)
Theorem no_session_without_permissions now evs :
  cameraGranted env && hasApiKey env && micGranted env = false ->
  let s := run plan env evs (mount env now) in
  sessions s = []
  /\ sessionPromiseRef s = None
  /\ outbound (log s) = []
  /\ (cameraGranted env = false ->
      permissionDenied s = true /\ contexts s = []).
Proof.
  intros Hperm s. subst s.
  enough (H : sessions (run plan env evs (mount env now)) = []
              /\ sessionPromiseRef (run plan env evs (mount env now)) = None
              /\ outbound (log (run plan env evs (mount env now))) = []).
  { destruct H as (H1 & H2 & H3). repeat split; try assumption;
      apply camera_refused_run; assumption. }
  induction evs as [|ev evs IH] using rev_ind.
  - unfold run, mount. cbn [fold_left].
    destruct (housekeeping_quiet _ (log_mount now)) as [_ Hlog].
    unfold mount in Hlog. rewrite Hlog.
    match goal with
    | |- context [startCamera env ?cl ?x] =>
        destruct (startCamera_refused cl x Hperm) as [-> ->]
    end.
    unfold initPose. destruct (poseAvailable env); repeat split.
  - rewrite run_snoc. destruct IH as (IH1 & IH2 & IH3).
    set (s := run plan env evs (mount env now)) in *.
    unfold step. destruct (exited s); [repeat split; assumption|].
    destruct (sessions_handle plan ev s) as [Hsess _].
    destruct (handle_without_session ev s IH2) as (Hs & es & Hlog & Hes).
    assert (Hh : sessions (handle plan ev s) = []
                 /\ sessionPromiseRef (handle plan ev s) = None
                 /\ outbound (log (handle plan ev s)) = []).
    { repeat split; [congruence|exact Hs|].
      now rewrite Hlog, outbound_app, IH3, Hes. }
    destruct (exited (handle plan ev s)); [exact Hh|].
    destruct Hh as (Hh1 & Hh2 & Hh3).
    destruct (rerender_refused (handle plan ev s) Hperm) as [-> ->].
    destruct (log_rerender (handle plan ev s)) as (es' & Hlog' & Hes').
    destruct (housekeeping_quiet es' Hes') as [_ Hq].
    repeat split; [exact Hh1|exact Hh2|].
    now rewrite Hlog', outbound_app, Hh3, Hq.
Qed.

(** **** What a change of the exercise index does to the audio *)

Lemma rerender_changed s cl :
  connectToLiveMemo s = Some cl -> same_deps cl s = false ->
  rerender env s
  = startCamera env (capture s)
      (cleanup true (set_connectToLiveMemo (Some (capture s)) s)).
Proof. intros Hm Hd. unfold rerender. rewrite Hm, Hd. reflexivity. Qed.





(** **** Reconnection *)

Lemma update_at_length {A} (f : A -> A) (l : list A) (b : A) :
  update_at (List.length l) f (l ++ [b]) = (l ++ [f b])%list.
Proof. induction l as [|x l IH]; cbn; [reflexivity|now rewrite IH]. Qed.



(** **** The pose tracker *)

Lemma poseInstanceRef_cleanup s :
  poseInstanceRef (cleanup true s)
  = match poseInstanceRef s with Some _ => Some true | None => None end.
Proof. rewrite cleanup_unfold. reflexivity. Qed.

Lemma poseInstanceRef_startCamera cl s :
  poseInstanceRef (startCamera env cl s) = poseInstanceRef s.
Proof.
  unfold startCamera, connectToLive, connectToLive_try, connection_failed.
  destruct (cameraGranted env), (cl_connectionStatus cl), (hasApiKey env),
    (micGranted env); reflexivity.
Qed.

Lemma poseInstanceRef_rerender s :
  poseInstanceRef s <> Some false -> poseInstanceRef (rerender env s) <> Some false.
Proof.
  intros H. unfold rerender. destruct (connectToLiveMemo s) as [cl|]; [|exact H].
  destruct (same_deps cl s); [exact H|].
  rewrite poseInstanceRef_startCamera, poseInstanceRef_cleanup. cbn.
  destruct (poseInstanceRef s); discriminate.
Qed.

Lemma poseInstanceRef_run evs s :
  poseInstanceRef s <> Some false ->
  poseInstanceRef (run plan env evs s) <> Some false.
Proof.
  intros H. induction evs as [|ev evs IH] using rev_ind; [exact H|].
  rewrite run_snoc. unfold step. destruct (exited _); [exact IH|].
  destruct (exited (handle plan ev _));
    [|apply poseInstanceRef_rerender]; rewrite poseInstanceRef_handle; exact IH.
Qed.

(** The dependencies of the memoised [connectToLive] changed across an
    event of a run: the render after it runs the camera effect again. *)
Lemma step_changed now evs ev :
  let s := run plan env evs (mount env now) in
  let s' := step plan env s ev in
  exited s' = false ->
  currentStep s' <> currentStep s \/ micActive s' <> micActive s ->
  s' = startCamera env (capture (handle plan ev s))
         (cleanup true (set_connectToLiveMemo (Some (capture (handle plan ev s)))
                     (handle plan ev s))).
Proof.
  intros s s' Hex' Hdeps.
  assert (Hex : exited s = false).
  { destruct (exited s) eqn:E; [|reflexivity].
    subst s'. rewrite exited_step in Hdeps by exact E.
    destruct Hdeps; congruence. }
  pose proof (synced_run plan env now evs Hex) as Hsync. fold s in Hsync.
  pose proof (memo_run plan env now evs) as Hmemo. fold s in Hmemo.
  subst s'. unfold step in Hex', Hdeps |- *. rewrite Hex in *.
  destruct (sessions_handle plan ev s) as [_ Hm].
  destruct (exited (handle plan ev s)) eqn:Eh; [congruence|].
  unfold synced in Hsync.
  destruct (connectToLiveMemo s) as [cl|] eqn:Ecl; [|congruence].
  apply (rerender_changed _ cl Hm).
  destruct (same_deps cl (handle plan ev s)) eqn:E; [|reflexivity]. exfalso.
  unfold rerender in Hdeps. rewrite Hm, E in Hdeps.
  unfold same_deps in Hsync, E.
  apply andb_prop in Hsync. destruct Hsync as [Hs1 Hs2].
  apply andb_prop in E. destruct E as [E1 E2].
  apply Nat.eqb_eq in Hs1, E1. apply Bool.eqb_prop in Hs2, E2.
  destruct Hdeps; congruence.
Qed.

(** X14. The pose tracker does not survive a change of exercise or of the
    microphone flag.  Over any run of the component, after an event that
    changes the exercise index or the microphone flag and does not end
    the workout, the pose tracker is closed, and whatever events follow
    it is never running again: it is created once, when the component
    mounts, and closed by the cleanup of the camera effect. *)
Theorem rerun_closes_pose_tracker now evs ev evs' :
  let s := run plan env evs (mount env now) in
  let s' := step plan env s ev in
  exited s' = false ->
  currentStep s' <> currentStep s \/ micActive s' <> micActive s ->
  poseInstanceRef (run plan env evs' s') <> Some false
  /\ (poseAvailable env = true ->
      poseInstanceRef (mount env now) = Some false
      /\ poseInstanceRef s' = Some true).
Proof.
  intros s s' Hex' Hdeps.
  pose proof (step_changed now evs ev Hex' Hdeps) as Hs'. fold s s' in Hs'.
  assert (Hpose : poseInstanceRef s'
                  = match poseInstanceRef (handle plan ev s) with
                    | Some _ => Some true
                    | None => None
                    end).
  { rewrite Hs', poseInstanceRef_startCamera, poseInstanceRef_cleanup.
    reflexivity. }
  split.
  - apply poseInstanceRef_run. rewrite Hpose.
    destruct (poseInstanceRef (handle plan ev s)); discriminate.
  - intros Hav.
    assert (Hmount : poseInstanceRef (mount env now) = Some false).
    { unfold mount. rewrite poseInstanceRef_startCamera. unfold initPose.
      rewrite Hav. reflexivity. }
    split; [exact Hmount|].
    assert (Hsome : poseInstanceRef s <> None).
    { subst s. clear -Hmount. induction evs as [|e evs IH] using rev_ind.
      - cbn. rewrite Hmount. discriminate.
      - rewrite run_snoc. unfold step. destruct (exited _); [exact IH|].
        destruct (exited (handle plan e _)).
        + rewrite poseInstanceRef_handle. exact IH.
        + unfold rerender. destruct (connectToLiveMemo _) as [cl|].
          * destruct (same_deps cl _).
            -- rewrite poseInstanceRef_handle. exact IH.
            -- rewrite poseInstanceRef_startCamera, poseInstanceRef_cleanup.
               cbn. rewrite poseInstanceRef_handle.
               destruct (poseInstanceRef (run plan env evs (mount env now)));
                 [discriminate|congruence].
          * rewrite poseInstanceRef_handle. exact IH. }
    rewrite Hpose, poseInstanceRef_handle.
    destruct (poseInstanceRef s); [reflexivity|congruence].
Qed.

(** **** The media streams *)











(** **** The playback cursor across a reconnection *)

Lemma length_update_at {A} (f : A -> A) i (l : list A) :
  List.length (update_at i f l) = List.length l.
Proof.
  revert i. induction l as [|x l IH]; intros [|i]; cbn; try reflexivity.
  now rewrite IH.
Qed.

Lemma length_close_of ref cs : List.length (close_of ref cs) = List.length cs.
Proof. destruct ref; [apply length_update_at|reflexivity]. Qed.

(** The playback context that the [try] block creates. *)
Lemma connectToLive_try_playback cl x :
  hasApiKey env = true -> micGranted env = true ->
  let r := connectToLive_try env cl x in
  audioContextRef r = Some (List.length (contexts x))
  /\ nth_error (contexts r) (List.length (contexts x))
     = Some {| ctx_sampleRate := Codec.PCM_SAMPLE_RATE; ctx_closed := false;
               ctx_processor := None |}
  /\ nextStartTimeRef r = nextStartTimeRef x.
Proof.
  intros Hkey Hmic r. subst r. unfold connectToLive_try.
  rewrite Hkey, Hmic. cbn [negb]. cbv iota zeta.
  split; [reflexivity|]. split; [|reflexivity].
  unfold createScriptProcessor, newAudioContext. cbn.
  rewrite update_at_length, nth_error_app1
    by (rewrite length_app; cbn; lia).
  rewrite nth_error_app2 by lia. rewrite Nat.sub_diag. reflexivity.
Qed.

Lemma micActive_rerender s : micActive (rerender env s) = micActive s.
Proof.
  unfold rerender. destruct (connectToLiveMemo s) as [cl|]; [|reflexivity].
  destruct (same_deps cl s); [reflexivity|].
  destruct (deps_startCamera env (capture s)
              (cleanup true (set_connectToLiveMemo (Some (capture s)) s)))
    as (_ & -> & _).
  destruct (deps_cleanup (set_connectToLiveMemo (Some (capture s)) s))
    as (_ & -> & _).
  reflexivity.
Qed.

(** X18. A reconnection does not reset the playback cursor.  Over any run
    of the component with the camera, the API key and the microphone
    available, when a press of the microphone button or of the next button
    finds it disconnected and does not end the workout, a new playback
    context is created and held by the ref, but [nextStartTime] keeps the
    value it had for the old context: the first segment received
    afterwards is started on the new context at the maximum of its current
    time and the old cursor. *)
Theorem cursor_survives_reconnection now evs ev msg t0 currentTime payload
    buffer :
  let s := run plan env evs (mount env now) in
  let s' := step plan env s ev in
  cameraGranted env = true -> hasApiKey env = true -> micGranted env = true ->
  connectionStatus s = disconnected ->
  ev = ToggleMic \/ ev = ManualNext ->
  exited s' = false ->
  truthy (audioData msg) = Some payload ->
  Codec.decodeAudioData payload = Some buffer ->
  nextStartTimeRef s' = nextStartTimeRef s
  /\ audioContextRef s' = Some (List.length (contexts s))
  /\ nth_error (contexts s') (List.length (contexts s))
     = Some {| ctx_sampleRate := Codec.PCM_SAMPLE_RATE; ctx_closed := false;
               ctx_processor := None |}
  /\ In (SourceStart (List.length (contexts s)) buffer
           (Qmax currentTime (nextStartTimeRef s)))
        (emitted s' (onmessage plan msg t0 currentTime s')).
Proof.
  intros s s' Hcam Hkey Hmic Hst Hev Hex' Ha Hd.
  assert (Hex : exited s = false).
  { destruct (exited s) eqn:E; [|reflexivity].
    subst s'. rewrite exited_step in Hex' by exact E. congruence. }
  assert (Hh : connectionStatus (handle plan ev s) = disconnected
               /\ nextStartTimeRef (handle plan ev s) = nextStartTimeRef s).
  { destruct Hev as [-> | ->]; cbn [handle].
    - split; [exact Hst|reflexivity].
    - rewrite handleNextStep_unfold. split; [exact Hst|reflexivity]. }
  destruct Hh as [Hsth Hcur].
  assert (Hdeps : currentStep s' <> currentStep s \/ micActive s' <> micActive s).
  { destruct Hev as [-> | ->].
    - right. subst s'. unfold step in Hex' |- *. rewrite Hex in *.
      cbn [handle exited set_micActive] in Hex' |- *. rewrite Hex in *.
      rewrite micActive_rerender. cbn. destruct (micActive s); discriminate.
    - left. destruct (step_ManualNext s Hex) as (Hcs & Hexs & _).
      fold s' in Hcs, Hexs. rewrite Hexs in Hex'. rewrite Hex' in Hcs.
      rewrite Hcs. lia. }
  pose proof (step_changed now evs ev Hex' Hdeps) as Hs'. fold s s' in Hs'.
  destruct (audio_handle plan ev s) as (Hc & _ & _).
  set (h := handle plan ev s) in *.
  set (s1 := set_connectToLiveMemo (Some (capture h)) h) in *.
  assert (Hlen : List.length (contexts (cleanup true s1)) = List.length (contexts s)).
  { rewrite cleanup_unfold. cbn. rewrite !length_close_of, Hc. reflexivity. }
  assert (Hcur1 : nextStartTimeRef (cleanup true s1) = nextStartTimeRef s).
  { destruct (quiet_cleanup s1) as [-> _]. exact Hcur. }
  unfold startCamera in Hs'. rewrite Hcam in Hs'.
  unfold connectToLive, capture in Hs'. cbn [cl_connectionStatus] in Hs'.
  rewrite Hsth in Hs'.
  match type of Hs' with
  | _ = connectToLive_try env ?c ?x =>
      destruct (connectToLive_try_playback c x Hkey Hmic) as (Hr1 & Hr2 & Hr3)
  end.
  rewrite <- Hs' in Hr1, Hr2, Hr3. cbn in Hr1, Hr2, Hr3.
  rewrite Hlen in Hr1, Hr2. rewrite Hcur1 in Hr3.
  split; [exact Hr3|]. split; [exact Hr1|]. split; [exact Hr2|].
  rewrite (onmessage_audio plan _ _ _ _ _ _ _ Ha Hr1 Hd), Hr3.
  destruct (quiet_handleToolCall plan t0 msg _ _
              (quiet_refl
                 (set_nextStartTimeRef
                    (Qmax currentTime (nextStartTimeRef s) + Codec.duration buffer)%Q
                    (emit (SourceStart (List.length (contexts s)) buffer
                             (Qmax currentTime (nextStartTimeRef s)))
                       (triggerHaptic [50] (set_aiSpeaking true s'))))))
    as (_ & es & Hl & _).
  erewrite emitted_app;
    [|rewrite Hl; cbn; rewrite <- !app_assoc; reflexivity].
  cbn. right. left. reflexivity.
Qed.

End Handlers.

(** **** The overlay renderer *)

(** X16. Every frame of the overlay is self-contained.  Without a canvas
    nothing is drawn.  With one, the drawing is [save], a clear of the
    whole canvas, a body, the four corner brackets and [restore]; the body
    holds no [save] or [restore], is empty when no pose was detected, and
    in the whole drawing every path that is begun is filled or stroked
    before the next one begins. *)
Theorem overlay_frame_self_contained win canvas state poseLandmarks :
  match canvas with
  | None => onPoseResults win canvas state poseLandmarks = []
  | Some (w, h) =>
      exists body,
        onPoseResults win canvas state poseLandmarks
        = ([Save; ClearRect 0 0 w h] ++ body ++ corners w h ++ [Restore])%list
        /\ existsb is_bracket body = false
        /\ (poseLandmarks = None -> body = [])
        /\ paths_painted false (onPoseResults win canvas state poseLandmarks)
           = true
  end.
Proof.
  destruct canvas as [[w h]|]; [|reflexivity].
  unfold onPoseResults, skeleton.
  destruct poseLandmarks as [landmarks|].
  - destruct (targetLandmark state landmarks) as [target|];
      destruct (drawConnectors win), (drawLandmarks win);
      eexists; (split; [reflexivity|]);
      (split; [reflexivity|]); (split; [discriminate|reflexivity]).
  - exists []. repeat split.
Qed.

Lemma next_button_presses_witness :
  let s := run plan3 granted (repeat ManualNext 5) (mount granted 0) in
  currentStep s = 2%nat
  /\ exited s = true
  /\ List.length (filter is_exit (log s)) = 1%nat.
Proof.
  apply (next_button_presses plan3 granted 0 5). discriminate.
Defined.

Lemma no_session_without_permissions_witness :
  (let s := run plan3 microphone_refused [ToggleMic; ManualNext]
              (mount microphone_refused 0) in
   sessions s = [] /\ sessionPromiseRef s = None /\ outbound (log s) = [])
  /\ (let s := run plan3 camera_refused [ToggleMic; ManualNext]
                 (mount camera_refused 0) in
      sessions s = [] /\ outbound (log s) = []
      /\ permissionDenied s = true /\ contexts s = []).
Proof.
  split.
  - destruct (no_session_without_permissions plan3 microphone_refused 0
                [ToggleMic; ManualNext] eq_refl) as (H1 & H2 & H3 & _).
    repeat split; assumption.
  - destruct (no_session_without_permissions plan3 camera_refused 0
                [ToggleMic; ManualNext] eq_refl) as (H1 & _ & H3 & H4).
    destruct (H4 eq_refl) as [H5 H6].
    repeat split; assumption.
Defined.



Lemma rerun_closes_pose_tracker_witness :
  let s := run plan3 granted [Open 0%nat] (mount granted 0) in
  let s' := step plan3 granted s ToggleMic in
  poseInstanceRef (run plan3 granted [ManualNext] s') <> Some false
  /\ poseInstanceRef (mount granted 0) = Some false
  /\ poseInstanceRef s' = Some true.
Proof.
  intros s s'.
  assert (Hdeps : currentStep s' <> currentStep s \/ micActive s' <> micActive s)
    by (right; vm_compute; discriminate).
  destruct (rerun_closes_pose_tracker plan3 granted 0 [Open 0%nat] ToggleMic
              [ManualNext] eq_refl Hdeps) as [H1 H2].
  destruct (H2 eq_refl) as [H3 H4].
  repeat split; assumption.
Defined.

Lemma cursor_survives_reconnection_witness :
  let s := run plan3 granted
             [Open 0%nat; Message (audio "/38AgA==") 0 5; Close]
             (mount granted 0) in
  let s' := step plan3 granted s ToggleMic in
  exists buffer,
    Codec.decodeAudioData "/38AgA==" = Some buffer
    /\ nextStartTimeRef s' = nextStartTimeRef s
    /\ audioContextRef s' = Some (List.length (contexts s))
    /\ nth_error (contexts s') (List.length (contexts s))
       = Some {| ctx_sampleRate := Codec.PCM_SAMPLE_RATE; ctx_closed := false;
                 ctx_processor := None |}
    /\ In (SourceStart (List.length (contexts s)) buffer
             (Qmax 0 (nextStartTimeRef s)))
          (emitted s' (onmessage plan3 (audio "/38AgA==") 9 0 s')).
Proof.
  intros s s'. eexists. split; [vm_compute; reflexivity|].
  apply (cursor_survives_reconnection plan3 granted 0
           [Open 0%nat; Message (audio "/38AgA==") 0 5; Close]
           ToggleMic (audio "/38AgA==") 9 0 "/38AgA=="); try reflexivity.
  left. reflexivity.
Defined.

Lemma overlay_stays_well_typed_witness :
  let o := overlayStateRef
             (run plan3 granted [Open 0%nat; Message mixed_message 7 0]
                (mount granted 0)) in
  In (status o) FormStatus
  /\ In (focusArea o) FocusArea
  /\ (status o = "scanning" -> o = overlayStateRef (initial 0)).
Proof.
  apply (overlay_stays_well_typed plan3 granted 0
           [Open 0%nat; Message mixed_message 7 0]).
  apply Forall_cons; [exact I|]. apply Forall_cons; [|apply Forall_nil].
  cbn. unfold mixed_calls.
  repeat (apply Forall_cons || apply Forall_nil); intros E;
    try discriminate E.
  split; cbn; auto 10.
Defined.

Lemma tool_calls_acknowledged_witness :
  let es := emitted live3 (handleToolCall plan3 7 mixed_message live3) in
  acknowledged "updateFormFeedback" es = ["a"]
  /\ acknowledged "nextExercise" es = ["c"]
  /\ Forall (fun r => fst r = "updateFormFeedback" \/ fst r = "nextExercise")
       (tool_responses es).
Proof.
  exact (tool_calls_acknowledged plan3 7 mixed_message live3 0%nat mixed_calls
           eq_refl eq_refl).
Defined.

End LiveSessionCoverage.

(* ------------------------------------------------------------------ *)
(** ** Properties of the application shell                              *)
(* ------------------------------------------------------------------ *)

Module AppFacts.

Import LiveSession App.

Lemma runApp_snoc actions a : runApp (actions ++ [a]) = act (runApp actions) a.
Proof. unfold runApp. rewrite fold_left_app. reflexivity. Qed.

(** A plan is active only in the live view, and the view is never the
    one no button leads to. *)
Lemma plan_only_in_live_view actions :
  let st := runApp actions in
  (activePlan st = None \/ currentView st = LIVE_SESSION)
  /\ currentView st <> ANALYSIS.
Proof.
  induction actions as [|a actions IH] using rev_ind.
  - cbn. split; [left; reflexivity|discriminate].
  - rewrite runApp_snoc. cbv zeta in IH. destruct IH as [IH1 IH2].
    destruct (runApp actions) as [view plan th]. cbn in IH1, IH2.
    destruct a as [|item|p|];
      [ | destruct item as [|[|[|[|item]]]] | | ];
      destruct view, plan; cbn;
      try (exfalso; apply IH2; reflexivity);
      try (destruct IH1 as [IH1|IH1]; discriminate IH1);
      (split; [first [left; reflexivity | right; reflexivity]|discriminate]).
Qed.

(** X17. The live session is shown exactly when a plan is active, and it
    can only be left through its own [onExit].  Over any sequence of
    actions on [App]: [LiveSession] is rendered with a plan exactly when
    that plan is the active one; while it is rendered, or while the planner
    is rendered in the live view, the navigation is hidden and the only
    action with an effect is the exit of the session, respectively the
    start of a workout; and the exit leads to the dashboard with no plan
    active and the theme kept. *)
Theorem live_view_lifecycle actions :
  let st := runApp actions in
  (forall plan, renderView st = LiveSessionView plan <-> activePlan st = Some plan)
  /\ (navigationShown st = false ->
      forall a, act st a <> st ->
        match activePlan st with
        | Some _ => a = SessionExit
        | None => exists plan, a = ClickStart plan
        end)
  /\ (forall plan,
         activePlan st = Some plan ->
         act st SessionExit
         = {| currentView := DASHBOARD; activePlan := None; theme := theme st |}
         /\ navigationShown (act st SessionExit) = true).
Proof.
  intros st. destruct (plan_only_in_live_view actions) as [Hplan Hview].
  fold st in Hplan, Hview. destruct st as [view plan th]. cbn in Hplan, Hview.
  split; [|split].
  - intros p. unfold renderView. cbn. split.
    + destruct view; try discriminate. destruct plan; [|discriminate].
      intros [= ->]. reflexivity.
    + intros Hp. subst plan.
      destruct Hplan as [H| ->]; [discriminate|reflexivity].
  - unfold navigationShown. cbn. destruct view; try discriminate. intros _ a.
    destruct a as [|item|p|]; unfold act, renderView, navigationShown; cbn;
      destruct plan; cbn; try congruence; eauto.
  - intros p Hp. cbn in Hp. subst plan.
    destruct Hplan as [H| ->]; [discriminate|].
    split; reflexivity.
Qed.

End AppFacts.
